(** * BERT4rec-MAML: the meta-loss networks and the pre-training loop

    A shallow embedding of [src/models/meta_loss_model.py] and
    [src/pretrain.py].  Tensor entries are real numbers (the idealisation of
    the floats PyTorch computes with); tensors are a shape together with the
    row-major list of their entries; the tensors a module owns and the
    tensors that receive an in-place write live in a store and are accessed
    through strided views, as in PyTorch. *)

From Stdlib Require Import Reals Lra Lia ZArith List.
From stdpp Require Import base option list gmap strings.
Import ListNotations.

Open Scope R_scope.

(** ** The part of PyTorch the two files rely on *)

Module Torch.

(** Python exception classes raised by the operations below. *)
Inductive exn : Set :=
| IndexError        (* an index or a dimension is out of range *)
| RuntimeError      (* sizes do not match / cannot be broadcast *)
| ValueError        (* unpacking a shape of the wrong rank; raised by [load] *)
| FileNotFoundError (* [torch.load] on a path that does not exist *).

#[global] Instance exn_eq_dec : EqDecision exn.
Proof. solve_decision. Defined.

Definition res (A : Type) : Type := exn + A.

Definition rbind {A B : Type} (r : res A) (k : A -> res B) : res B :=
  match r with
  | inl e => inl e
  | inr a => k a
  end.

(** A tensor value: its shape and its entries in row-major order. *)
Record tensor (A : Type) : Type := Tensor { shape : list nat; data : list A }.
Arguments Tensor {A} _ _.
Arguments shape {A} _.
Arguments data {A} _.

Definition numel (s : list nat) : nat := fold_right Nat.mul 1%nat s.

Definition wf {A : Type} (t : tensor A) : Prop :=
  length (data t) = numel (shape t).

Definition Rsum (l : list R) : R := fold_right Rplus 0 l.

(** [chunks k n d]: the [n] consecutive blocks of [k] entries of [d]. *)
Fixpoint chunks {A : Type} (k n : nat) (d : list A) : list (list A) :=
  match n with
  | O => []
  | S n' => firstn k d :: chunks k n' (skipn k d)
  end.

(** The entry at row [i] and column [j] of a two-dimensional tensor. *)
Definition get2 {A : Type} (dflt : A) (v : tensor A) (i j : nat) : A :=
  nth (i * nth 1 (shape v) 0%nat + j) (data v) dflt.

(** *** Strided views of a storage *)

Definition loc : Set := positive.

(** A tensor object: the storage it reads, and the sizes and strides through
    which it reads it.  [squeeze] and [permute] return such a view of the
    same storage; [repeat] and the arithmetic operations allocate. *)
Record tref : Set := TRef { ref_loc : loc; ref_shape : list nat; ref_strides : list nat }.

Fixpoint contiguous_strides (s : list nat) : list nat :=
  match s with
  | [] => []
  | _ :: s' => numel s' :: contiguous_strides s'
  end.

(** The storage offsets of the entries of a view, in row-major order. *)
Fixpoint positions (off : nat) (s strides : list nat) : list nat :=
  match s, strides with
  | [], _ => [off]
  | n :: s', k :: strides' =>
      flat_map (fun i => positions (off + i * k) s' strides') (seq 0 n)
  | _ :: _, [] => []
  end.

Definition gather (d : list R) (ps : list nat) : list R :=
  map (fun p => nth p d 0) ps.

Definition scatter (d : list R) (ps : list nat) (vs : list R) : list R :=
  fold_left (fun acc pv => <[fst pv := snd pv]> acc) (combine ps vs) d.

(** [Tensor.squeeze()] with no argument: every dimension of size 1 is
    dropped, the batch dimension included. *)
Fixpoint squeeze_dims (s strides : list nat) : list nat * list nat :=
  match s, strides with
  | n :: s', k :: strides' =>
      let r := squeeze_dims s' strides' in
      if decide (n = 1%nat) then r else (n :: fst r, k :: snd r)
  | _, _ => ([], [])
  end.

Definition squeeze (r : tref) : tref :=
  let sq := squeeze_dims (ref_shape r) (ref_strides r) in
  TRef (ref_loc r) (fst sq) (snd sq).

(** [Tensor.permute(dims)]: a view with the axes reordered.  There must
    be as many [dims] as axes; then they are checked one after the other,
    an axis out of range raising [IndexError] and an axis given twice
    [RuntimeError]. *)
Fixpoint permute_check (n : nat) (seen dims : list nat) : res unit :=
  match dims with
  | [] => inr tt
  | i :: dims' =>
      if decide (n <= i)%nat then inl IndexError
      else if decide (i ∈ seen) then inl RuntimeError
      else permute_check n (i :: seen) dims'
  end.

Definition permute (r : tref) (dims : list nat) : res tref :=
  if decide (length dims = length (ref_shape r)) then
    rbind (permute_check (length (ref_shape r)) [] dims) (fun _ =>
      inr (TRef (ref_loc r)
                (map (fun i => nth i (ref_shape r) 0%nat) dims)
                (map (fun i => nth i (ref_strides r) 0%nat) dims)))
  else inl RuntimeError.

(** PyTorch's contiguity test: walking the axes from the last one, every
    axis of size other than 1 must have the stride of a dense layout. *)
Fixpoint is_contiguous_rev (rs rstrides : list nat) (z : nat) : bool :=
  match rs, rstrides with
  | n :: rs', k :: rstrides' =>
      if (n =? 1)%nat then is_contiguous_rev rs' rstrides' z
      else if (k =? z)%nat then is_contiguous_rev rs' rstrides' (z * n)
      else false
  | _, _ => true
  end.

Definition is_contiguous (r : tref) : bool :=
  (numel (ref_shape r) =? 0)%nat
  || is_contiguous_rev (rev (ref_shape r)) (rev (ref_strides r)) 1.

(** Broadcasting a tensor of sizes [ms] (strides [mk]) to the sizes [ts]:
    the axes are aligned from the last one (all three lists are given
    reversed); an axis of size 1 or a missing leading axis is read with
    stride 0.  A tensor with more axes than the target cannot be expanded. *)
Fixpoint expand_rev (ts ms mk : list nat) : option (list nat) :=
  match ts with
  | [] => match ms with [] => Some [] | _ :: _ => None end
  | t :: ts' =>
      match ms, mk with
      | [], _ => cons 0%nat <$> expand_rev ts' [] []
      | m :: ms', k :: mk' =>
          if decide (m = t) then cons k <$> expand_rev ts' ms' mk'
          else if decide (m = 1%nat) then cons 0%nat <$> expand_rev ts' ms' mk'
          else None
      | _ :: _, [] => None
      end
  end.

Definition expand_strides (ms ts : list nat) : option (list nat) :=
  @rev nat <$> expand_rev (rev ts) (rev ms) (rev (contiguous_strides ms)).

(** *** The store and the monad of tensor programs *)

Definition M (A : Type) : Type :=
  gmap loc (list R) -> gmap loc (list R) * res A.

Definition ret {A : Type} (a : A) : M A := fun h => (h, inr a).

Definition raise {A : Type} (e : exn) : M A := fun h => (h, inl e).

Definition lift {A : Type} (r : res A) : M A := fun h => (h, r).

Definition bind {A B : Type} (m : M A) (k : A -> M B) : M B :=
  fun h => match m h with
           | (h', inl e) => (h', inl e)
           | (h', inr a) => k a h'
           end.

(** A fresh tensor holding [v]. *)
Definition t_new (v : tensor R) : M tref :=
  fun h => let l := fresh (dom h) in
           (<[l := data v]> h,
            inr (TRef l (shape v) (contiguous_strides (shape v)))).

(** The value seen through a view. *)
Definition t_read (r : tref) : M (tensor R) :=
  fun h => match h !! ref_loc r with
           | Some d => (h, inr (Tensor (ref_shape r)
                                  (gather d (positions 0 (ref_shape r) (ref_strides r)))))
           | None => (h, inl RuntimeError)
           end.

(** An in-place write through a view: the storage itself is updated. *)
Definition t_write (r : tref) (vs : list R) : M unit :=
  fun h => match h !! ref_loc r with
           | Some d => (<[ref_loc r :=
                           scatter d (positions 0 (ref_shape r) (ref_strides r)) vs]> h,
                        inr tt)
           | None => (h, inl RuntimeError)
           end.

Declare Scope torch_scope.
Delimit Scope torch_scope with torch.
Notation "x <- m ;; k" := (bind m (fun x => k))
  (at level 100, m at next level, right associativity) : torch_scope.
Open Scope torch_scope.

(** [Tensor.repeat(reps)]: the tensor is tiled [reps] times along each
    axis, leading axes of size 1 being added when [reps] is longer than the
    shape.  The result is always a new tensor. *)
Fixpoint tile (s reps : list nat) (d : list R) : list R :=
  match s, reps with
  | n :: s', r :: reps' =>
      concat (repeat (flat_map (tile s' reps') (chunks (numel s') n d)) r)
  | _, _ => d
  end.

Definition repeat_val (v : tensor R) (reps : list nat) : res (tensor R) :=
  if decide (length (shape v) <= length reps)%nat then
    let s := repeat 1%nat (length reps - length (shape v)) ++ shape v in
    inr (Tensor (zip_with Nat.mul reps s) (tile s reps (data v)))
  else inl RuntimeError.

Definition t_repeat (r : tref) (reps : list nat) : M tref :=
  v <- t_read r ;;
  v' <- lift (repeat_val v reps) ;;
  t_new v'.

(** [Tensor.contiguous()]: the tensor itself when its layout is already
    dense, a dense copy otherwise. *)
Definition t_contiguous (r : tref) : M tref :=
  if is_contiguous r then ret r
  else v <- t_read r ;; t_new v.

(** [Tensor.masked_fill_(mask, value)]: in place, so the mask is expanded to
    the sizes of the receiver and the receiver keeps its sizes; the
    receiver is returned. *)
Definition masked_fill_ (r : tref) (mask : tensor bool) (value : R) : M tref :=
  match expand_strides (shape mask) (ref_shape r) with
  | None => raise RuntimeError
  | Some mk =>
      v <- t_read r ;;
      let m := map (fun p => nth p (data mask) false)
                   (positions 0 (ref_shape r) mk) in
      _ <- t_write r (zip_with (fun (b : bool) x => if b then value else x)
                               m (data v)) ;;
      ret r
  end.

(** [F.softmax(v, dim)].  The exponential of the entry at row-major
    position [p] is divided by the sum, over the axis [dim], of the
    exponentials of the entries that agree with it on every other axis.
    The entries are real numbers: the rounding of the floating-point
    numbers of the code is left out, under which a quotient that is
    positive here can come out as 0 (the exponential of a very negative
    number underflows), so of the sign of a weight only [0 <=] is stated
    below. *)
Definition softmax (v : tensor R) (dim : nat) : res (tensor R) :=
  if decide (dim < Nat.max 1 (length (shape v)))%nat then
    let n := nth dim (shape v) 1%nat in
    let inner := numel (skipn (S dim) (shape v)) in
    let d := data v in
    inr (Tensor (shape v)
           (map (fun p =>
                   exp (nth p d 0) /
                   Rsum (map (fun j => exp (nth (p / (n * inner) * (n * inner)
                                                 + j * inner + p mod inner) d 0))
                             (seq 0 n)))
                (seq 0 (numel (shape v)))))
  else inl IndexError.

Definition t_abs (v : tensor R) : tensor R :=
  Tensor (shape v) (map Rabs (data v)).

Definition relu (v : tensor R) : tensor R :=
  Tensor (shape v) (map (Rmax 0) (data v)).

(** [x == 0] on integer and on real tensors. *)
Definition eq_zero_Z (x : tensor Z) : tensor bool :=
  Tensor (shape x) (map (fun z => bool_decide (z = 0%Z)) (data x)).

Definition eq_zero_R (x : tensor R) : tensor bool :=
  Tensor (shape x) (map (fun r => if Req_dec_T r 0 then true else false) (data x)).

(** [nn.Linear]: applied to the last axis. *)
Record Linear : Type := mkLinear {
  in_features : nat;
  out_features : nat;
  weight : list (list R);   (* [out_features] rows of [in_features] entries *)
  bias : list R
}.

Definition dot (w v : list R) : R := Rsum (zip_with Rmult w v).

Definition linear (l : Linear) (x : tensor R) : res (tensor R) :=
  match last (shape x) with
  | Some k =>
      if decide (k = in_features l) then
        let outer := removelast (shape x) in
        inr (Tensor (outer ++ [out_features l])
               (flat_map (fun v =>
                            map (fun j => dot (nth j (weight l) []) v + nth j (bias l) 0)
                                (seq 0 (out_features l)))
                         (chunks k (numel outer) (data x))))
      else inl RuntimeError
  | None => inl RuntimeError
  end.

(** [nn.Embedding]: a table of [num_embeddings] rows; a token outside
    [0, num_embeddings) raises. *)
Record Embedding : Type := mkEmbedding {
  num_embeddings : nat;
  embedding_dim : nat;
  table : list R
}.

Definition embed (e : Embedding) (x : tensor Z) : res (tensor R) :=
  if decide (Forall (fun z => (0 <= z < Z.of_nat (num_embeddings e))%Z) (data x)) then
    inr (Tensor (shape x ++ [embedding_dim e])
           (flat_map (fun z => firstn (embedding_dim e)
                                 (skipn (Z.to_nat z * embedding_dim e) (table e)))
                     (data x)))
  else inl IndexError.

(** [nn.LSTM] with [batch_first=True], as the function it computes: from
    the input of sizes (batch, time, features) and the initial states of
    sizes (layers, batch, width) to the output of sizes
    (batch, time, width) and the final states. *)
Definition LSTM : Type :=
  tensor R -> tensor R * tensor R -> res (tensor R * (tensor R * tensor R)).

(** A computation keeps the tensors stored at the locations [D]: they stay
    allocated with the same contents, whether it returns or raises; [Q]
    holds of what it returns. *)
Definition preserves {A : Type} (D : gset loc) (m : M A) (Q : A -> Prop) : Prop :=
  forall h h' r, D ⊆ dom h -> m h = (h', r) ->
    D ⊆ dom h' /\ (forall l, l ∈ D -> h' !! l = h !! l) /\
    (forall a, r = inr a -> Q a).

(** [nn.ModuleList.__getitem__] for an integer index: Python's indexing,
    where a negative index counts from the end. *)
Definition getitem {A : Type} (l : list A) (idx : Z) : res A :=
  let n := Z.of_nat (length l) in
  if decide (- n <= idx < n)%Z then
    match l !! Z.to_nat (if decide (idx < 0)%Z then idx + n else idx) with
    | Some a => inr a
    | None => inl IndexError
    end
  else inl IndexError.

End Torch.

(** ** [src/models/meta_loss_model.py] *)

Import Torch.
Open Scope torch_scope.

(** Random initial parameters ([torch.randn], the default initialisation of
    [nn.Linear] and [nn.Embedding]) are drawn from a stream [g] that the
    constructors take. *)
Definition randn (g : nat -> R) (s : list nat) : tensor R :=
  Tensor s (map g (seq 0 (numel s))).

Definition new_linear (g : nat -> nat -> R) (n_in n_out : nat) : Linear :=
  mkLinear n_in n_out
    (map (fun j => map (g j) (seq 0 n_in)) (seq 0 n_out))
    (map (fun j => g j n_in) (seq 0 n_out)).

Module MetaStepLossNetwork.
(** An entry of [self.layers]: [nn.Sequential(nn.Linear, nn.ReLU)] or a bare
    [nn.Linear]. *)
Inductive layer : Type :=
| LinearReLU (l : Linear)
| LinearOnly (l : Linear).

Record t : Type := mk { layers : list layer }.

Definition init (g : nat -> nat -> nat -> R)
    (num_loss_hidden : nat) (num_loss_layers : Z) : t :=
  let k := Z.to_nat (num_loss_layers - 1) in
  mk (map (fun i => LinearReLU (new_linear (g i) num_loss_hidden num_loss_hidden))
          (seq 0 k)
      ++ [LinearOnly (new_linear (g k) num_loss_hidden 1)]).

Definition apply_layer (l : layer) (x : tensor R) : res (tensor R) :=
  match l with
  | LinearReLU lin => rbind (linear lin x) (fun y => inr (relu y))
  | LinearOnly lin => linear lin x
  end.

Definition forward (self : t) (x : tensor R) : res (tensor R) :=
  fold_left (fun acc l => rbind acc (apply_layer l)) (layers self) (inr x).

End MetaStepLossNetwork.

Module MetaLossNetwork.

Record t : Type := mk {
  loss_layers : list MetaStepLossNetwork.t;
  use_step_loss : bool
}.

Definition init (g : nat -> nat -> nat -> nat -> R)
    (num_inner_steps : Z) (num_loss_hidden : nat) (num_loss_layers : Z)
    (use_step_loss : bool) : t :=
  if use_step_loss then
    mk (map (fun s => MetaStepLossNetwork.init (g s) num_loss_hidden num_loss_layers)
            (seq 0 (Z.to_nat num_inner_steps)))
       true
  else
    mk [MetaStepLossNetwork.init (g 0%nat) num_loss_hidden num_loss_layers] false.

Definition forward (self : t) (x : tensor R) (step : Z) : res (tensor R) :=
  if use_step_loss self then
    rbind (getitem (loss_layers self) step)
          (fun l => MetaStepLossNetwork.forward l x)
  else
    rbind (getitem (loss_layers self) 0%Z)
          (fun l => MetaStepLossNetwork.forward l x).

End MetaLossNetwork.

(** The fill value of both weighting networks, [float('-98765')]. *)
Definition sentinel : R := - 98765.

(** The expression both [forward] methods end with, given the tensor [y]
    the scalar head returned. *)
Definition weights (use_softmax : bool) (y : tref) (mask : tensor bool)
    : M (tensor R) :=
  if use_softmax then
    y <- masked_fill_ (squeeze y) mask sentinel ;;
    v <- t_read y ;;
    lift (softmax v 1)
  else
    v <- t_read (squeeze y) ;;
    ret (t_abs v).

Module MetaTaskLstmNetwork.

Record t : Type := mk {
  embedding : Embedding;
  h0 : tref;
  c0 : tref;
  lstm : LSTM;
  out_net : Linear;
  use_softmax : bool
}.

Definition lstm_out_size (lstm_hidden lstm_out : nat) : nat :=
  if decide (lstm_out = 0%nat) then lstm_hidden else lstm_out.

(** The constructor; [enc] is the [nn.LSTM] it builds.  The constructor of
    [nn.LSTM] raises [ValueError] unless [hidden_size] and [num_layers] are
    above 0 and [proj_size] is below [hidden_size]; the two initial-state
    parameters have been drawn by then. *)
Definition init (g : nat -> nat -> R) (enc : LSTM)
    (input_size lstm_hidden num_lstm_layers lstm_out : nat) (use_softmax : bool)
    : M t :=
  let w := lstm_out_size lstm_hidden lstm_out in
  h <- t_new (randn (g 1%nat) [num_lstm_layers; w]) ;;
  c <- t_new (randn (g 2%nat) [num_lstm_layers; lstm_hidden]) ;;
  if decide (0 < lstm_hidden /\ 0 < num_lstm_layers /\ lstm_out < lstm_hidden)%nat then
    ret (mk (mkEmbedding 7 input_size (map (g 0%nat) (seq 0 (7 * input_size))))
            h c enc
            (new_linear (fun j i => g (3 + j)%nat i) w 1)
            use_softmax)
  else raise ValueError.

(** What [nn.LSTM(input_size, hidden, layers, batch_first=True, proj_size)]
    guarantees: on an input of sizes (b, t, input_size) with initial states
    of sizes (layers, b, w) and (layers, b, hidden) it returns an output of
    sizes (b, t, w). *)
Definition lstm_ok (f : LSTM) (input_size layers hidden w : nat) : Prop :=
  forall (x hv cv : tensor R) (b t : nat),
    (0 < b)%nat -> (0 < t)%nat ->
    shape x = [b; t; input_size] -> wf x ->
    shape hv = [layers; b; w] -> wf hv ->
    shape cv = [layers; b; hidden] -> wf cv ->
    exists out st, f x (hv, cv) = inr (out, st) /\ shape out = [b; t; w] /\ wf out.

(** The state of a network between two calls: the two initial-state
    parameters are dense tensors of sizes (layers, w) and (layers, hidden)
    in the store, and the sub-modules have the sizes the constructor gives
    them. *)
Definition valid (self : t) (h : gmap loc (list R)) (layers hidden w : nat) : Prop :=
  (exists d, h0 self = TRef (ref_loc (h0 self)) [layers; w] (contiguous_strides [layers; w])
             /\ h !! ref_loc (h0 self) = Some d /\ length d = (layers * w)%nat) /\
  (exists d, c0 self = TRef (ref_loc (c0 self)) [layers; hidden]
                            (contiguous_strides [layers; hidden])
             /\ h !! ref_loc (c0 self) = Some d /\ length d = (layers * hidden)%nat) /\
  length (table (embedding self))
  = (num_embeddings (embedding self) * embedding_dim (embedding self))%nat /\
  lstm_ok (lstm self) (embedding_dim (embedding self)) layers hidden w /\
  in_features (out_net self) = w /\
  out_features (out_net self) = 1%nat.

(** [b, t, _ = x.shape] *)
Definition unpack3 (s : list nat) : res (nat * nat * nat) :=
  match s with
  | [b; t; e] => inr (b, t, e)
  | _ => inl ValueError
  end.

(** [p.repeat(b, 1, 1).permute(1, 0, 2).contiguous()] *)
Definition initial_state (p : tref) (b : nat) : M tref :=
  r <- t_repeat p [b; 1%nat; 1%nat] ;;
  r <- lift (permute r [1%nat; 0%nat; 2%nat]) ;;
  t_contiguous r.

(** The token ids are given as integers, on which [x.long()] changes
    nothing; the mask is taken from them before they are embedded. *)
Definition forward (self : t) (x : tensor Z) : M (tensor R) :=
  let mask := eq_zero_Z x in
  x <- lift (embed (embedding self) x) ;;
  bt <- lift (unpack3 (shape x)) ;;
  h <- initial_state (h0 self) (fst (fst bt)) ;;
  c <- initial_state (c0 self) (fst (fst bt)) ;;
  hv <- t_read h ;;
  cv <- t_read c ;;
  out <- lift (lstm self x (hv, cv)) ;;
  y <- lift (linear (out_net self) (fst out)) ;;
  y <- t_new y ;;
  if use_softmax self then
    y <- masked_fill_ (squeeze y) mask sentinel ;;
    v <- t_read y ;;
    lift (softmax v 1)
  else
    v <- t_read (squeeze y) ;;
    ret (t_abs v).

(** [self.out_net(lstm_out)]: [forward] up to the scalar head. *)
Definition scores (self : t) (x : tensor Z) : M tref :=
  x <- lift (embed (embedding self) x) ;;
  bt <- lift (unpack3 (shape x)) ;;
  h <- initial_state (h0 self) (fst (fst bt)) ;;
  c <- initial_state (c0 self) (fst (fst bt)) ;;
  hv <- t_read h ;;
  cv <- t_read c ;;
  out <- lift (lstm self x (hv, cv)) ;;
  y <- lift (linear (out_net self) (fst out)) ;;
  t_new y.

End MetaTaskLstmNetwork.

Module MetaTaskMLPNetwork.

Record t : Type := mk {
  mlp : Linear * Linear;       (* nn.Sequential(Linear, ReLU, Linear) *)
  use_softmax : bool
}.

Definition init (g : nat -> nat -> R)
    (num_loss_weight_dims : nat) (use_softmax : bool) : t :=
  mk (new_linear g num_loss_weight_dims num_loss_weight_dims,
      new_linear (fun j i => g (num_loss_weight_dims + j)%nat i)
                 num_loss_weight_dims 1)
     use_softmax.

Definition forward (self : t) (x : tensor R) : M (tensor R) :=
  let mask := eq_zero_R x in
  y <- lift (rbind (linear (fst (mlp self)) x)
                   (fun y => linear (snd (mlp self)) (relu y))) ;;
  y <- t_new y ;;
  if use_softmax self then
    y <- masked_fill_ (squeeze y) mask sentinel ;;
    v <- t_read y ;;
    lift (softmax v 1)
  else
    v <- t_read (squeeze y) ;;
    ret (t_abs v).

(** [self.mlp(x)] *)
Definition scores (self : t) (x : tensor R) : M tref :=
  y <- lift (rbind (linear (fst (mlp self)) x)
                   (fun y => linear (snd (mlp self)) (relu y))) ;;
  t_new y.

End MetaTaskMLPNetwork.

(** ** [src/pretrain.py] *)

Module Pretrain.

Definition SAVE_INTERVAL : Z := 100.
Definition LOG_INTERVAL : Z := 1.
Definition VAL_INTERVAL : Z := 10.

(** What [state_dict()] returns and [torch.save] writes is an
    [OrderedDict]: the named parameters of a module in the order in which
    they were registered, here a [list (string * tensor R)] with distinct
    names. *)

(** [nn.MSELoss()] and [nn.L1Loss()] on one-dimensional tensors: the two
    arguments are broadcast against each other and the mean is taken. *)
Definition broadcast (a b : list R) : res (list (R * R)) :=
  if decide (length a = length b) then inr (combine a b)
  else match a, b with
       | [x], _ => inr (map (fun y => (x, y)) b)
       | _, [y] => inr (map (fun x => (x, y)) a)
       | _, _ => inl RuntimeError
       end.

(** The mean of a non-empty list; [np.mean] of an empty list is nan, which
    the reals do not have: the quotient by [INR 0] stands for it. *)
Definition mean (l : list R) : R := Rsum l / INR (length l).

Definition MSELoss (input target : list R) : res R :=
  rbind (broadcast input target)
        (fun ps => inr (mean (map (fun p => (fst p - snd p) * (fst p - snd p)) ps))).

Definition L1Loss (input target : list R) : res R :=
  rbind (broadcast input target)
        (fun ps => inr (mean (map (fun p => Rabs (fst p - snd p)) ps))).

(** The four losses of one batch, lines 78 to 91: the loss that is
    differentiated, and the monitoring MSE, MAE and RMSE. *)
Definition batch_losses (normalize_loss : bool) (outputs target_rating : list R)
    : res (R * R * R * R) :=
  if normalize_loss then
    rbind (MSELoss outputs (map (fun r => r / 5) target_rating)) (fun loss =>
    rbind (MSELoss (map (fun o => o * 5) outputs) target_rating) (fun mse_loss =>
    rbind (L1Loss (map (fun o => o * 5) outputs) target_rating) (fun mae_loss =>
    inr (loss, mse_loss, mae_loss, sqrt mse_loss))))
  else
    rbind (MSELoss outputs target_rating) (fun loss =>
    rbind (MSELoss outputs target_rating) (fun mse_loss =>
    rbind (L1Loss outputs target_rating) (fun mae_loss =>
    inr (loss, mse_loss, mae_loss, sqrt mse_loss)))).

(** [MultiStepLR(milestones=[400, 700, 900], gamma=0.1)]: the factor on the
    learning rates after [last_epoch] calls of [step]. *)
Definition lr_factor (last_epoch : nat) : R :=
  (1 / 10) ^ length (filter (fun m => (m <=? last_epoch)%nat) [400; 700; 900]%nat).

(** The directory [log_dir/state], one blob per step label, and the scalars
    given to the [SummaryWriter]. *)
Record world : Type := mkWorld {
  save_dir : gmap Z (list (string * tensor R));
  scalars : list (string * R * Z)
}.

Section WithModel.

(** [models/bert.py] and [dataloader.py] are not among the sources.  The
    base model is taken as the function it computes from the parameters of
    [model.bert], the remaining state [Aux] (the other two sub-modules and
    the moments Adam keeps) and the input of a batch; [optimize] is
    [loss.backward(); optimizer.step()] for the MSE against [target], at
    the given factor on the learning rates; a loader is the list of its
    batches. *)
Context {Input Aux : Type}.
Variable model : list (string * tensor R) -> Aux -> Input -> list R.
Variable optimize : R -> list (string * tensor R) -> Aux -> Input -> list R
                    -> list (string * tensor R) * Aux.

Record t : Type := mk {
  bert : list (string * tensor R);
  aux : Aux;
  normalize_loss : bool;
  best_valid_rmse_loss : R;
  best_step : Z;
  _train_step : Z;
  last_epoch : nat          (* of [self.lr_scheduler] *)
}.

Definition init (b : list (string * tensor R)) (a : Aux) (normalize : bool) : t :=
  mk b a normalize 987654321 0%Z 0%Z 0%nat.

(** Two states of the object that differ in the parameters at most. *)
Definition same_run (self self' : t) : Prop :=
  normalize_loss self' = normalize_loss self /\
  best_valid_rmse_loss self' = best_valid_rmse_loss self /\
  best_step self' = best_step self /\
  _train_step self' = _train_step self /\
  last_epoch self' = last_epoch self.

Definition one_batch (train : bool) (self : t) (batch : Input * list R)
    : res (t * (R * R * R)) :=
  let outputs := model (bert self) (aux self) (fst batch) in
  rbind (batch_losses (normalize_loss self) outputs (snd batch)) (fun l =>
    let '(loss, mse_loss, mae_loss, rmse_loss) := l in
    let self' :=
      if train then
        let p := optimize (lr_factor (last_epoch self)) (bert self) (aux self)
                   (fst batch)
                   (if normalize_loss self
                    then map (fun r => r / 5) (snd batch) else snd batch) in
        mk (fst p) (snd p) (normalize_loss self) (best_valid_rmse_loss self)
           (best_step self) (_train_step self) (last_epoch self)
      else self in
    inr (self', (mse_loss, mae_loss, rmse_loss))).

(** The loop of [epoch_step]: the three lists of per-batch values. *)
Fixpoint batches (train : bool) (self : t) (data_loader : list (Input * list R))
    (mse_losses mae_losses rmse_losses : list R)
    : res (t * (list R * list R * list R)) :=
  match data_loader with
  | [] => inr (self, (mse_losses, mae_losses, rmse_losses))
  | batch :: rest =>
      rbind (one_batch train self batch) (fun r =>
        let '(self', (mse_loss, mae_loss, rmse_loss)) := r in
        batches train self' rest (mse_losses ++ [mse_loss])
                (mae_losses ++ [mae_loss]) (rmse_losses ++ [rmse_loss]))
  end.

(** Returns [(mse_loss, mae_loss, rmse_loss)]. *)
Definition epoch_step (self : t) (data_loader : list (Input * list R)) (train : bool)
    : res (t * (R * R * R)) :=
  rbind (batches train self data_loader [] [] []) (fun r =>
    let '(self', (mse_losses, mae_losses, rmse_losses)) := r in
    inr (self', (mean mse_losses, mean mae_losses, mean rmse_losses))).

Definition _save_model (self : t) (w : world) : world :=
  mkWorld (<[_train_step self := bert self]> (save_dir w)) (scalars w).

(** The body of the loop of [train]. *)
Definition train_epoch (train_loader valid_loader : list (Input * list R))
    (st : t * world) (epoch : Z) : res (t * world) :=
  let '(self, w) := st in
  rbind (epoch_step self train_loader true) (fun r =>
    let '(self, (mse_loss, mae_loss, rmse_loss)) := r in
    let w :=
      if decide (_train_step self mod LOG_INTERVAL = 0)%Z then
        mkWorld (save_dir w)
                (scalars w ++ [("train/MSEloss"%string, mse_loss, _train_step self);
                               ("train/MAEloss"%string, mae_loss, _train_step self)])
      else w in
    rbind
      (if decide (epoch mod VAL_INTERVAL = 0)%Z then
         (* the triple this call returns is dropped *)
         rbind (epoch_step self valid_loader false) (fun r' =>
           let self := fst r' in
           if Rgt_dec (best_valid_rmse_loss self) rmse_loss then
             let self := mk (bert self) (aux self) (normalize_loss self)
                            rmse_loss epoch (_train_step self) (last_epoch self) in
             inr (self, _save_model self w)
           else inr (self, w))
       else inr (self, w))
      (fun st' =>
         let '(self, w) := st' in
         inr (mk (bert self) (aux self) (normalize_loss self)
                 (best_valid_rmse_loss self) (best_step self)
                 (_train_step self + 1)%Z (S (last_epoch self)), w))).

Definition train (train_loader valid_loader : list (Input * list R))
    (self : t) (w : world) (epochs : Z) : res (t * world) :=
  fold_left (fun acc epoch => rbind acc (fun st => train_epoch train_loader valid_loader st epoch))
            (map Z.of_nat (seq 0 (Z.to_nat epochs)))
            (inr (self, w)).

(** [torch.load(target_path)] *)
Definition torch_load (w : world) (checkpoint_step : Z) : res (list (string * tensor R)) :=
  match save_dir w !! checkpoint_step with
  | Some sd => inr sd
  | None => inl FileNotFoundError
  end.

(** [sd[name]] in a state dict; [None] when the name is not in it. *)
Fixpoint get (name : string) (sd : list (string * tensor R)) : option (tensor R) :=
  match sd with
  | [] => None
  | (k, v) :: sd' => if decide (k = name) then Some v else get name sd'
  end.

(** The stored tensor as [Module._load_from_state_dict] takes it.  For a
    parameter without axes a stored tensor with one axis is replaced by its
    element 0 (the rule kept for checkpoints written before version 0.4);
    indexing a tensor with no element raises.  Every other stored tensor is
    taken as it is. *)
Definition input_param (param v : tensor R) : res (tensor R) :=
  if decide (length (shape param) = 0%nat /\ length (shape v) = 1%nat) then
    match data v with
    | x :: _ => inr (Tensor [] [x])
    | [] => inl IndexError
    end
  else inr v.

(** [Module._load_from_state_dict] over the parameters of the model, in
    their order.  A parameter whose name is stored with a tensor of its
    shape is overwritten in place.  A name that is missing, or a tensor of
    another shape, is recorded as an error, the parameter is kept and the
    loop goes on: the boolean returned is [false].  An exception raised by
    the indexing of [input_param] ends the loop at once, the parameters
    after that one not being visited. *)
Fixpoint _load_from_state_dict (m sd : list (string * tensor R))
    : list (string * tensor R) * res bool :=
  match m with
  | [] => ([], inr true)
  | (k, param) :: m' =>
      match get k sd with
      | None =>
          let r := _load_from_state_dict m' sd in
          ((k, param) :: fst r, rbind (snd r) (fun _ => inr false))
      | Some v =>
          match input_param param v with
          | inl e => ((k, param) :: m', inl e)
          | inr v =>
              let r := _load_from_state_dict m' sd in
              if decide (shape v = shape param)
              then ((k, v) :: fst r, snd r)
              else ((k, param) :: fst r, rbind (snd r) (fun _ => inr false))
          end
      end
  end.

(** [Module.load_state_dict(sd)] with [strict=True]: once the parameters
    have been visited, a stored name that is no parameter of the model is
    an error as well, and any error raises [RuntimeError]; the copies made
    before stay in place. *)
Definition load_state_dict (m sd : list (string * tensor R))
    : list (string * tensor R) * res unit :=
  let r := _load_from_state_dict m sd in
  (fst r,
   rbind (snd r) (fun ok =>
     if ok && forallb (fun kv => bool_decide (is_Some (get (fst kv) m))) sd
     then inr tt else inl RuntimeError)).

(** The stored tensor [v] can be copied into the parameter [param]: it has
    its shape, or the parameter has no axis and [v] has one axis and at
    least one element. *)
Definition fits (param v : tensor R) : Prop :=
  shape v = shape param \/
  (shape param = [] /\ length (shape v) = 1%nat /\ data v <> []).

(** The state dict [sd] holds a tensor that fits for every parameter of
    [m], and no other name. *)
Definition loadable (m sd : list (string * tensor R)) : Prop :=
  Forall (fun kp => exists v, get (fst kp) sd = Some v /\ fits (snd kp) v) m /\
  Forall (fun kv => is_Some (get (fst kv) m)) sd.

(** The parameter [new] has the name of [old] and holds what [sd] stores
    under that name, as [input_param] takes it. *)
Definition restored (sd : list (string * tensor R)) (old new : string * tensor R) : Prop :=
  fst new = fst old /\
  exists v, get (fst old) sd = Some v /\ input_param (snd old) v = inr (snd new).

(** Two parameters with the same name and the same shape. *)
Definition same_slot (p q : string * tensor R) : Prop :=
  fst p = fst q /\ shape (snd p) = shape (snd q).

(** [load]: whatever the [try] block raises is replaced by a [ValueError]. *)
Definition load (self : t) (w : world) (checkpoint_step : Z) : t * res unit :=
  match torch_load w checkpoint_step with
  | inl _ => (self, inl ValueError)
  | inr sd =>
      let r := load_state_dict (bert self) sd in
      (mk (fst r) (aux self) (normalize_loss self) (best_valid_rmse_loss self)
          (best_step self) (_train_step self) (last_epoch self),
       match snd r with
       | inl _ => inl ValueError
       | inr u => inr u
       end)
  end.

(** [main]: a [Pretrain] object is built; when [args.checkpoint_step] is
    above -1 the step counter is set to it and the checkpoint is loaded,
    an exception of [load] ending the program; then [train] runs.  [b] and
    [a] are the parameters the constructor draws, [w] the directory and the
    writer as the program finds them. *)
Definition main (b : list (string * tensor R)) (a : Aux) (normalize : bool)
    (train_loader valid_loader : list (Input * list R)) (w : world)
    (checkpoint_step pretrain_epochs : Z) : res (t * world) :=
  let pretrain_module := init b a normalize in
  if decide (checkpoint_step > -1)%Z then
    let pretrain_module :=
      mk (bert pretrain_module) (aux pretrain_module) (normalize_loss pretrain_module)
         (best_valid_rmse_loss pretrain_module) (best_step pretrain_module)
         checkpoint_step (last_epoch pretrain_module) in
    let r := load pretrain_module w checkpoint_step in
    match snd r with
    | inl e => inl e
    | inr _ => train train_loader valid_loader (fst r) w pretrain_epochs
    end
  else train train_loader valid_loader pretrain_module w pretrain_epochs.

End WithModel.

End Pretrain.

(** ** Concrete instances used in the examples *)

Module Examples.

(** A base model with one trainable number [a] (kept in [Aux]) that
    predicts [a + x] for the single example [x] of a batch, and an
    optimiser that moves [a] up by one at every step. *)
Definition shift_model : list (string * tensor R) -> R -> R -> list R :=
  fun _ a x => [a + x].

Definition shift_optimize
    : R -> list (string * tensor R) -> R -> R -> list R -> list (string * tensor R) * R :=
  fun _ b a _ _ => (b, a + 1).

(** An encoder that returns zeros of the sizes [nn.LSTM] returns. *)
Definition zero_lstm : LSTM :=
  fun x st =>
    match shape x, shape (fst st) with
    | [b; t; _], [_; _; w] =>
        inr (Tensor [b; t; w] (repeat 0 (b * (t * (w * 1)))), st)
    | _, _ => inl RuntimeError
    end.

(** A sequence network with one layer of width 1 whose head has weight 0
    and bias [beta], its two initial-state parameters stored at 1 and 2. *)
Definition head_net (beta : R) (use_softmax : bool) : MetaTaskLstmNetwork.t :=
  MetaTaskLstmNetwork.mk
    (mkEmbedding 7 1 (repeat 0 7))
    (TRef 1%positive [1; 1]%nat (contiguous_strides [1; 1]%nat))
    (TRef 2%positive [1; 1]%nat (contiguous_strides [1; 1]%nat))
    zero_lstm
    (mkLinear 1 1 [[0]] [beta])
    use_softmax.

Definition head_store : gmap loc (list R) :=
  <[1%positive := [0]]> (<[2%positive := [0]]> ∅).

(** An encoder that returns its input, and a sequence network with the
    softmax built on it: one layer of width 1, the head the identity, the
    embedding of token 0 being [e0] and of every other token 1.  Its
    scores are the embeddings of the tokens. *)
Definition echo_lstm : LSTM := fun x st => inr (x, st).

Definition echo_net (e0 : R) : MetaTaskLstmNetwork.t :=
  MetaTaskLstmNetwork.mk
    (mkEmbedding 7 1 (e0 :: repeat 1 6))
    (TRef 1%positive [1; 1]%nat (contiguous_strides [1; 1]%nat))
    (TRef 2%positive [1; 1]%nat (contiguous_strides [1; 1]%nat))
    echo_lstm
    (mkLinear 1 1 [[1]] [0])
    true.

(** Two sequences of two tokens, the second token of each being padding. *)
Definition padded_batch : tensor Z := Tensor [2; 2]%nat [1; 0; 1; 0]%Z.

(** A batch of one sequence of three tokens. *)
Definition one_row : tensor Z := Tensor [1; 3]%nat [1; 2; 0]%Z.

Definition no_world : Pretrain.world := Pretrain.mkWorld ∅ [].

(** A model with two parameters, and a directory whose blob 7 has another
    shape for one of them. *)
Definition two_params : list (string * tensor R) :=
  [("w"%string, Tensor [1%nat] [0]); ("b"%string, Tensor [1%nat] [0])].

Definition other_blob : list (string * tensor R) :=
  [("w"%string, Tensor [1%nat] [1]); ("b"%string, Tensor [2%nat] [1; 1])].

Definition other_dir : Pretrain.world :=
  Pretrain.mkWorld (<[7%Z := other_blob]> ∅) [].

(** A model whose parameter [s] has no axis, and a directory whose blob 3
    stores a tensor with one axis for it. *)
Definition scalar_param : list (string * tensor R) :=
  [("s"%string, Tensor [] [0])].

Definition old_dir : Pretrain.world :=
  Pretrain.mkWorld (<[3%Z := [("s"%string, Tensor [1%nat] [7])]]> ∅) [].

(** A directory that holds a checkpoint with no parameter under step 0. *)
Definition resume_world : Pretrain.world :=
  Pretrain.mkWorld (<[0%Z := []]> ∅) [].

Definition two_params_self : Pretrain.t (Aux := unit) :=
  Pretrain.init two_params tt false.

End Examples.

(** * Properties *)

(** ** Sums, means and square roots *)

Lemma Rsum_app (l1 l2 : list R) : Rsum (l1 ++ l2) = Rsum l1 + Rsum l2.
Proof.
  induction l1 as [|a l1 IH]; simpl; [lra|]. rewrite IH. lra.
Qed.

Lemma Rsum_nonneg (l : list R) : Forall (fun x => 0 <= x) l -> 0 <= Rsum l.
Proof.
  induction 1 as [|a l Ha _ IH]; simpl; lra.
Qed.

Lemma INR_length_pos {A : Type} (l : list A) : l <> [] -> 0 < INR (length l).
Proof.
  destruct l; [congruence|]. intros _. apply lt_0_INR. simpl. lia.
Qed.

Lemma mean_nonneg (l : list R) :
  Forall (fun x => 0 <= x) l -> 0 <= Pretrain.mean l.
Proof.
  intros H. unfold Pretrain.mean. destruct l as [|a l].
  - simpl. unfold Rdiv. rewrite Rmult_0_l. lra.
  - apply Rmult_le_pos; [by apply Rsum_nonneg|].
    left. apply Rinv_0_lt_compat, INR_length_pos. discriminate.
Qed.

Lemma mean_singleton (x : R) : Pretrain.mean [x] = x.
Proof. unfold Pretrain.mean. simpl. field. Qed.

(** The square of a sum against the sum of the squares. *)
Lemma cross_term (a : R) (l : list R) :
  2 * a * Rsum l <= INR (length l) * (a * a) + Rsum (map (fun x => x * x) l).
Proof.
  induction l as [|x l IH].
  - simpl. lra.
  - change (length (x :: l)) with (S (length l)). rewrite S_INR. simpl.
    pose proof (Rle_0_sqr (a - x)) as Hs. unfold Rsqr in Hs. lra.
Qed.

Lemma sum_sqr_le (l : list R) :
  Rsum l * Rsum l <= INR (length l) * Rsum (map (fun x => x * x) l).
Proof.
  induction l as [|a l IH].
  - simpl. lra.
  - change (length (a :: l)) with (S (length l)). rewrite S_INR. simpl.
    pose proof (cross_term a l) as Hc.
    assert (0 <= Rsum (map (fun x => x * x) l)) as Hq.
    { apply Rsum_nonneg, List.Forall_map, Forall_true. intros y. apply Rle_0_sqr. }
    nra.
Qed.

Lemma map_sqrt_sqr (l : list R) :
  Forall (fun x => 0 <= x) l -> map (fun x => x * x) (map sqrt l) = l.
Proof.
  induction 1 as [|a l Ha _ IH]; simpl; [done|].
  rewrite IH, sqrt_sqrt; done.
Qed.

(** The mean of the square roots is at most the square root of the mean. *)
Lemma mean_sqrt_le (l : list R) :
  l <> [] -> Forall (fun x => 0 <= x) l ->
  Pretrain.mean (map sqrt l) <= sqrt (Pretrain.mean l).
Proof.
  intros Hne Hpos.
  assert (0 < INR (length l)) as Hn by by apply INR_length_pos.
  assert (0 <= Pretrain.mean (map sqrt l)) as Hm.
  { apply mean_nonneg, List.Forall_map, Forall_true. intros y. apply sqrt_pos. }
  rewrite <- (sqrt_square (Pretrain.mean (map sqrt l))) by done.
  apply sqrt_le_1_alt.
  pose proof (sum_sqr_le (map sqrt l)) as Hs.
  rewrite map_sqrt_sqr in Hs by done.
  unfold Pretrain.mean in *. rewrite length_map in *.
  set (s := Rsum (map sqrt l)) in *. set (q := Rsum l) in *.
  set (n := INR (length l)) in *.
  replace (s / n * (s / n)) with (s * s / (n * n)) by (field; lra).
  apply (Rmult_le_reg_r (n * n)); [nra|].
  replace (s * s / (n * n) * (n * n)) with (s * s) by (field; lra).
  replace (q / n * (n * n)) with (n * q) by (field; lra).
  done.
Qed.

(** ** The pre-training loop *)

Section PretrainFacts.

Context {Input Aux : Type}.
Variable model : list (string * tensor R) -> Aux -> Input -> list R.
Variable optimize : R -> list (string * tensor R) -> Aux -> Input -> list R
                    -> list (string * tensor R) * Aux.

Lemma MSELoss_nonneg (a b : list R) (m : R) :
  Pretrain.MSELoss a b = inr m -> 0 <= m.
Proof.
  unfold Pretrain.MSELoss. destruct (Pretrain.broadcast a b) as [e|ps]; simpl; [done|].
  intros [= <-]. apply mean_nonneg, List.Forall_map, Forall_true.
  intros p. apply Rle_0_sqr.
Qed.

Lemma batch_losses_rmse (n : bool) (o t : list R) (l m a r : R) :
  Pretrain.batch_losses n o t = inr (l, m, a, r) -> 0 <= m /\ r = sqrt m.
Proof.
  unfold Pretrain.batch_losses. destruct n.
  - destruct (Pretrain.MSELoss o _) as [|l']; simpl; [done|].
    destruct (Pretrain.MSELoss (map _ o) t) as [|m'] eqn:Em; simpl; [done|].
    destruct (Pretrain.L1Loss _ t) as [|a']; simpl; [done|].
    intros [= <- <- <- <-]. split; [by eapply MSELoss_nonneg|done].
  - destruct (Pretrain.MSELoss o t) as [|l'] eqn:Em; simpl; [done|].
    destruct (Pretrain.L1Loss o t) as [|a']; simpl; [done|].
    intros [= <- <- <- <-]. split; [by eapply MSELoss_nonneg|done].
Qed.

Lemma one_batch_rmse (train : bool) (self self' : Pretrain.t) b (m a r : R) :
  Pretrain.one_batch model optimize train self b = inr (self', (m, a, r)) ->
  0 <= m /\ r = sqrt m.
Proof.
  unfold Pretrain.one_batch.
  destruct (Pretrain.batch_losses _ _ _) as [|[[[l m'] a'] r']] eqn:E; simpl; [done|].
  intros [= _ <- <- <-]. by eapply batch_losses_rmse.
Qed.

(** The loop appends one MSE and its square root per batch. *)
Lemma batches_spec (train : bool) (dl : list (Input * list R)) :
  forall (self self' : Pretrain.t) (ms es rs ms' es' rs' : list R),
  Pretrain.batches model optimize train self dl ms es rs = inr (self', (ms', es', rs')) ->
  exists m, ms' = ms ++ m /\ rs' = rs ++ map sqrt m /\
            length m = length dl /\ Forall (fun x => 0 <= x) m.
Proof.
  induction dl as [|b dl IH]; intros self self' ms es rs ms' es' rs'; simpl.
  - intros [= _ <- _ <-]. exists []. by rewrite !app_nil_r.
  - destruct (Pretrain.one_batch _ _ _ _ _) as [|[s1 [[m a] r]]] eqn:E; simpl; [done|].
    intros H. apply IH in H as (m' & -> & -> & Hl & Hf).
    apply one_batch_rmse in E as [Hm ->].
    exists (m :: m'). rewrite <- !app_assoc. simpl.
    repeat split; [by rewrite Hl|by constructor].
Qed.

Lemma epoch_step_means (self self' : Pretrain.t) (dl : list (Input * list R))
    (train : bool) (mse mae rmse : R) :
  Pretrain.epoch_step model optimize self dl train = inr (self', (mse, mae, rmse)) ->
  exists m, length m = length dl /\ Forall (fun x => 0 <= x) m /\
            mse = Pretrain.mean m /\ rmse = Pretrain.mean (map sqrt m).
Proof.
  unfold Pretrain.epoch_step.
  destruct (Pretrain.batches _ _ _ _ _ _ _ _) as [|[s1 [[ms es] rs]]] eqn:E; simpl; [done|].
  intros [= _ <- _ <-]. apply batches_spec in E as (m & -> & -> & Hl & Hf).
  by exists m.
Qed.

End PretrainFacts.

Lemma Rsum_scal (c : R) (l : list R) : Rsum (map (fun x => c * x) l) = c * Rsum l.
Proof.
  induction l as [|a l IH]; simpl; [lra|]. rewrite IH. lra.
Qed.

Lemma mean_scal (c : R) (l : list R) :
  Pretrain.mean (map (fun x => c * x) l) = c * Pretrain.mean l.
Proof.
  unfold Pretrain.mean. rewrite Rsum_scal, length_map. unfold Rdiv. ring.
Qed.

Lemma broadcast_map (f g : R -> R) (a b : list R) (ps : list (R * R)) :
  Pretrain.broadcast a b = inr ps ->
  Pretrain.broadcast (map f a) (map g b)
  = inr (map (fun p => (f (fst p), g (snd p))) ps).
Proof.
  unfold Pretrain.broadcast. rewrite !length_map.
  destruct (decide (length a = length b)) as [Hl|Hl].
  - intros [= <-]. f_equal. clear Hl. revert b.
    induction a as [|x a IH]; intros [|y b]; simpl; try done. by rewrite IH.
  - destruct a as [|x [|x' a]]; simpl.
    + destruct b as [|y [|y' b]]; simpl; try done.
      intros [= <-]. done.
    + intros [= <-]. f_equal. by rewrite !map_map.
    + destruct b as [|y [|y' b]]; simpl; try done.
      intros [= <-]. simpl. by rewrite !map_map.
Qed.

Lemma broadcast_scaled (o t : list R) (ps : list (R * R)) :
  Pretrain.broadcast o (map (fun r => r / 5) t) = inr ps ->
  Pretrain.broadcast (map (fun x => x * 5) o) t
  = inr (map (fun p => (fst p * 5, snd p * 5)) ps).
Proof.
  intros H.
  apply (broadcast_map (fun x => x * 5) (fun x => x * 5)) in H.
  rewrite map_map in H. rewrite <- H. f_equal.
  rewrite <- (map_id t) at 1. apply map_ext. intros r. field.
Qed.

(** ** Claims about [epoch_step] *)

(** C7.  In a batch iteration with [normalize_loss] the loss that is
    differentiated is the MSE of the output against the target divided by
    5, while the monitoring MSE and MAE compare the output multiplied by 5
    with the raw target, so that the monitoring MSE is 25 times the loss;
    without [normalize_loss] the monitoring MSE is the loss, the MSE of the
    output against the target.  The RMSE is the square root of the
    monitoring MSE. *)
Theorem batch_losses_scale (normalize_loss : bool) (outputs target : list R)
    (loss mse mae rmse : R) :
  Pretrain.batch_losses normalize_loss outputs target = inr (loss, mse, mae, rmse) ->
  (normalize_loss = true ->
     Pretrain.MSELoss outputs (map (fun r => r / 5) target) = inr loss /\
     Pretrain.MSELoss (map (fun o => o * 5) outputs) target = inr mse /\
     Pretrain.L1Loss (map (fun o => o * 5) outputs) target = inr mae /\
     mse = 25 * loss) /\
  (normalize_loss = false ->
     Pretrain.MSELoss outputs target = inr loss /\
     mse = loss /\
     Pretrain.L1Loss outputs target = inr mae) /\
  rmse = sqrt mse.
Proof.
  unfold Pretrain.batch_losses. destruct normalize_loss.
  - destruct (Pretrain.MSELoss outputs _) as [|l'] eqn:El; simpl; [done|].
    destruct (Pretrain.MSELoss (map _ outputs) target) as [|m'] eqn:Em; simpl; [done|].
    destruct (Pretrain.L1Loss _ target) as [|a'] eqn:Ea; simpl; [done|].
    intros [= <- <- <- <-]. split; [|done]. intros _.
    repeat split; try done.
    unfold Pretrain.MSELoss in El, Em.
    destruct (Pretrain.broadcast outputs _) as [|ps] eqn:Eb; simpl in El; [done|].
    rewrite (broadcast_scaled _ _ _ Eb) in Em. simpl in Em.
    injection El as <-. injection Em as <-.
    rewrite map_map, <- mean_scal, map_map. f_equal.
    apply map_ext. intros [x y]. simpl. ring.
  - destruct (Pretrain.MSELoss outputs target) as [|l'] eqn:El; simpl; [done|].
    destruct (Pretrain.L1Loss outputs target) as [|a'] eqn:Ea; simpl; [done|].
    intros [= <- <- <- <-]. done.
Qed.

Lemma batch_losses_scale_witness :
  match Pretrain.batch_losses true [1] [5] with
  | inr (loss, mse, _, _) => mse = 25 * loss
  | inl _ => False
  end.
Proof.
  destruct (Pretrain.batch_losses true [1] [5]) as [e|[[[loss mse] mae] rmse]] eqn:E.
  - vm_compute in E. discriminate E.
  - apply (batch_losses_scale true [1] [5] loss mse mae rmse E). reflexivity.
Defined.

(** C2, as amended.  The RMSE [epoch_step] reports is the mean of the square
    roots of the per-batch MSEs whose mean is the reported MSE; it is at
    most the square root of the reported MSE, and equal to it when the
    loader has a single batch. *)
Theorem epoch_rmse_mean_of_roots {Input Aux : Type}
    (model : list (string * tensor R) -> Aux -> Input -> list R)
    (optimize : R -> list (string * tensor R) -> Aux -> Input -> list R
                -> list (string * tensor R) * Aux)
    (self self' : Pretrain.t) (data_loader : list (Input * list R)) (train : bool)
    (mse mae rmse : R) :
  data_loader <> [] ->
  Pretrain.epoch_step model optimize self data_loader train
  = inr (self', (mse, mae, rmse)) ->
  (exists m, length m = length data_loader /\
             mse = Pretrain.mean m /\ rmse = Pretrain.mean (map sqrt m)) /\
  rmse <= sqrt mse /\
  (length data_loader = 1%nat -> rmse = sqrt mse).
Proof.
  intros Hne H. apply epoch_step_means in H as (m & Hl & Hf & -> & ->).
  split; [by exists m|]. split.
  - apply mean_sqrt_le; [|done]. intros ->. destruct data_loader; done.
  - intros H1. rewrite H1 in Hl. destruct m as [|x [|y m]]; try done.
    simpl. by rewrite !mean_singleton.
Qed.

Lemma epoch_rmse_mean_of_roots_witness :
  match Pretrain.epoch_step Examples.shift_model Examples.shift_optimize
          (Pretrain.init [] 0 false) [(0, [0])] false with
  | inr (_, (mse, _, rmse)) => rmse <= sqrt mse
  | inl _ => False
  end.
Proof.
  destruct (Pretrain.epoch_step _ _ _ _ _) as [e|[s [[mse mae] rmse]]] eqn:E.
  - vm_compute in E. discriminate E.
  - eapply (epoch_rmse_mean_of_roots _ _ _ s [(0, [0])] false mse mae rmse);
      [discriminate|exact E].
Defined.

Lemma sqrt_2_neq_1 : sqrt 2 <> 1.
Proof.
  intros H. pose proof (sqrt_sqrt 2 ltac:(lra)) as Hs. rewrite H in Hs. lra.
Qed.

(** C2 as stated fails: with two batches of MSE 0 and 4 the reported MSE is
    2 and the reported RMSE is 1. *)
Lemma epoch_rmse_not_sqrt_mse :
  exists self' mse mae rmse,
    Pretrain.epoch_step Examples.shift_model Examples.shift_optimize
      (Pretrain.init [] 0 false) [(0, [0]); (2, [0])] false
    = inr (self', (mse, mae, rmse))
    /\ mse = 2 /\ rmse = 1 /\ rmse <> sqrt mse.
Proof.
  eexists _, _, _, _. split; [reflexivity|].
  unfold Pretrain.mean, Examples.shift_model. simpl.
  assert (sqrt ((0 + 0 - 0) * (0 + 0 - 0) + 0) / 1 = 0) as E0.
  { replace ((0 + 0 - 0) * (0 + 0 - 0) + 0) with 0 by ring.
    rewrite sqrt_0. unfold Rdiv. ring. }
  assert (sqrt (((0 + 2 - 0) * (0 + 2 - 0) + 0) / 1) = 2) as E2.
  { replace (((0 + 2 - 0) * (0 + 2 - 0) + 0) / 1) with (2 * 2) by field.
    apply sqrt_square. lra. }
  assert (((0 + 0 - 0) * (0 + 0 - 0) + 0) / 1 = 0) as E0' by field.
  rewrite E0', sqrt_0, E2.
  split; [field|]. split; [field|].
  replace ((0 + (2 + 0)) / (1 + 1)) with 1 by field.
  replace ((0 + (((0 + 2 - 0) * (0 + 2 - 0) + 0) / 1 + 0)) / (1 + 1)) with 2 by field.
  intros H. symmetry in H. by apply sqrt_2_neq_1.
Qed.

(** ** Claims about [train] *)

Section ShiftRun.

Let TL : list (R * list R) := [(0, [10])].
Let VL : list (R * list R) := [(0, [0])].

Lemma sqrt_sqr_sub (c y : R) :
  c <= y -> sqrt ((c + 0 - y) * (c + 0 - y)) = y - c.
Proof.
  intros H. replace ((c + 0 - y) * (c + 0 - y)) with ((y - c) * (y - c)) by ring.
  apply sqrt_square. lra.
Qed.

(** A training pass of the example: the RMSE is the distance of [a] to 10,
    and [a] moves up by one. *)
Lemma shift_train_pass (c best : R) (bs ts : Z) (le : nat) :
  c <= 10 ->
  Pretrain.epoch_step Examples.shift_model Examples.shift_optimize
    (Pretrain.mk [] c false best bs ts le) TL true
  = inr (Pretrain.mk [] (c + 1) false best bs ts le,
         ((10 - c) * (10 - c), 10 - c, 10 - c)).
Proof.
  intros H. unfold Pretrain.epoch_step, TL, Examples.shift_model. simpl.
  rewrite !mean_singleton, sqrt_sqr_sub, Rabs_left1 by lra.
  replace ((c + 0 - 10) * (c + 0 - 10)) with ((10 - c) * (10 - c)) by ring.
  replace (- (c + 0 - 10)) with (10 - c) by ring. done.
Qed.

(** A validation pass of the example: the RMSE is [a], and nothing moves. *)
Lemma shift_valid_pass (c best : R) (bs ts : Z) (le : nat) :
  0 <= c ->
  Pretrain.epoch_step Examples.shift_model Examples.shift_optimize
    (Pretrain.mk [] c false best bs ts le) VL false
  = inr (Pretrain.mk [] c false best bs ts le, (c * c, c, c)).
Proof.
  intros H. unfold Pretrain.epoch_step, VL, Examples.shift_model. simpl.
  rewrite !mean_singleton.
  replace (c + 0 - 0) with c by ring.
  rewrite sqrt_square, Rabs_pos_eq by lra. done.
Qed.

Lemma shift_epoch_plain (c c' best : R) (bs ts : Z) (le : nat)
    (w : Pretrain.world) (epoch : Z) :
  c <= 10 -> c' = c + 1 -> (epoch mod 10 <> 0)%Z ->
  Pretrain.train_epoch Examples.shift_model Examples.shift_optimize TL VL
    (Pretrain.mk [] c false best bs ts le, w) epoch
  = inr (Pretrain.mk [] c' false best bs (ts + 1) (S le),
         Pretrain.mkWorld (Pretrain.save_dir w)
           (Pretrain.scalars w ++ [("train/MSEloss"%string, (10 - c) * (10 - c), ts);
                                   ("train/MAEloss"%string, 10 - c, ts)])).
Proof.
  intros Hc -> He. unfold Pretrain.train_epoch.
  rewrite shift_train_pass by done. cbn [rbind].
  unfold Pretrain.VAL_INTERVAL, Pretrain.LOG_INTERVAL.
  rewrite (decide_True _ _ (Z.mod_1_r ts)), (decide_False _ _ He). done.
Qed.

Lemma shift_epoch_save (c c' best : R) (bs ts : Z) (le : nat)
    (w : Pretrain.world) (epoch : Z) :
  0 <= c <= 10 -> c' = c + 1 -> (epoch mod 10 = 0)%Z -> best > 10 - c ->
  Pretrain.train_epoch Examples.shift_model Examples.shift_optimize TL VL
    (Pretrain.mk [] c false best bs ts le, w) epoch
  = inr (Pretrain.mk [] c' false (10 - c) epoch (ts + 1) (S le),
         Pretrain.mkWorld (<[ts := []]> (Pretrain.save_dir w))
           (Pretrain.scalars w ++ [("train/MSEloss"%string, (10 - c) * (10 - c), ts);
                                   ("train/MAEloss"%string, 10 - c, ts)])).
Proof.
  intros Hc -> He Hb. unfold Pretrain.train_epoch.
  rewrite shift_train_pass by lra. cbn [rbind].
  unfold Pretrain.VAL_INTERVAL, Pretrain.LOG_INTERVAL.
  rewrite (decide_True _ _ (Z.mod_1_r ts)), (decide_True _ _ He).
  rewrite shift_valid_pass by lra. cbn [rbind fst].
  destruct (Rgt_dec _ (10 - c)) as [_|Hn]; [done|]. simpl in Hn. lra.
Qed.

Lemma train_succ {Input Aux : Type}
    (model : list (string * tensor R) -> Aux -> Input -> list R)
    (optimize : R -> list (string * tensor R) -> Aux -> Input -> list R
                -> list (string * tensor R) * Aux)
    (tl vl : list (Input * list R)) (self : Pretrain.t) (w : Pretrain.world) (n : nat) :
  Pretrain.train model optimize tl vl self w (Z.of_nat (S n))
  = rbind (Pretrain.train model optimize tl vl self w (Z.of_nat n))
          (fun st => Pretrain.train_epoch model optimize tl vl st (Z.of_nat n)).
Proof.
  unfold Pretrain.train. rewrite !Nat2Z.id, seq_S, map_app, fold_left_app. done.
Qed.

(** Ten epochs of the example: one checkpoint, written at epoch 0 with the
    training RMSE 10 as the best value. *)
Lemma shift_train_10 :
  exists sc,
    Pretrain.train Examples.shift_model Examples.shift_optimize TL VL
      (Pretrain.init [] 0 false) Examples.no_world 10
    = inr (Pretrain.mk [] 10 false 10 0 10 10,
           Pretrain.mkWorld (<[0%Z := []]> ∅) sc).
Proof.
  eexists.
  unfold Pretrain.train, Pretrain.init, Examples.no_world.
  change (map Z.of_nat (seq 0 (Z.to_nat 10))) with [0; 1; 2; 3; 4; 5; 6; 7; 8; 9]%Z.
  cbn [fold_left rbind].
  rewrite (shift_epoch_save 0 1) by (done || lra).
  replace (10 - 0) with 10 by ring.
  cbn [rbind Pretrain.save_dir Pretrain.scalars].
  rewrite (shift_epoch_plain 1 2) by (done || lra).
  cbn [rbind Pretrain.save_dir Pretrain.scalars].
  rewrite (shift_epoch_plain 2 3) by (done || lra).
  cbn [rbind Pretrain.save_dir Pretrain.scalars].
  rewrite (shift_epoch_plain 3 4) by (done || lra).
  cbn [rbind Pretrain.save_dir Pretrain.scalars].
  rewrite (shift_epoch_plain 4 5) by (done || lra).
  cbn [rbind Pretrain.save_dir Pretrain.scalars].
  rewrite (shift_epoch_plain 5 6) by (done || lra).
  cbn [rbind Pretrain.save_dir Pretrain.scalars].
  rewrite (shift_epoch_plain 6 7) by (done || lra).
  cbn [rbind Pretrain.save_dir Pretrain.scalars].
  rewrite (shift_epoch_plain 7 8) by (done || lra).
  cbn [rbind Pretrain.save_dir Pretrain.scalars].
  rewrite (shift_epoch_plain 8 9) by (done || lra).
  cbn [rbind Pretrain.save_dir Pretrain.scalars].
  rewrite (shift_epoch_plain 9 10) by (done || lra).
  cbn [Pretrain.save_dir Pretrain.scalars].
  reflexivity.
Qed.

End ShiftRun.

(** C1 (the code departs from the claim).  In the example the validation
    RMSE is 1 at epoch 0 and 11 at epoch 10, while the training RMSE is 10
    and then 0.  [train] records 10 as the best value at epoch 0, and at
    epoch 10, where the validation RMSE got worse, it writes a second
    checkpoint and records 0 and step 10: the test compares the RMSE of the
    training pass, the result of the validation pass being dropped. *)
Theorem train_gate_uses_training_rmse :
  exists s10 w10 s10' s11 w11,
    Pretrain.train Examples.shift_model Examples.shift_optimize
      [(0, [10])] [(0, [0])] (Pretrain.init [] 0 false) Examples.no_world 10
    = inr (s10, w10) /\
    Pretrain.best_valid_rmse_loss s10 = 10 /\
    dom (Pretrain.save_dir w10) = {[ 0%Z ]} /\
    Pretrain.epoch_step Examples.shift_model Examples.shift_optimize
      s10 [(0, [10])] true = inr (s10', (0, 0, 0)) /\
    Pretrain.epoch_step Examples.shift_model Examples.shift_optimize
      s10' [(0, [0])] false = inr (s10', (121, 11, 11)) /\
    Pretrain.train Examples.shift_model Examples.shift_optimize
      [(0, [10])] [(0, [0])] (Pretrain.init [] 0 false) Examples.no_world 11
    = inr (s11, w11) /\
    Pretrain.best_valid_rmse_loss s11 = 0 /\
    Pretrain.best_step s11 = 10%Z /\
    dom (Pretrain.save_dir w11) = {[ 0%Z; 10%Z ]}.
Proof.
  destruct shift_train_10 as [sc H10].
  exists (Pretrain.mk [] 10 false 10 0 10 10), (Pretrain.mkWorld (<[0%Z := []]> ∅) sc),
         (Pretrain.mk [] 11 false 10 0 10 10).
  eexists _, _.
  split; [exact H10|]. split; [done|].
  split; [simpl; by rewrite dom_insert_L, dom_empty_L, union_empty_r_L|].
  split.
  { rewrite shift_train_pass by lra. repeat f_equal; ring. }
  split.
  { rewrite shift_valid_pass by lra. repeat f_equal; ring. }
  split.
  { change 11%Z with (Z.of_nat 11). rewrite train_succ.
    change (Z.of_nat 10) with 10%Z. rewrite H10. cbn [rbind].
    rewrite (shift_epoch_save 10 11) by (done || lra). reflexivity. }
  simpl. split; [ring|]. split; [done|].
  rewrite !dom_insert_L, dom_empty_L. set_solver.
Qed.

(** ** Claims about [load] *)

(** A stored tensor is copied exactly when it fits. *)
Lemma input_param_fits (param v : tensor R) :
  (exists v', Pretrain.input_param param v = inr v' /\ shape v' = shape param)
  <-> Pretrain.fits param v.
Proof.
  unfold Pretrain.input_param, Pretrain.fits.
  destruct (decide (length (shape param) = 0%nat /\ length (shape v) = 1%nat))
    as [[Hp Hv]|Hn].
  - apply nil_length_inv in Hp. split.
    + intros (v' & E & _). right. split; [done|]. split; [done|].
      by destruct (data v).
    + intros [Hs|(_ & _ & Hd)]; [rewrite Hs, Hp in Hv; done|].
      destruct (data v) as [|x d]; [done|]. rewrite Hp. by eexists.
  - split.
    + intros (v' & [= <-] & Hs). by left.
    + intros [Hs|(Hp & Hv & _)]; [by eexists|].
      destruct Hn. by rewrite Hp.
Qed.

Lemma load_from_error (m sd : list (string * tensor R)) (e : exn) :
  snd (Pretrain._load_from_state_dict m sd) = inl e -> e = IndexError.
Proof.
  induction m as [|[k param] m IH]; simpl; [done|].
  assert (rbind (snd (Pretrain._load_from_state_dict m sd)) (fun _ => inr false) = inl e ->
          e = IndexError) as IH'.
  { destruct (snd (Pretrain._load_from_state_dict m sd)); [|done]. exact IH. }
  destruct (Pretrain.get k sd) as [v|]; [|exact IH'].
  destruct (Pretrain.input_param param v) as [e'|v'] eqn:Ei.
  - unfold Pretrain.input_param in Ei. case_decide; [|done].
    destruct (data v); [|done]. injection Ei as <-. by intros [= <-].
  - case_decide; [exact IH|exact IH'].
Qed.

Lemma load_from_ok (m sd : list (string * tensor R)) :
  snd (Pretrain._load_from_state_dict m sd) = inr true
  <-> Forall (fun kp => exists v, Pretrain.get (fst kp) sd = Some v /\
                                  Pretrain.fits (snd kp) v) m.
Proof.
  induction m as [|[k param] m IH]; simpl; [done|].
  rewrite Forall_cons. cbn [fst snd].
  destruct (Pretrain.get k sd) as [v|] eqn:Eg.
  - destruct (Pretrain.input_param param v) as [e|v'] eqn:Ei.
    + split; [done|]. intros [(v0 & [= <-] & Hf) _].
      apply input_param_fits in Hf as (v' & Ev & _). congruence.
    + case_decide as Hs; cbn [snd].
      * rewrite IH. split; [|by intros [_ ?]]. intros Hall. split; [|done].
        exists v. split; [done|]. apply input_param_fits. eauto.
      * split.
        -- by destruct (snd (Pretrain._load_from_state_dict m sd)).
        -- intros [(v0 & [= <-] & Hf) _].
           apply input_param_fits in Hf as (v0 & Ev & Hs0). congruence.
  - split.
    + cbn [snd]. by destruct (snd (Pretrain._load_from_state_dict m sd)).
    + by intros [(v0 & [=] & _) _].
Qed.

Lemma load_from_restored (m sd : list (string * tensor R)) :
  snd (Pretrain._load_from_state_dict m sd) = inr true ->
  Forall2 (Pretrain.restored sd) m (fst (Pretrain._load_from_state_dict m sd)).
Proof.
  induction m as [|[k param] m IH]; simpl; [constructor|].
  destruct (Pretrain.get k sd) as [v|] eqn:Eg.
  - destruct (Pretrain.input_param param v) as [e|v'] eqn:Ei; [done|].
    case_decide as Hs; cbn [fst snd].
    + intros Hok. constructor; [|by apply IH].
      split; [done|]. exists v. split; [exact Eg|exact Ei].
    + by destruct (snd (Pretrain._load_from_state_dict m sd)).
  - cbn [snd]. by destruct (snd (Pretrain._load_from_state_dict m sd)).
Qed.

Lemma no_unexpected_keys (m sd : list (string * tensor R)) :
  forallb (fun kv => bool_decide (is_Some (Pretrain.get (fst kv) m))) sd = true
  <-> Forall (fun kv => is_Some (Pretrain.get (fst kv) m)) sd.
Proof.
  induction sd as [|kv sd IH]; simpl; [done|].
  rewrite Forall_cons, andb_true_iff, IH, bool_decide_eq_true. done.
Qed.

(** [load_state_dict] returns exactly for the state dicts that fit. *)
Lemma load_state_dict_returns (m sd : list (string * tensor R)) :
  snd (Pretrain.load_state_dict m sd) = inr tt <-> Pretrain.loadable m sd.
Proof.
  unfold Pretrain.load_state_dict, Pretrain.loadable. cbn [snd].
  rewrite <- load_from_ok, <- no_unexpected_keys.
  destruct (snd (Pretrain._load_from_state_dict m sd)) as [e|[|]]; simpl.
  - split; [done|]. by intros [? _].
  - destruct (forallb _ sd); split; (done || by intros [_ ?]).
  - split; [done|]. by intros [? _].
Qed.

(** C4, as amended.  [load] raises nothing but [ValueError]; it raises it
    when no checkpoint is stored under the step, and then leaves the object
    as it was; when a checkpoint is stored, it raises exactly when the
    stored state dict does not fit the model (a tensor that fits for every
    parameter, and no other name), and when it does not raise every
    parameter of the model holds what is stored under its name. *)
Theorem load_raises {Aux : Type} (self : Pretrain.t (Aux := Aux))
    (w : Pretrain.world) (checkpoint_step : Z) :
  (snd (Pretrain.load self w checkpoint_step) = inl ValueError \/
   snd (Pretrain.load self w checkpoint_step) = inr tt) /\
  (Pretrain.save_dir w !! checkpoint_step = None ->
     Pretrain.load self w checkpoint_step = (self, inl ValueError)) /\
  (forall sd, Pretrain.save_dir w !! checkpoint_step = Some sd ->
     (snd (Pretrain.load self w checkpoint_step) = inl ValueError
      <-> ~ Pretrain.loadable (Pretrain.bert self) sd) /\
     (snd (Pretrain.load self w checkpoint_step) = inr tt ->
      Forall2 (Pretrain.restored sd) (Pretrain.bert self)
              (Pretrain.bert (fst (Pretrain.load self w checkpoint_step))))).
Proof.
  unfold Pretrain.load, Pretrain.torch_load.
  destruct (Pretrain.save_dir w !! checkpoint_step) as [sd|] eqn:E; cbn [fst snd].
  - pose proof (load_state_dict_returns (Pretrain.bert self) sd) as Hret.
    destruct (snd (Pretrain.load_state_dict (Pretrain.bert self) sd)) as [e|[]] eqn:Es.
    + split; [by left|]. split; [done|]. intros sd' [= <-]. split; [|done].
      split; [|done]. intros _ Hl. apply Hret in Hl. done.
    + split; [by right|]. split; [done|]. intros sd' [= <-]. split.
      * split; [done|]. intros Hn. destruct Hn. by apply Hret.
      * intros _. cbn [Pretrain.bert]. unfold Pretrain.load_state_dict in *.
        cbn [fst snd] in *. apply load_from_restored.
        by destruct (snd (Pretrain._load_from_state_dict (Pretrain.bert self) sd)) as [?|[|]].
  - split; [by left|]. split; [done|]. intros sd' [=].
Qed.

(** C4 as stated fails: a checkpoint is stored under step 7, [load] raises,
    and the parameter [w] of the model has been overwritten. *)
Lemma load_raises_on_stored_checkpoint :
  is_Some (Pretrain.save_dir Examples.other_dir !! 7%Z) /\
  snd (Pretrain.load Examples.two_params_self Examples.other_dir 7) = inl ValueError /\
  Pretrain.get "w" (Pretrain.bert (fst (Pretrain.load Examples.two_params_self
                                          Examples.other_dir 7)))
  = Some (Tensor [1%nat] [1]) /\
  Pretrain.get "w" (Pretrain.bert Examples.two_params_self) = Some (Tensor [1%nat] [0]) /\
  Pretrain.bert (fst (Pretrain.load Examples.two_params_self Examples.other_dir 7))
  <> Pretrain.bert Examples.two_params_self.
Proof.
  assert (Pretrain.get "w" (Pretrain.bert (fst (Pretrain.load Examples.two_params_self
                                                  Examples.other_dir 7)))
          = Some (Tensor [1%nat] [1])) as Hw by (vm_compute; reflexivity).
  assert (Pretrain.get "w" (Pretrain.bert Examples.two_params_self)
          = Some (Tensor [1%nat] [0])) as Hw0 by (vm_compute; reflexivity).
  split; [vm_compute; eauto|]. split; [vm_compute; reflexivity|].
  split; [done|]. split; [done|].
  intros Heq. rewrite Heq, Hw0 in Hw. injection Hw as Hw. lra.
Qed.

(** ** Claims about [MetaLossNetwork] *)

Lemma getitem_in_range {A : Type} (l : list A) (idx : Z) :
  (0 <= idx < Z.of_nat (length l))%Z ->
  exists a, l !! Z.to_nat idx = Some a /\ getitem l idx = inr a.
Proof.
  intros H. unfold getitem.
  rewrite decide_True, decide_False by lia.
  destruct (lookup_lt_is_Some_2 l (Z.to_nat idx)) as [a Ha]; [lia|].
  exists a. by rewrite Ha.
Qed.

Lemma getitem_negative {A : Type} (l : list A) (idx : Z) :
  (- Z.of_nat (length l) <= idx < 0)%Z ->
  exists a, l !! Z.to_nat (idx + Z.of_nat (length l)) = Some a /\ getitem l idx = inr a.
Proof.
  intros H. unfold getitem.
  rewrite !decide_True by lia.
  destruct (lookup_lt_is_Some_2 l (Z.to_nat (idx + Z.of_nat (length l)))) as [a Ha]; [lia|].
  exists a. by rewrite Ha.
Qed.

Lemma getitem_out_of_range {A : Type} (l : list A) (idx : Z) :
  ~ (- Z.of_nat (length l) <= idx < Z.of_nat (length l))%Z ->
  getitem l idx = inl IndexError.
Proof.
  intros H. unfold getitem. by rewrite decide_False.
Qed.

Lemma linear_not_IndexError (lin : Linear) (x : tensor R) :
  linear lin x <> inl IndexError.
Proof.
  unfold linear. destruct (last (shape x)); [|done]. by case_decide.
Qed.

Lemma step_forward_not_IndexError (self : MetaStepLossNetwork.t) (x : tensor R) :
  MetaStepLossNetwork.forward self x <> inl IndexError.
Proof.
  unfold MetaStepLossNetwork.forward.
  assert (forall ls (r : res (tensor R)), r <> inl IndexError ->
            fold_left (fun acc l => rbind acc (MetaStepLossNetwork.apply_layer l)) ls r
            <> inl IndexError) as H.
  { induction ls as [|l ls IH]; intros r Hr; simpl; [done|]. apply IH.
    destruct r as [e|y]; simpl; [done|]. destruct l as [lin|lin]; simpl.
    - pose proof (linear_not_IndexError lin y). by destruct (linear lin y).
    - apply linear_not_IndexError. }
  by apply H.
Qed.

Lemma init_loss_layers (g : nat -> nat -> nat -> nat -> R) (n : Z) (hid : nat) (lay : Z) :
  MetaLossNetwork.loss_layers (MetaLossNetwork.init g n hid lay true)
  = map (fun s => MetaStepLossNetwork.init (g s) hid lay) (seq 0 (Z.to_nat n)).
Proof. done. Qed.

(** C5, as amended.  With [use_step_loss] and [num_inner_steps] instances,
    [forward] raises [IndexError] exactly when the step is outside
    [-num_inner_steps, num_inner_steps); a step in [0, num_inner_steps) is
    evaluated by the instance at that index, and a negative step in range by
    the instance counted from the end. *)
Theorem step_loss_dispatch (g : nat -> nat -> nat -> nat -> R)
    (num_inner_steps : Z) (num_loss_hidden : nat) (num_loss_layers : Z)
    (x : tensor R) (step : Z) :
  let self := MetaLossNetwork.init g num_inner_steps num_loss_hidden num_loss_layers true in
  let n := Z.of_nat (Z.to_nat num_inner_steps) in
  (MetaLossNetwork.forward self x step = inl IndexError
   <-> ~ (- n <= step < n)%Z) /\
  ((0 <= step < n)%Z ->
   MetaLossNetwork.forward self x step
   = MetaStepLossNetwork.forward
       (MetaStepLossNetwork.init (g (Z.to_nat step)) num_loss_hidden num_loss_layers) x) /\
  ((- n <= step < 0)%Z ->
   MetaLossNetwork.forward self x step
   = MetaStepLossNetwork.forward
       (MetaStepLossNetwork.init (g (Z.to_nat (step + n))) num_loss_hidden num_loss_layers) x).
Proof.
  intros self n.
  assert (length (MetaLossNetwork.loss_layers self) = Z.to_nat num_inner_steps) as Hlen.
  { unfold self. by rewrite init_loss_layers, length_map, length_seq. }
  assert (forall i, (i < Z.to_nat num_inner_steps)%nat ->
            MetaLossNetwork.loss_layers self !! i
            = Some (MetaStepLossNetwork.init (g i) num_loss_hidden num_loss_layers)) as Hget.
  { intros i Hi. unfold self. rewrite init_loss_layers.
    change (map ?f ?l) with (f <$> l).
    rewrite list_lookup_fmap, lookup_seq_lt by done. done. }
  assert ((0 <= step < n)%Z ->
          MetaLossNetwork.forward self x step
          = MetaStepLossNetwork.forward
              (MetaStepLossNetwork.init (g (Z.to_nat step)) num_loss_hidden num_loss_layers) x)
    as Hpos.
  { intros Hs. unfold MetaLossNetwork.forward. change (MetaLossNetwork.use_step_loss self) with true.
    cbn match. destruct (getitem_in_range (MetaLossNetwork.loss_layers self) step) as (a & Ha & ->);
      [by rewrite Hlen|].
    rewrite Hget in Ha by lia. by injection Ha as <-. }
  assert ((- n <= step < 0)%Z ->
          MetaLossNetwork.forward self x step
          = MetaStepLossNetwork.forward
              (MetaStepLossNetwork.init (g (Z.to_nat (step + n))) num_loss_hidden num_loss_layers) x)
    as Hneg.
  { intros Hs. unfold MetaLossNetwork.forward. change (MetaLossNetwork.use_step_loss self) with true.
    cbn match. destruct (getitem_negative (MetaLossNetwork.loss_layers self) step) as (a & Ha & ->);
      [by rewrite Hlen|].
    rewrite Hlen in Ha. fold n in Ha. rewrite Hget in Ha by lia. by injection Ha as <-. }
  split; [|done]. split.
  - intros Hf Hr. destruct (decide (step < 0)%Z).
    + rewrite Hneg in Hf by lia. by apply step_forward_not_IndexError in Hf.
    + rewrite Hpos in Hf by lia. by apply step_forward_not_IndexError in Hf.
  - intros Hr. unfold MetaLossNetwork.forward. change (MetaLossNetwork.use_step_loss self) with true.
    cbn match. rewrite getitem_out_of_range; [done|]. by rewrite Hlen.
Qed.

(** C5 as stated fails: with three instances the step -1 is outside
    [0, 3) and is evaluated, by the last instance. *)
Lemma step_minus_one_is_evaluated :
  let self := MetaLossNetwork.init (fun _ _ _ _ => 0) 3 1 1 true in
  ~ (0 <= -1 < 3)%Z /\
  MetaLossNetwork.forward self (Tensor [1%nat] [1]) (-1) <> inl IndexError /\
  MetaLossNetwork.forward self (Tensor [1%nat] [1]) (-1)
  = MetaStepLossNetwork.forward (MetaStepLossNetwork.init (fun _ _ _ => 0) 1 1)
                                (Tensor [1%nat] [1]).
Proof.
  intros self. split; [lia|]. split.
  - vm_compute. discriminate.
  - reflexivity.
Qed.

(** C6.  Without [use_step_loss] the step is ignored: whatever the two
    steps, [forward] returns what the single instance returns. *)
Theorem shared_loss_ignores_step (g : nat -> nat -> nat -> nat -> R)
    (num_inner_steps : Z) (num_loss_hidden : nat) (num_loss_layers : Z)
    (x : tensor R) (i j : Z) :
  let self := MetaLossNetwork.init g num_inner_steps num_loss_hidden num_loss_layers false in
  MetaLossNetwork.forward self x i = MetaLossNetwork.forward self x j /\
  MetaLossNetwork.forward self x i
  = MetaStepLossNetwork.forward
      (MetaStepLossNetwork.init (g 0%nat) num_loss_hidden num_loss_layers) x.
Proof.
  intros self. split; reflexivity.
Qed.

(** ** Row-major layouts *)

Lemma flat_map_const_length {A B : Type} (f : A -> list B) (l : list A) (k : nat) :
  (forall a, length (f a) = k) -> length (flat_map f l) = (length l * k)%nat.
Proof.
  intros Hf. induction l as [|a l IH]; simpl; [done|].
  rewrite length_app, Hf, IH. done.
Qed.

Lemma seq_blocks (off k n : nat) :
  flat_map (fun i => seq (off + i * k) k) (seq 0 n) = seq off (n * k).
Proof.
  induction n as [|n IH]; [done|].
  rewrite seq_S, flat_map_app, IH. simpl. rewrite app_nil_r.
  replace (k + n * k)%nat with (n * k + k)%nat by lia. by rewrite seq_app.
Qed.

Lemma positions_contiguous (s : list nat) (off : nat) :
  positions off s (contiguous_strides s) = seq off (numel s).
Proof.
  revert off. induction s as [|n s IH]; intros off; simpl; [done|].
  rewrite (flat_map_ext _ (fun i => seq (off + i * numel s) (numel s)))
    by (intros i; apply IH).
  apply seq_blocks.
Qed.

Lemma positions_length (s strides : list nat) (off : nat) :
  (length s <= length strides)%nat -> length (positions off s strides) = numel s.
Proof.
  revert strides off. induction s as [|n s IH]; intros [|k strides] off Hl; simpl in *;
    try done; try lia.
  rewrite (flat_map_const_length _ _ (numel s)), length_seq; [done|].
  intros i. apply IH. lia.
Qed.

Lemma contiguous_strides_length (s : list nat) :
  length (contiguous_strides s) = length s.
Proof. induction s; simpl; congruence. Qed.

(** Dropping the axes of size 1 does not change what a view reads. *)
Lemma squeeze_positions (s strides : list nat) (off : nat) :
  length s = length strides ->
  positions off (fst (squeeze_dims s strides)) (snd (squeeze_dims s strides))
  = positions off s strides.
Proof.
  revert strides off. induction s as [|n s IH]; intros [|k strides] off Hl; simpl in *;
    try done.
  case_decide as Hn.
  - subst n. simpl. rewrite app_nil_r, Nat.add_0_r. apply IH. lia.
  - simpl. apply flat_map_ext. intros i. apply IH. lia.
Qed.

Lemma squeeze_dims_length (s strides : list nat) :
  (length (fst (squeeze_dims s strides)) <= length s)%nat.
Proof.
  revert strides. induction s as [|n s IH]; intros [|k strides]; simpl; try lia.
  specialize (IH strides). case_decide; simpl; lia.
Qed.

Lemma squeeze_dims_last_one (s strides : list nat) :
  length strides = S (length s) ->
  (length (fst (squeeze_dims (s ++ [1%nat]) strides)) <= length s)%nat.
Proof.
  revert strides. induction s as [|n s IH]; intros [|k strides] Hl; simpl in *;
    try lia.
  specialize (IH strides ltac:(lia)). case_decide; simpl; lia.
Qed.

Lemma gather_seq_app (pre d : list R) :
  gather (pre ++ d) (seq (length pre) (length d)) = d.
Proof.
  revert pre. induction d as [|a d IH]; intros pre; simpl; [done|].
  rewrite nth_middle. f_equal.
  specialize (IH (pre ++ [a])). rewrite <- app_assoc, length_app in IH. simpl in IH.
  by rewrite Nat.add_1_r in IH.
Qed.

Lemma gather_seq (d : list R) : gather d (seq 0 (length d)) = d.
Proof. apply (gather_seq_app [] d). Qed.

Lemma scatter_seq_app (pre d vs : list R) :
  length vs = length d ->
  scatter (pre ++ d) (seq (length pre) (length d)) vs = pre ++ vs.
Proof.
  revert pre vs. induction d as [|a d IH]; intros pre [|v vs] Hl; simpl in *; try done.
  unfold scatter in *. simpl.
  rewrite insert_app_r_alt, Nat.sub_diag by lia. simpl.
  specialize (IH (pre ++ [v]) vs ltac:(lia)).
  rewrite <- !app_assoc, length_app in IH. simpl in IH.
  by rewrite Nat.add_1_r in IH.
Qed.

Lemma scatter_seq (d vs : list R) :
  length vs = length d -> scatter d (seq 0 (length d)) vs = vs.
Proof. apply (scatter_seq_app [] d vs). Qed.

(** *** Broadcasting a mask into the receiver of an in-place operation *)

Lemma expand_rev_same (ts mk : list nat) :
  length mk = length ts -> expand_rev ts ts mk = Some mk.
Proof.
  revert mk. induction ts as [|t ts IH]; intros [|k mk] Hl; simpl in *; try done.
  rewrite decide_True by done. rewrite IH by lia. done.
Qed.

Lemma expand_strides_same (s : list nat) :
  expand_strides s s = Some (contiguous_strides s).
Proof.
  unfold expand_strides. rewrite expand_rev_same.
  - simpl. by rewrite rev_involutive.
  - by rewrite !length_rev, contiguous_strides_length.
Qed.

Lemma expand_rev_longer (ts ms mk : list nat) :
  (length ts < length ms)%nat -> expand_rev ts ms mk = None.
Proof.
  revert ms mk. induction ts as [|t ts IH]; intros [|m ms] mk Hl; simpl in *;
    try done; try lia.
  destruct mk as [|k mk]; [done|].
  repeat case_decide; try done; rewrite IH by lia; done.
Qed.

(** A mask with more axes than the receiver cannot be expanded into it. *)
Lemma expand_strides_longer (ms ts : list nat) :
  (length ts < length ms)%nat -> expand_strides ms ts = None.
Proof.
  intros Hl. unfold expand_strides. rewrite expand_rev_longer; [done|].
  by rewrite !length_rev.
Qed.

(** *** Blocks and tiling *)

Lemma chunks_length {A : Type} (k n : nat) (d : list A) : length (chunks k n d) = n.
Proof.
  revert d. induction n as [|n IH]; intros d; simpl; [done|]. by rewrite IH.
Qed.

Lemma concat_chunks {A : Type} (k n : nat) (d : list A) :
  length d = (n * k)%nat -> concat (chunks k n d) = d.
Proof.
  revert d. induction n as [|n IH]; intros d Hl; simpl in *.
  - by destruct d.
  - rewrite IH; [apply firstn_skipn|]. rewrite length_skipn. lia.
Qed.

Lemma chunks_Forall_length {A : Type} (k n : nat) (d : list A) :
  length d = (n * k)%nat -> Forall (fun c => length c = k) (chunks k n d).
Proof.
  revert d. induction n as [|n IH]; intros d Hl; simpl in *; constructor.
  - rewrite length_firstn. lia.
  - apply IH. rewrite length_skipn. lia.
Qed.

Lemma flat_map_id_on {A : Type} (f : list A -> list A) (l : list (list A)) :
  Forall (fun c => f c = c) l -> flat_map f l = concat l.
Proof.
  induction 1 as [|c l Hc _ IH]; simpl; [done|]. by rewrite Hc, IH.
Qed.

Lemma tile_ones (s : list nat) (d : list R) :
  length d = numel s -> tile s (repeat 1%nat (length s)) d = d.
Proof.
  revert d. induction s as [|n s IH]; intros d Hl; simpl in *; [done|].
  rewrite app_nil_r, flat_map_id_on; [by apply concat_chunks|].
  eapply Forall_impl; [by apply chunks_Forall_length|].
  intros c Hc. simpl in Hc. by apply IH.
Qed.

(** ** Running tensor programs *)

Lemma bind_ok {A B : Type} (m : M A) (k : A -> M B) (h h' : gmap loc (list R)) (a : A) :
  m h = (h', inr a) -> bind m k h = k a h'.
Proof. intros E. unfold bind. by rewrite E. Qed.

Lemma bind_err {A B : Type} (m : M A) (k : A -> M B) (h h' : gmap loc (list R)) (e : exn) :
  m h = (h', inl e) -> bind m k h = (h', inl e).
Proof. intros E. unfold bind. by rewrite E. Qed.

Lemma t_read_ok (r : tref) (h : gmap loc (list R)) (d : list R) :
  h !! ref_loc r = Some d ->
  t_read r h = (h, inr (Tensor (ref_shape r)
                          (gather d (positions 0 (ref_shape r) (ref_strides r))))).
Proof. intros E. unfold t_read. by rewrite E. Qed.

Lemma fresh_None (h : gmap loc (list R)) : h !! fresh (dom h) = None.
Proof. apply not_elem_of_dom, is_fresh. Qed.

(** *** Kept locations *)

Lemma preserves_ret {A : Type} (D : gset loc) (a : A) (Q : A -> Prop) :
  Q a -> preserves D (ret a) Q.
Proof. intros HQ h h' r HD [= <- <-]. repeat split; try done. by intros ? [= <-]. Qed.

Lemma preserves_lift {A : Type} (D : gset loc) (x : res A) (Q : A -> Prop) :
  (forall a, x = inr a -> Q a) -> preserves D (lift x) Q.
Proof. intros HQ h h' r HD [= <- <-]. repeat split; done. Qed.

Lemma preserves_raise {A : Type} (D : gset loc) (e : exn) (Q : A -> Prop) :
  preserves D (raise e) Q.
Proof. intros h h' r HD [= <- <-]. repeat split; done. Qed.

Lemma preserves_bind {A B : Type} (D : gset loc) (m : M A) (k : A -> M B)
    (P : A -> Prop) (Q : B -> Prop) :
  preserves D m P -> (forall a, P a -> preserves D (k a) Q) ->
  preserves D (bind m k) Q.
Proof.
  intros Hm Hk h h' r HD. unfold bind.
  destruct (m h) as [h1 [e|a]] eqn:E; destruct (Hm _ _ _ HD E) as (HD1 & Hl1 & HP).
  - intros [= <- <-]. repeat split; done.
  - intros E2. destruct (Hk a (HP a eq_refl) _ _ _ HD1 E2) as (HD2 & Hl2 & HQ).
    repeat split; try done. intros l Hl. by rewrite Hl2, Hl1.
Qed.

Lemma preserves_weaken {A : Type} (D : gset loc) (m : M A) (P Q : A -> Prop) :
  preserves D m P -> (forall a, P a -> Q a) -> preserves D m Q.
Proof.
  intros Hm HPQ h h' r HD E. destruct (Hm _ _ _ HD E) as (? & ? & HP).
  repeat split; try done. intros a Ha. by apply HPQ, HP.
Qed.

(** A new tensor is stored away from the kept locations. *)
Lemma preserves_new (D : gset loc) (v : tensor R) :
  preserves D (t_new v) (fun r => ref_loc r ∉ D).
Proof.
  intros h h' r HD [= <- <-].
  assert (fresh (dom h) ∉ D) as Hf.
  { intros Hin. apply (is_fresh (dom h)). by apply HD. }
  split; [rewrite dom_insert_L; set_solver|]. split.
  - intros l Hl. rewrite lookup_insert_ne; [done|]. by intros <-.
  - by intros a [= <-].
Qed.

Lemma preserves_read (D : gset loc) (r : tref) :
  preserves D (t_read r) (fun _ => True).
Proof.
  intros h h' x HD. unfold t_read.
  destruct (h !! ref_loc r); intros [= <- <-]; repeat split; done.
Qed.

(** An in-place write is kept away from [D] when its receiver is. *)
Lemma preserves_write (D : gset loc) (r : tref) (vs : list R) :
  ref_loc r ∉ D -> preserves D (t_write r vs) (fun _ => True).
Proof.
  intros Hr h h' x HD. unfold t_write.
  destruct (h !! ref_loc r) as [d|]; intros [= <- <-]; repeat split; try done.
  - rewrite dom_insert_L. set_solver.
  - intros l Hl. rewrite lookup_insert_ne; [done|]. by intros <-.
Qed.

Lemma preserves_repeat (D : gset loc) (r : tref) (reps : list nat) :
  preserves D (t_repeat r reps) (fun r' => ref_loc r' ∉ D).
Proof.
  unfold t_repeat.
  eapply preserves_bind; [apply preserves_read|]. intros v _.
  eapply preserves_bind; [by apply (preserves_lift _ _ (fun _ => True))|]. intros v' _.
  apply preserves_new.
Qed.

Lemma preserves_contiguous (D : gset loc) (r : tref) :
  ref_loc r ∉ D -> preserves D (t_contiguous r) (fun r' => ref_loc r' ∉ D).
Proof.
  intros Hr. unfold t_contiguous. destruct (is_contiguous r).
  - by apply preserves_ret.
  - eapply preserves_bind; [apply preserves_read|]. intros v _. apply preserves_new.
Qed.

Lemma preserves_masked_fill_ (D : gset loc) (r : tref) (mask : tensor bool) (value : R) :
  ref_loc r ∉ D -> preserves D (masked_fill_ r mask value) (fun r' => ref_loc r' ∉ D).
Proof.
  intros Hr. unfold masked_fill_.
  destruct (expand_strides _ _); [|apply preserves_raise].
  eapply preserves_bind; [apply preserves_read|]. intros v _.
  eapply preserves_bind; [by apply preserves_write|]. intros _ _.
  by apply preserves_ret.
Qed.

Lemma preserves_weights (D : gset loc) (use_softmax : bool) (y : tref)
    (mask : tensor bool) :
  ref_loc y ∉ D -> preserves D (weights use_softmax y mask) (fun _ => True).
Proof.
  intros Hy. unfold weights. destruct use_softmax.
  - eapply preserves_bind; [by apply preserves_masked_fill_|]. intros y' _.
    eapply preserves_bind; [apply preserves_read|]. intros v _.
    by apply preserves_lift.
  - eapply preserves_bind; [apply preserves_read|]. intros v _.
    by apply preserves_ret.
Qed.

Lemma preserves_initial_state (D : gset loc) (p : tref) (b : nat) :
  preserves D (MetaTaskLstmNetwork.initial_state p b) (fun r => ref_loc r ∉ D).
Proof.
  unfold MetaTaskLstmNetwork.initial_state.
  eapply preserves_bind; [apply preserves_repeat|]. intros r Hr. simpl in Hr.
  eapply (preserves_bind _ _ _ (fun r' => ref_loc r' ∉ D)).
  - apply preserves_lift. intros a. unfold permute. case_decide; [|done].
    destruct (permute_check _ _ _); [done|]. by intros [= <-].
  - intros r' Hr'. by apply preserves_contiguous.
Qed.

Lemma preserves_lstm_scores (D : gset loc) (self : MetaTaskLstmNetwork.t) (x : tensor Z) :
  preserves D (MetaTaskLstmNetwork.scores self x) (fun y => ref_loc y ∉ D).
Proof.
  unfold MetaTaskLstmNetwork.scores.
  eapply preserves_bind; [by apply (preserves_lift _ _ (fun _ => True))|]. intros e _.
  eapply preserves_bind; [by apply (preserves_lift _ _ (fun _ => True))|]. intros bt _.
  eapply preserves_bind; [apply preserves_initial_state|]. intros h _.
  eapply preserves_bind; [apply preserves_initial_state|]. intros c _.
  eapply preserves_bind; [apply preserves_read|]. intros hv _.
  eapply preserves_bind; [apply preserves_read|]. intros cv _.
  eapply preserves_bind; [by apply (preserves_lift _ _ (fun _ => True))|]. intros out _.
  eapply preserves_bind; [by apply (preserves_lift _ _ (fun _ => True))|]. intros y _.
  apply preserves_new.
Qed.

Lemma bind_assoc {A B C : Type} (m : M A) (k : A -> M B) (k' : B -> M C)
    (h : gmap loc (list R)) :
  bind (bind m k) k' h = bind m (fun a => bind (k a) k') h.
Proof. unfold bind. by destruct (m h) as [h1 [e|a]]. Qed.

Lemma bind_ext {A B : Type} (m : M A) (k k' : A -> M B) (h : gmap loc (list R)) :
  (forall a h', k a h' = k' a h') -> bind m k h = bind m k' h.
Proof. intros H. unfold bind. by destruct (m h) as [h1 [e|a]]. Qed.

(** Both [forward] methods are the scalar head followed by [weights]. *)
Lemma lstm_forward_split (self : MetaTaskLstmNetwork.t) (x : tensor Z)
    (h : gmap loc (list R)) :
  MetaTaskLstmNetwork.forward self x h
  = bind (MetaTaskLstmNetwork.scores self x)
         (fun y => weights (MetaTaskLstmNetwork.use_softmax self) y (eq_zero_Z x)) h.
Proof.
  unfold MetaTaskLstmNetwork.forward, MetaTaskLstmNetwork.scores.
  repeat (rewrite bind_assoc; apply bind_ext; intros ? ?).
  reflexivity.
Qed.

Lemma mlp_forward_split (self : MetaTaskMLPNetwork.t) (x : tensor R)
    (h : gmap loc (list R)) :
  MetaTaskMLPNetwork.forward self x h
  = bind (MetaTaskMLPNetwork.scores self x)
         (fun y => weights (MetaTaskMLPNetwork.use_softmax self) y (eq_zero_R x)) h.
Proof.
  unfold MetaTaskMLPNetwork.forward, MetaTaskMLPNetwork.scores.
  repeat (rewrite bind_assoc; apply bind_ext; intros ? ?).
  reflexivity.
Qed.

(** ** The last step of both [forward] methods *)

Lemma map_nth_seq_app {A : Type} (dflt : A) (pre l : list A) :
  map (fun p => nth p (pre ++ l) dflt) (seq (length pre) (length l)) = l.
Proof.
  revert pre. induction l as [|a l IH]; intros pre; simpl; [done|].
  rewrite nth_middle. f_equal.
  specialize (IH (pre ++ [a])). rewrite <- app_assoc, length_app in IH. simpl in IH.
  by rewrite Nat.add_1_r in IH.
Qed.

Lemma map_nth_seq {A : Type} (dflt : A) (l : list A) :
  map (fun p => nth p l dflt) (seq 0 (length l)) = l.
Proof. apply (map_nth_seq_app dflt [] l). Qed.

Lemma numel_squeeze (s strides : list nat) :
  length s = length strides -> numel (fst (squeeze_dims s strides)) = numel s.
Proof.
  revert strides. induction s as [|n s IH]; intros [|k strides] Hl; simpl in *; try done.
  specialize (IH strides ltac:(lia)). case_decide; simpl; lia.
Qed.

Section DenseScores.

(** [y] is a dense tensor of sizes [s] whose storage holds [z]. *)
Variables (l : loc) (s : list nat) (z : list R) (h : gmap loc (list R)).
Hypothesis Hz : h !! l = Some z.
Hypothesis Hlen : length z = numel s.

Let y : tref := TRef l s (contiguous_strides s).
Let sq : list nat := fst (squeeze_dims s (contiguous_strides s)).

Lemma squeezed_positions :
  positions 0 (ref_shape (squeeze y)) (ref_strides (squeeze y)) = seq 0 (length z).
Proof.
  unfold squeeze, y. simpl.
  rewrite squeeze_positions by by rewrite contiguous_strides_length.
  by rewrite positions_contiguous, Hlen.
Qed.

Lemma read_squeezed (h' : gmap loc (list R)) (z' : list R) :
  h' !! l = Some z' -> length z' = length z ->
  t_read (squeeze y) h' = (h', inr (Tensor sq z')).
Proof.
  intros Hz' Hl'. rewrite (t_read_ok _ _ z') by done.
  rewrite squeezed_positions, <- Hl', gather_seq. done.
Qed.

(** Without the softmax: the absolute values of the scores, the mask being
    left aside. *)
Lemma weights_abs (mask : tensor bool) :
  weights false y mask h = (h, inr (Tensor sq (map Rabs z))).
Proof.
  unfold weights. rewrite (bind_ok _ _ _ _ _ (read_squeezed h z Hz eq_refl)). done.
Qed.

(** With the softmax, a mask with more axes than the squeezed scores makes
    the in-place fill raise; the softmax is not reached. *)
Lemma weights_softmax_fails (mask : tensor bool) :
  (length sq < length (shape mask))%nat ->
  weights true y mask h = (h, inl RuntimeError).
Proof.
  intros Hl. unfold weights, masked_fill_.
  change (ref_shape (squeeze y)) with sq.
  rewrite expand_strides_longer by done. done.
Qed.

Lemma weights_softmax_ok (mask : tensor bool) :
  shape mask = sq -> length (data mask) = numel s ->
  let fill := zip_with (fun (b : bool) x => if b then sentinel else x) (data mask) z in
  weights true y mask h = (<[l := fill]> h, softmax (Tensor sq fill) 1).
Proof.
  intros Hs Hm fill.
  assert (length fill = length z) as Hfill.
  { unfold fill. rewrite length_zip_with. lia. }
  assert (numel sq = numel s) as Hsq.
  { unfold sq. apply numel_squeeze. by rewrite contiguous_strides_length. }
  unfold weights, masked_fill_.
  change (ref_shape (squeeze y)) with sq. rewrite Hs, expand_strides_same.
  rewrite (bind_assoc (t_read (squeeze y))).
  rewrite (bind_ok _ _ _ _ _ (read_squeezed h z Hz eq_refl)).
  rewrite positions_contiguous, Hsq, <- Hm, map_nth_seq. cbn [data].
  fold fill.
  assert (t_write (squeeze y) fill h = (<[l := fill]> h, inr tt)) as Hw.
  { unfold t_write. change (ref_loc (squeeze y)) with l. rewrite Hz.
    rewrite squeezed_positions, scatter_seq by done. done. }
  rewrite (bind_assoc (t_write (squeeze y) fill)).
  rewrite (bind_ok _ _ _ _ _ Hw).
  unfold bind at 1. unfold ret.
  erewrite bind_ok; [done|].
  apply read_squeezed; [apply lookup_insert_eq|done].
Qed.

End DenseScores.

(** ** The replicated initial state *)




Lemma repeat_val_batch (L W b : nat) (d : list R) :
  length d = (L * W)%nat ->
  repeat_val (Tensor [L; W] d) [b; 1%nat; 1%nat]
  = inr (Tensor [b; L; W] (concat (repeat d b))).
Proof.
  intros Hl. unfold repeat_val. cbn [shape data length].
  rewrite decide_True by lia.
  change (repeat 1%nat (3 - 2) ++ [L; W]) with [1%nat; L; W].
  change (tile [1%nat; L; W] [b; 1%nat; 1%nat] d)
    with (concat (repeat (flat_map (tile [L; W] [1%nat; 1%nat])
                                   [firstn (numel [L; W]) d]) b)).
  cbn [flat_map]. rewrite app_nil_r, firstn_all2 by (simpl; lia).
  rewrite (tile_ones [L; W]) by (simpl; lia).
  do 2 f_equal. simpl. f_equal; [lia|]. f_equal; [lia|]. f_equal. lia.
Qed.

(** [p.repeat(b, 1, 1).permute(1, 0, 2).contiguous()] for a dense parameter
    [p] of sizes (L, W) holding [d]: a tensor of sizes (L, b, W) that reads
    [b] copies of [d] with the first two axes exchanged. *)
Lemma initial_state_spec (l : loc) (L W b : nat) (d : list R) (h : gmap loc (list R)) :
  h !! l = Some d -> length d = (L * W)%nat ->
  exists h' r D,
    MetaTaskLstmNetwork.initial_state (TRef l [L; W] (contiguous_strides [L; W])) b h
    = (h', inr r) /\
    h ⊆ h' /\ h' !! ref_loc r = Some D /\ ref_shape r = [L; b; W] /\
    gather D (positions 0 (ref_shape r) (ref_strides r))
    = gather (concat (repeat d b))
             (positions 0 [L; b; W] [W * 1; L * (W * 1); 1]%nat).
Proof.
  intros Hd Hl.
  set (p := TRef l [L; W] (contiguous_strides [L; W])).
  assert (t_read p h = (h, inr (Tensor [L; W] d))) as E1.
  { rewrite (t_read_ok _ _ d) by done. unfold p. cbn [ref_shape ref_strides].
    rewrite positions_contiguous.
    replace (numel [L; W]) with (length d) by (simpl; lia).
    by rewrite gather_seq. }
  set (D1 := concat (repeat d b)).
  set (l1 := fresh (dom h)).
  set (h1 := <[l1 := D1]> h).
  set (r2 := TRef l1 [L; b; W] [W * 1; L * (W * 1); 1]%nat).
  assert (h ⊆ h1) as Hsub by (apply insert_subseteq, fresh_None).
  assert (h1 !! l1 = Some D1) as Hl1 by apply lookup_insert_eq.
  assert (MetaTaskLstmNetwork.initial_state p b h = t_contiguous r2 h1) as E.
  { unfold MetaTaskLstmNetwork.initial_state, t_repeat.
    rewrite !bind_assoc, (bind_ok _ _ _ _ _ E1).
    rewrite repeat_val_batch by done.
    unfold bind at 1. unfold t_new at 1.
    cbn [data shape]. fold l1 D1 h1.
    unfold bind at 1. unfold lift at 1.
    unfold permute. cbn [ref_shape length]. rewrite decide_True by done.
    change (permute_check _ [] [1; 0; 2]%nat) with (@inr exn unit tt).
    reflexivity. }
  rewrite E. unfold t_contiguous. destruct (is_contiguous r2).
  - exists h1, r2, D1. repeat split; done.
  - set (G := gather D1 (positions 0 [L; b; W] [W * 1; L * (W * 1); 1]%nat)).
    rewrite (bind_ok _ _ _ _ _ (t_read_ok r2 h1 D1 Hl1)).
    unfold t_new. cbn [data shape ref_shape ref_strides]. fold G.
    eexists _, _, G. split; [reflexivity|]. cbn [ref_loc ref_shape ref_strides].
    split; [|split; [apply lookup_insert_eq|split; [done|]]].
    + etrans; [exact Hsub|]. apply insert_subseteq, fresh_None.
    + rewrite positions_contiguous.
      change (numel (ref_shape r2)) with (numel [L; b; W]).
      replace (numel [L; b; W]) with (length G); [apply gather_seq|].
      unfold G, gather. rewrite length_map. apply positions_length. simpl. lia.
Qed.


(** ** The scalar head of the sequence network *)

Lemma flat_map_Forall_length {A B : Type} (f : A -> list B) (l : list A) (k : nat) :
  Forall (fun a => length (f a) = k) l -> length (flat_map f l) = (length l * k)%nat.
Proof.
  induction 1 as [|a l Ha _ IH]; simpl; [done|].
  by rewrite length_app, Ha, IH.
Qed.

Lemma embed_ok (e : Embedding) (x : tensor Z) :
  Forall (fun z => (0 <= z < Z.of_nat (num_embeddings e))%Z) (data x) ->
  length (table e) = (num_embeddings e * embedding_dim e)%nat ->
  exists v, embed e x = inr (Tensor (shape x ++ [embedding_dim e]) v) /\
            length v = (length (data x) * embedding_dim e)%nat.
Proof.
  intros Hr Ht. unfold embed. rewrite decide_True by done.
  eexists. split; [reflexivity|].
  apply flat_map_Forall_length. eapply Forall_impl; [exact Hr|].
  intros z Hz. simpl in Hz. rewrite length_firstn, length_skipn. nia.
Qed.

Lemma linear_ok (lin : Linear) (v : tensor R) (outer : list nat) :
  shape v = outer ++ [in_features lin] ->
  exists z, linear lin v = inr (Tensor (outer ++ [out_features lin]) z) /\
            length z = (numel outer * out_features lin)%nat.
Proof.
  intros Hs. unfold linear. rewrite Hs, last_snoc, decide_True by done.
  rewrite removelast_last. eexists. split; [reflexivity|].
  rewrite (flat_map_const_length _ _ (out_features lin)), chunks_length; [done|].
  intros a. by rewrite length_map, length_seq.
Qed.

Lemma numel_app (s1 s2 : list nat) : numel (s1 ++ s2) = (numel s1 * numel s2)%nat.
Proof. induction s1 as [|n s1 IH]; simpl; [lia|]. rewrite IH. lia. Qed.

(** On a batch of [b] sequences of [t] tokens of the vocabulary the head
    returns a new dense tensor of sizes (b, t, 1). *)
Lemma lstm_scores_ok (self : MetaTaskLstmNetwork.t) (x : tensor Z)
    (h : gmap loc (list R)) (b t layers hidden w : nat) :
  MetaTaskLstmNetwork.valid self h layers hidden w ->
  shape x = [b; t] -> wf x -> (0 < b)%nat -> (0 < t)%nat ->
  Forall (fun z => (0 <= z < Z.of_nat (num_embeddings (MetaTaskLstmNetwork.embedding self)))%Z)
         (data x) ->
  exists h' l z out,
    MetaTaskLstmNetwork.scores self x h
    = (h', inr (TRef l [b; t; 1%nat] (contiguous_strides [b; t; 1%nat]))) /\
    h' !! l = Some z /\ length z = numel [b; t; 1%nat] /\
    linear (MetaTaskLstmNetwork.out_net self) out = inr (Tensor [b; t; 1%nat] z).
Proof.
  intros ((d0 & Hh0 & Hd0 & Hl0) & (d1 & Hc0 & Hd1 & Hl1) & Htab & Hlstm & Hin & Hout)
         Hs Hwf Hb Ht Hr.
  destruct (embed_ok _ x Hr Htab) as (v & Ee & Hv).
  rewrite Hs in Ee. cbn [app] in Ee.
  destruct (initial_state_spec _ layers w b d0 h Hd0 Hl0)
    as (h1 & rh & Dh & Eh & Hsub1 & HDh & Hsh & Hgh).
  rewrite <- Hh0 in Eh.
  destruct (initial_state_spec _ layers hidden b d1 h1 (lookup_weaken _ _ _ _ Hd1 Hsub1) Hl1)
    as (h2 & rc & Dc & Ec & Hsub2 & HDc & Hsc & Hgc).
  rewrite <- Hc0 in Ec.
  pose proof (t_read_ok rh h2 Dh (lookup_weaken _ _ _ _ HDh Hsub2)) as Erh.
  pose proof (t_read_ok rc h2 Dc HDc) as Erc.
  rewrite Hgh, Hsh in Erh. rewrite Hgc, Hsc in Erc.
  set (hv := Tensor [layers; b; w] _) in Erh.
  set (cv := Tensor [layers; b; hidden] _) in Erc.
  destruct (Hlstm (Tensor [b; t; embedding_dim (MetaTaskLstmNetwork.embedding self)] v)
                  hv cv b t Hb Ht eq_refl) as (out & st & Eo & Hso & Hwo).
  { unfold wf in *. rewrite Hs in Hwf. simpl in *. rewrite Hv, Hwf. lia. }
  { done. }
  { unfold wf, hv, gather. cbn [data shape]. rewrite length_map.
    apply positions_length. simpl. lia. }
  { done. }
  { unfold wf, cv, gather. cbn [data shape]. rewrite length_map.
    apply positions_length. simpl. lia. }
  destruct (linear_ok (MetaTaskLstmNetwork.out_net self) out [b; t]) as (z & Ez & Hz).
  { by rewrite Hso, Hin. }
  rewrite Hout in Ez, Hz. cbn [app] in Ez.
  exists (<[fresh (dom h2) := z]> h2), (fresh (dom h2)), z, out.
  split; [|split; [apply lookup_insert_eq|split; [simpl in *; lia|done]]].
  unfold MetaTaskLstmNetwork.scores.
  rewrite Ee. unfold lift at 1. unfold bind at 1.
  unfold lift at 1. unfold bind at 1. cbn [shape MetaTaskLstmNetwork.unpack3 fst].
  rewrite (bind_ok _ _ _ _ _ Eh), (bind_ok _ _ _ _ _ Ec).
  rewrite (bind_ok _ _ _ _ _ Erh), (bind_ok _ _ _ _ _ Erc).
  rewrite Eo. unfold lift at 1. unfold bind at 1. cbn [fst].
  rewrite Ez. unfold lift at 1. unfold bind at 1.
  reflexivity.
Qed.

(** ** The softmax over the second axis *)

Lemma nth_map_seq {A : Type} (f : nat -> A) (n p : nat) (dflt : A) :
  (p < n)%nat -> nth p (map f (seq 0 n)) dflt = f p.
Proof.
  intros Hp. rewrite (nth_indep _ dflt (f 0%nat)) by by rewrite length_map, length_seq.
  rewrite (map_nth f). by rewrite seq_nth.
Qed.

Lemma Rsum_div (f : nat -> R) (c : R) (l : list nat) :
  Rsum (map (fun j => f j / c) l) = Rsum (map f l) / c.
Proof.
  induction l as [|a l IH]; simpl; [unfold Rdiv; ring|]. rewrite IH. unfold Rdiv. ring.
Qed.

Lemma Rsum_exp_pos (f : nat -> R) (l : list nat) :
  l <> [] -> 0 < Rsum (map (fun j => exp (f j)) l).
Proof.
  intros Hne. destruct l as [|a l]; [done|]. simpl.
  assert (0 <= Rsum (map (fun j => exp (f j)) l)).
  { apply Rsum_nonneg, List.Forall_map, Forall_true. intros j. left. apply exp_pos. }
  pose proof (exp_pos (f a)). lra.
Qed.

Lemma Rsum_map_plus (f g : nat -> R) (l : list nat) :
  Rsum (map (fun j => f j + g j) l) = Rsum (map f l) + Rsum (map g l).
Proof.
  induction l as [|a l IH]; simpl; [lra|]. rewrite IH. lra.
Qed.

Lemma Rsum_map_ext_in (f g : nat -> R) (l : list nat) :
  (forall j, In j l -> f j = g j) -> Rsum (map f l) = Rsum (map g l).
Proof. intros H. f_equal. by apply map_ext_in. Qed.

Lemma Rsum_map_lt (f : nat -> R) (c : R) (l : list nat) :
  l <> [] -> (forall j, In j l -> f j < c) -> Rsum (map f l) < INR (length l) * c.
Proof.
  intros Hne Hf. induction l as [|a l IH]; [done|].
  change (length (a :: l)) with (S (length l)). rewrite S_INR. simpl.
  pose proof (Hf a (or_introl eq_refl)) as Ha.
  destruct l as [|a' l].
  - simpl. lra.
  - assert (Rsum (map f (a' :: l)) < INR (length (a' :: l)) * c) as IH'.
    { apply IH; [done|]. intros j Hj. apply Hf. by right. }
    lra.
Qed.

Lemma Rsum_map_nonneg (f : nat -> R) (l : list nat) :
  (forall j, In j l -> 0 <= f j) -> 0 <= Rsum (map f l).
Proof.
  intros Hf. induction l as [|a l IH]; simpl; [lra|].
  pose proof (Hf a (or_introl eq_refl)).
  assert (0 <= Rsum (map f l)) by (apply IH; intros j Hj; apply Hf; by right).
  lra.
Qed.

(** The entries of the softmax of a two-dimensional tensor along axis 1. *)
Lemma softmax_rows (b t : nat) (d : list R) :
  exists w, softmax (Tensor [b; t] d) 1 = inr w /\ shape w = [b; t] /\
    forall i j, (i < b)%nat -> (j < t)%nat ->
      get2 0 w i j
      = exp (nth (i * t + j) d 0)
        / Rsum (map (fun j' => exp (nth (i * t + j') d 0)) (seq 0 t)).
Proof.
  unfold softmax. cbn [shape data length]. rewrite decide_True by (simpl; lia).
  eexists. split; [reflexivity|]. split; [done|].
  intros i j Hi Hj. unfold get2. cbn [shape data nth].
  rewrite nth_map_seq by (simpl; nia). simpl numel.
  f_equal. apply Rsum_map_ext_in. intros j' _. do 2 f_equal.
  replace (t * 1)%nat with t by lia.
  rewrite Nat.div_add_l, (Nat.div_small j t), Nat.mod_1_r by lia. lia.
Qed.

Lemma softmax_row_sum (b t : nat) (d : list R) (w : tensor R) (i : nat) :
  softmax (Tensor [b; t] d) 1 = inr w -> (i < b)%nat -> (0 < t)%nat ->
  Rsum (map (get2 0 w i) (seq 0 t)) = 1.
Proof.
  intros Ew Hi Ht. destruct (softmax_rows b t d) as (w' & Ew' & _ & Hent).
  rewrite Ew in Ew'. injection Ew' as <-.
  rewrite (Rsum_map_ext_in _ (fun j => exp (nth (i * t + j) d 0)
             / Rsum (map (fun j' => exp (nth (i * t + j') d 0)) (seq 0 t)))).
  - rewrite Rsum_div. unfold Rdiv. apply Rinv_r.
    apply Rgt_not_eq, Rsum_exp_pos. destruct t; [lia|done].
  - intros j Hj. apply in_seq in Hj. apply Hent; lia.
Qed.

Lemma nth_fill (m : list bool) (z : list R) (c : R) (p : nat) :
  (p < length m)%nat -> (p < length z)%nat ->
  nth p (zip_with (fun (b : bool) x => if b then c else x) m z) 0
  = if nth p m false then c else nth p z 0.
Proof.
  revert m z. induction p as [|p IH]; intros [|a m] [|x z] Hm Hz; simpl in *;
    try lia; [done|]. apply IH; lia.
Qed.

Lemma squeeze_batch_time (b t : nat) :
  b <> 1%nat -> t <> 1%nat ->
  fst (squeeze_dims [b; t; 1%nat] (contiguous_strides [b; t; 1%nat])) = [b; t].
Proof.
  intros Hb Ht. simpl. by rewrite !decide_False by done.
Qed.

(** ** The sequence network with the softmax *)

Lemma lstm_forward_softmax (self : MetaTaskLstmNetwork.t) (x : tensor Z)
    (h : gmap loc (list R)) (b t layers hidden w : nat) :
  MetaTaskLstmNetwork.valid self h layers hidden w ->
  MetaTaskLstmNetwork.use_softmax self = true ->
  shape x = [b; t] -> wf x -> (2 <= b)%nat -> (2 <= t)%nat ->
  Forall (fun z => (0 <= z < Z.of_nat (num_embeddings (MetaTaskLstmNetwork.embedding self)))%Z)
         (data x) ->
  exists h1 y z out wgt,
    MetaTaskLstmNetwork.scores self x h = (h1, inr y) /\
    h1 !! ref_loc y = Some z /\ length z = (b * t)%nat /\
    linear (MetaTaskLstmNetwork.out_net self) out = inr (Tensor [b; t; 1%nat] z) /\
    MetaTaskLstmNetwork.forward self x h
    = (<[ref_loc y :=
           zip_with (fun (m : bool) v => if m then sentinel else v)
                    (data (eq_zero_Z x)) z]> h1, inr wgt) /\
    softmax (Tensor [b; t]
               (zip_with (fun (m : bool) v => if m then sentinel else v)
                         (data (eq_zero_Z x)) z)) 1 = inr wgt.
Proof.
  intros Hv Hsm Hs Hwf Hb Ht Hr.
  destruct (lstm_scores_ok self x h b t layers hidden w Hv Hs Hwf) as
    (h1 & l & z & out & Es & Hz & Hlz & Eo); [lia|lia|done|].
  destruct (softmax_rows b t (zip_with (fun (m : bool) v => if m then sentinel else v)
                                       (data (eq_zero_Z x)) z)) as (wgt & Ew & _).
  exists h1, (TRef l [b; t; 1%nat] (contiguous_strides [b; t; 1%nat])), z, out, wgt.
  split; [done|]. split; [done|]. split; [simpl in Hlz; lia|]. split; [done|].
  split; [|done].
  rewrite lstm_forward_split, (bind_ok _ _ _ _ _ Es), Hsm.
  rewrite (weights_softmax_ok l [b; t; 1%nat] z h1 Hz Hlz).
  - rewrite squeeze_batch_time by lia. by rewrite Ew.
  - rewrite squeeze_batch_time by lia. done.
  - unfold eq_zero_Z. cbn [data]. rewrite length_map.
    unfold wf in Hwf. rewrite Hwf, Hs. simpl. lia.
Qed.

Lemma nth_eq_zero_Z (x : tensor Z) (p : nat) :
  (p < length (data x))%nat ->
  nth p (data (eq_zero_Z x)) false = bool_decide (nth p (data x) 0%Z = 0%Z).
Proof.
  intros Hp. unfold eq_zero_Z. cbn [data].
  rewrite (nth_indep _ false (bool_decide (0%Z = 0%Z))) by by rewrite length_map.
  apply (map_nth (fun z => bool_decide (z = 0%Z))).
Qed.

(** C3, as amended.  For a batch of at least two sequences of at least two
    tokens of the vocabulary, the sequence network with the softmax returns
    a weight for every position; the mask is the set of positions whose
    token is 0; in every row the weights are non-negative and sum to 1 over
    all positions; the weight of a masked position is the weight of a
    non-masked position [k] of its row times [exp (sentinel - z k)], where
    [z] are the scores of the head; hence, when some non-masked score of the
    row has [exp (sentinel - z k) < eps], every masked weight of the row is
    below [eps] and the non-masked weights sum to more than [1 - t * eps]. *)
Theorem softmax_weights_masked (self : MetaTaskLstmNetwork.t) (x : tensor Z)
    (h : gmap loc (list R)) (b t layers hidden w : nat) :
  MetaTaskLstmNetwork.valid self h layers hidden w ->
  MetaTaskLstmNetwork.use_softmax self = true ->
  shape x = [b; t] -> wf x -> (2 <= b)%nat -> (2 <= t)%nat ->
  Forall (fun z => (0 <= z < Z.of_nat (num_embeddings (MetaTaskLstmNetwork.embedding self)))%Z)
         (data x) ->
  exists h1 y z h' wgt,
    MetaTaskLstmNetwork.scores self x h = (h1, inr y) /\
    h1 !! ref_loc y = Some z /\
    MetaTaskLstmNetwork.forward self x h = (h', inr wgt) /\
    shape wgt = [b; t] /\
    forall i, (i < b)%nat ->
      Rsum (map (get2 0 wgt i) (seq 0 t)) = 1 /\
      (forall j, (j < t)%nat -> 0 <= get2 0 wgt i j) /\
      (forall j k, (j < t)%nat -> (k < t)%nat ->
         get2 0%Z x i j = 0%Z -> get2 0%Z x i k <> 0%Z ->
         get2 0 wgt i j = exp (sentinel - nth (i * t + k) z 0) * get2 0 wgt i k) /\
      (forall eps k, (k < t)%nat -> get2 0%Z x i k <> 0%Z ->
         exp (sentinel - nth (i * t + k) z 0) < eps ->
         (forall j, (j < t)%nat -> get2 0%Z x i j = 0%Z -> get2 0 wgt i j < eps) /\
         1 - INR t * eps
         < Rsum (map (fun j => if decide (get2 0%Z x i j = 0%Z) then 0
                               else get2 0 wgt i j) (seq 0 t))
         <= 1).
Proof.
  intros Hv Hsm Hs Hwf Hb Ht Hr.
  destruct (lstm_forward_softmax self x h b t layers hidden w Hv Hsm Hs Hwf Hb Ht Hr)
    as (h1 & y & z & out & wgt & Es & Hz & Hlz & _ & Ef & Ew).
  set (fill := zip_with (fun (m : bool) v => if m then sentinel else v)
                        (data (eq_zero_Z x)) z) in *.
  destruct (softmax_rows b t fill) as (wgt' & Ew' & Hsw & Hent).
  rewrite Ew in Ew'. injection Ew' as <-.
  assert (length (data x) = (b * t)%nat) as Hlx.
  { unfold wf in Hwf. rewrite Hwf, Hs. simpl. lia. }
  assert (forall i j, get2 0%Z x i j = nth (i * t + j) (data x) 0%Z) as Hx.
  { intros i j. unfold get2. by rewrite Hs. }
  assert (forall i j, (i < b)%nat -> (j < t)%nat ->
            nth (i * t + j) fill 0
            = if decide (get2 0%Z x i j = 0%Z) then sentinel else nth (i * t + j) z 0)
    as Hfill.
  { intros i j Hi Hj. unfold fill.
    rewrite nth_fill, nth_eq_zero_Z, Hx;
      [|nia|unfold eq_zero_Z; cbn [data]; rewrite length_map; nia|nia].
    by destruct (decide (nth (i * t + j) (data x) 0%Z = 0%Z));
      [rewrite bool_decide_eq_true_2|rewrite bool_decide_eq_false_2]. }
  exists h1, y, z, (<[ref_loc y := fill]> h1), wgt.
  split; [done|]. split; [done|]. split; [exact Ef|].
  split; [done|]. intros i Hi.
  set (S := Rsum (map (fun j' => exp (nth (i * t + j') fill 0)) (seq 0 t))).
  assert (0 < S) as HS.
  { apply Rsum_exp_pos. destruct t; [lia|done]. }
  assert (forall j, (j < t)%nat -> 0 < get2 0 wgt i j) as Hpos.
  { intros j Hj. rewrite Hent by done. fold S.
    apply Rdiv_lt_0_compat; [apply exp_pos|done]. }
  assert (forall j k, (j < t)%nat -> (k < t)%nat ->
            get2 0%Z x i j = 0%Z -> get2 0%Z x i k <> 0%Z ->
            get2 0 wgt i j = exp (sentinel - nth (i * t + k) z 0) * get2 0 wgt i k)
    as Hrel.
  { intros j k Hj Hk Hm Hk'. rewrite !Hent by done. fold S.
    rewrite !Hfill by done. rewrite decide_True, decide_False by done.
    unfold Rdiv. rewrite <- Rmult_assoc, <- exp_plus. do 2 f_equal. ring. }
  split; [by eapply softmax_row_sum; [exact Ew|done|lia]|].
  split; [intros j Hj; left; by apply Hpos|]. split; [done|].
  intros eps k Hk Hk' Heps.
  assert (get2 0 wgt i k <= 1) as Hle1.
  { rewrite Hent by done. fold S. apply (Rmult_le_reg_r S); [done|].
    unfold Rdiv. rewrite Rmult_assoc, Rinv_l, Rmult_1_r, Rmult_1_l by lra.
    unfold S.
    assert (In k (seq 0 t)) as Hin by (apply in_seq; lia).
    clear -Hin. induction (seq 0 t) as [|a l' IH]; [done|]. simpl.
    assert (0 <= Rsum (map (fun j' => exp (nth (i * t + j') fill 0)) l')).
    { apply Rsum_map_nonneg. intros. left. apply exp_pos. }
    destruct Hin as [->|Hin]; [lra|].
    pose proof (exp_pos (nth (i * t + a) fill 0)). specialize (IH Hin). lra. }
  assert (forall j, (j < t)%nat -> get2 0%Z x i j = 0%Z -> get2 0 wgt i j < eps) as Hmask.
  { intros j Hj Hm. rewrite (Hrel j k) by done.
    pose proof (exp_pos (sentinel - nth (i * t + k) z 0)).
    pose proof (Hpos k Hk). nra. }
  split; [done|].
  assert (0 < eps) as Heps0.
  { pose proof (exp_pos (sentinel - nth (i * t + k) z 0)). lra. }
  set (valid := fun j => if decide (get2 0%Z x i j = 0%Z) then 0 else get2 0 wgt i j).
  set (masked := fun j => if decide (get2 0%Z x i j = 0%Z) then get2 0 wgt i j else 0).
  assert (Rsum (map valid (seq 0 t)) + Rsum (map masked (seq 0 t)) = 1) as Hsplit.
  { rewrite <- Rsum_map_plus.
    rewrite <- (softmax_row_sum b t fill wgt i Ew Hi) by lia.
    apply Rsum_map_ext_in. intros j _. unfold valid, masked.
    destruct (decide (get2 0%Z x i j = 0%Z)); ring. }
  assert (Rsum (map masked (seq 0 t)) < INR t * eps) as Hlt.
  { replace (INR t) with (INR (length (seq 0 t))) by by rewrite length_seq.
    apply Rsum_map_lt; [destruct t; [lia|done]|].
    intros j Hj. apply in_seq in Hj. unfold masked.
    destruct (decide (get2 0%Z x i j = 0%Z)); [apply Hmask; [lia|done]|done]. }
  assert (0 <= Rsum (map masked (seq 0 t))) as Hge.
  { apply Rsum_map_nonneg. intros j Hj. apply in_seq in Hj. unfold masked.
    destruct (decide (get2 0%Z x i j = 0%Z)); [left; apply Hpos; lia|lra]. }
  lra.
Qed.

(** *** The example network *)

Lemma zero_lstm_ok (input_size layers hidden w : nat) :
  MetaTaskLstmNetwork.lstm_ok Examples.zero_lstm input_size layers hidden w.
Proof.
  intros x hv cv b t _ _ Hx _ Hh _ _ _. unfold Examples.zero_lstm.
  cbn [fst]. rewrite Hx, Hh. eexists _, _. split; [reflexivity|]. split; [done|].
  unfold wf. cbn [data shape]. by rewrite repeat_length.
Qed.

Lemma head_net_valid (beta : R) (use_softmax : bool) :
  MetaTaskLstmNetwork.valid (Examples.head_net beta use_softmax) Examples.head_store 1 1 1.
Proof.
  unfold MetaTaskLstmNetwork.valid, Examples.head_net, Examples.head_store.
  cbn [MetaTaskLstmNetwork.h0 MetaTaskLstmNetwork.c0 MetaTaskLstmNetwork.embedding
       MetaTaskLstmNetwork.lstm MetaTaskLstmNetwork.out_net ref_loc
       table num_embeddings embedding_dim in_features out_features].
  split; [exists [0]; by rewrite lookup_insert_eq|].
  split; [exists [0]; by rewrite lookup_insert_ne, lookup_insert_eq|].
  split; [done|]. split; [apply zero_lstm_ok|done].
Qed.

Lemma padded_batch_tokens (beta : R) (use_softmax : bool) :
  Forall (fun z => (0 <= z < Z.of_nat (num_embeddings
            (MetaTaskLstmNetwork.embedding (Examples.head_net beta use_softmax))))%Z)
         (data Examples.padded_batch).
Proof. simpl. repeat constructor; lia. Qed.

Lemma dot_zeros (k : nat) (v : list R) : dot (repeat 0 k) v = 0.
Proof.
  unfold dot. revert v. induction k as [|k IH]; intros [|a v]; simpl; try done.
  rewrite IH. ring.
Qed.

(** A head whose weights are zero returns its bias at every position. *)
Lemma linear_zero_weight (k : nat) (beta : R) (v : tensor R) (s : list nat) (z : list R) :
  linear (mkLinear k 1 [repeat 0 k] [beta]) v = inr (Tensor s z) ->
  Forall (fun e => e = beta) z.
Proof.
  unfold linear. destruct (last (shape v)) as [n|]; [|done].
  case_decide; [|done]. intros [= _ <-]. cbn [weight bias out_features].
  induction (chunks n (numel (removelast (shape v))) (data v)) as [|c cs IH];
    simpl; [done|].
  constructor; [|done]. rewrite dot_zeros. ring.
Qed.

Lemma softmax_weights_masked_witness :
  exists h' wgt,
    MetaTaskLstmNetwork.forward (Examples.head_net 0 true) Examples.padded_batch
      Examples.head_store = (h', inr wgt) /\
    Rsum (map (get2 0 wgt 0) (seq 0 2)) = 1.
Proof.
  destruct (softmax_weights_masked (Examples.head_net 0 true) Examples.padded_batch
              Examples.head_store 2 2 1 1 1 (head_net_valid 0 true) eq_refl eq_refl
              eq_refl (le_n 2) (le_n 2) (padded_batch_tokens 0 true))
    as (h1 & y & z & h' & wgt & _ & _ & Ef & _ & Hrow).
  exists h', wgt. split; [exact Ef|]. apply (Hrow 0%nat). lia.
Defined.

(** C3 as stated fails: with a head of bias -98766 the scores are below
    the fill value; every row of the batch has a non-padding token, and the
    padding position of the first row gets more than half of the weight. *)
Lemma masked_weight_not_small :
  exists h' wgt,
    MetaTaskLstmNetwork.forward (Examples.head_net (- 98766) true)
      Examples.padded_batch Examples.head_store = (h', inr wgt) /\
    get2 0%Z Examples.padded_batch 0 0 <> 0%Z /\
    get2 0%Z Examples.padded_batch 1 0 <> 0%Z /\
    get2 0%Z Examples.padded_batch 0 1 = 0%Z /\
    1 / 2 < get2 0 wgt 0 1 /\
    get2 0 wgt 0 0 < 1 / 2.
Proof.
  destruct (lstm_forward_softmax (Examples.head_net (- 98766) true) Examples.padded_batch
              Examples.head_store 2 2 1 1 1 (head_net_valid _ true) eq_refl eq_refl
              eq_refl (le_n 2) (le_n 2) (padded_batch_tokens _ true))
    as (h1 & y & z & out & wgt & _ & _ & Hlz & Eo & Ef & Ew).
  apply linear_zero_weight in Eo.
  destruct z as [|z0 [|z1 [|z2 [|z3 [|]]]]]; try done.
  apply Forall_cons in Eo as [-> Eo]. apply Forall_cons in Eo as [-> _].
  eexists _, wgt. split; [exact Ef|].
  split; [done|]. split; [done|]. split; [done|].
  destruct (softmax_rows 2 2
              (zip_with (fun (m : bool) v => if m then sentinel else v)
                        (data (eq_zero_Z Examples.padded_batch))
                        [- 98766; - 98766; z2; z3])) as (w' & Ew' & _ & Hent).
  rewrite Ew in Ew'. injection Ew' as <-.
  rewrite !Hent by lia. simpl. unfold sentinel.
  assert (exp (- 98766) < exp (- 98765)) as Hlt by (apply exp_increasing; lra).
  pose proof (exp_pos (- 98766)) as Hp.
  set (a := exp (- 98766)) in *. set (c := exp (- 98765)) in *.
  split.
  - apply (Rmult_lt_reg_r (a + (c + 0))); [lra|].
    unfold Rdiv at 2. rewrite Rmult_assoc, Rinv_l by lra. lra.
  - apply (Rmult_lt_reg_r (a + (c + 0))); [lra|].
    unfold Rdiv at 1. rewrite Rmult_assoc, Rinv_l by lra. lra.
Qed.

(** ** The initial-state parameters *)

Lemma preserves_lstm_forward (D : gset loc) (self : MetaTaskLstmNetwork.t)
    (x : tensor Z) :
  preserves D (MetaTaskLstmNetwork.forward self x) (fun _ => True).
Proof.
  intros h h' r HD E. rewrite lstm_forward_split in E. revert h h' r HD E.
  eapply preserves_bind; [apply preserves_lstm_scores|].
  intros y Hy. by apply preserves_weights.
Qed.



(** ** The two networks without the softmax, and on a batch of one row *)

Lemma weights_abs_nonneg (y : tref) (mask : tensor bool) (h h' : gmap loc (list R))
    (wgt : tensor R) :
  weights false y mask h = (h', inr wgt) -> Forall (fun v => 0 <= v) (data wgt).
Proof.
  unfold weights, bind. destruct (t_read (squeeze y) h) as [h1 [e|v]]; [done|].
  intros [= _ <-]. cbn [t_abs data]. apply List.Forall_map, Forall_true.
  intros v'. apply Rabs_pos.
Qed.

Lemma squeeze_one_row (t : nat) :
  fst (squeeze_dims [1%nat; t; 1%nat] (contiguous_strides [1%nat; t; 1%nat]))
  = if decide (t = 1%nat) then [] else [t].
Proof. simpl. by destruct (decide (t = 1%nat)). Qed.

(** The scalar head of the vector network built by the constructor, on an
    input whose last axis has the size it was built for. *)
Lemma mlp_scores_ok (g : nat -> nat -> R) (D : nat) (use_softmax : bool)
    (x : tensor R) (outer : list nat) (h : gmap loc (list R)) :
  shape x = outer ++ [D] ->
  exists z,
    MetaTaskMLPNetwork.scores (MetaTaskMLPNetwork.init g D use_softmax) x h
    = (<[fresh (dom h) := z]> h,
       inr (TRef (fresh (dom h)) (outer ++ [1%nat]) (contiguous_strides (outer ++ [1%nat]))))
    /\ length z = numel (outer ++ [1%nat]).
Proof.
  intros Hs. unfold MetaTaskMLPNetwork.scores, MetaTaskMLPNetwork.init.
  cbn [MetaTaskMLPNetwork.mlp fst snd].
  destruct (linear_ok (new_linear g D D) x outer Hs) as (z1 & E1 & _).
  rewrite E1. cbn [rbind].
  destruct (linear_ok (new_linear (fun j i => g (D + j)%nat i) D 1)
              (relu (Tensor (outer ++ [out_features (new_linear g D D)]) z1)) outer)
    as (z & E2 & Hz); [done|].
  rewrite E2. exists z. split; [done|].
  rewrite numel_app. exact Hz.
Qed.

Lemma linear_bad_last (lin : Linear) (x : tensor R) :
  last (shape x) <> Some (in_features lin) -> linear lin x = inl RuntimeError.
Proof.
  intros H. unfold linear. destruct (last (shape x)) as [k|]; [|done].
  rewrite decide_False; [done|]. by intros ->.
Qed.

(** With the softmax the vector network built by the constructor raises on
    every input: the mask has the axes of the input, the squeezed scores
    have lost the last one. *)
Lemma mlp_softmax_raises (g : nat -> nat -> R) (D : nat) (x : tensor R)
    (h : gmap loc (list R)) :
  exists h',
    MetaTaskMLPNetwork.forward (MetaTaskMLPNetwork.init g D true) x h
    = (h', inl RuntimeError).
Proof.
  rewrite mlp_forward_split.
  destruct (last (shape x)) as [k|] eqn:El.
  - destruct (decide (k = D)) as [->|Hk].
    + apply last_Some in El as [outer Hs].
      destruct (mlp_scores_ok g D true x outer h Hs) as (z & Es & Hz).
      rewrite (bind_ok _ _ _ _ _ Es). eexists.
      apply weights_softmax_fails.
      unfold eq_zero_R. cbn [shape]. rewrite Hs, length_app. simpl.
      pose proof (squeeze_dims_last_one outer (contiguous_strides (outer ++ [1%nat]))) as Hq.
      rewrite contiguous_strides_length, length_app in Hq. simpl in Hq.
      specialize (Hq ltac:(lia)). lia.
    + exists h. unfold MetaTaskMLPNetwork.scores, MetaTaskMLPNetwork.init.
      cbn [MetaTaskMLPNetwork.mlp fst snd].
      rewrite (linear_bad_last (new_linear g D D) x); [done|].
      rewrite El. by intros [= ->].
  - exists h. unfold MetaTaskMLPNetwork.scores, MetaTaskMLPNetwork.init.
    cbn [MetaTaskMLPNetwork.mlp fst snd].
    rewrite (linear_bad_last (new_linear g D D) x); [done|]. by rewrite El.
Qed.

(** C8.  Without the softmax every entry either network returns is
    non-negative, and the mask plays no part: when the weights of the head
    of the sequence network are zero and its bias is [beta], every
    position, padding or not, gets the weight [Rabs beta]; and the vector
    network returns the absolute values of its scores, zero-valued inputs
    included. *)
Theorem abs_weights_nonneg :
  (forall (self : MetaTaskLstmNetwork.t) (x : tensor Z) (h h' : gmap loc (list R))
          (wgt : tensor R),
     MetaTaskLstmNetwork.use_softmax self = false ->
     MetaTaskLstmNetwork.forward self x h = (h', inr wgt) ->
     Forall (fun v => 0 <= v) (data wgt)) /\
  (forall (self : MetaTaskMLPNetwork.t) (x : tensor R) (h h' : gmap loc (list R))
          (wgt : tensor R),
     MetaTaskMLPNetwork.use_softmax self = false ->
     MetaTaskMLPNetwork.forward self x h = (h', inr wgt) ->
     Forall (fun v => 0 <= v) (data wgt)) /\
  (forall (self : MetaTaskLstmNetwork.t) (x : tensor Z) (h : gmap loc (list R))
          (b t layers hidden w : nat) (beta : R),
     MetaTaskLstmNetwork.valid self h layers hidden w ->
     MetaTaskLstmNetwork.use_softmax self = false ->
     MetaTaskLstmNetwork.out_net self = mkLinear w 1 [repeat 0 w] [beta] ->
     shape x = [b; t] -> wf x -> (0 < b)%nat -> (0 < t)%nat ->
     Forall (fun z => (0 <= z < Z.of_nat (num_embeddings
                                            (MetaTaskLstmNetwork.embedding self)))%Z)
            (data x) ->
     exists h' wgt,
       MetaTaskLstmNetwork.forward self x h = (h', inr wgt) /\
       length (data wgt) = (b * t)%nat /\
       Forall (fun v => v = Rabs beta) (data wgt)) /\
  (forall (g : nat -> nat -> R) (D : nat) (x : tensor R) (outer : list nat)
          (h : gmap loc (list R)),
     shape x = outer ++ [D] ->
     exists h' y z wgt,
       MetaTaskMLPNetwork.scores (MetaTaskMLPNetwork.init g D false) x h = (h', inr y) /\
       h' !! ref_loc y = Some z /\
       MetaTaskMLPNetwork.forward (MetaTaskMLPNetwork.init g D false) x h
       = (h', inr wgt) /\
       data wgt = map Rabs z).
Proof.
  split; [|split; [|split]].
  - intros self x h h' wgt Hsm E. rewrite lstm_forward_split, Hsm in E.
    unfold bind in E. destruct (MetaTaskLstmNetwork.scores self x h) as [h1 [e|y]]; [done|].
    by eapply weights_abs_nonneg.
  - intros self x h h' wgt Hsm E. rewrite mlp_forward_split, Hsm in E.
    unfold bind in E. destruct (MetaTaskMLPNetwork.scores self x h) as [h1 [e|y]]; [done|].
    by eapply weights_abs_nonneg.
  - intros self x h b t layers hidden w beta Hv Hsm Hhead Hs Hwf Hb Ht Hr.
    destruct (lstm_scores_ok self x h b t layers hidden w Hv Hs Hwf Hb Ht Hr)
      as (h1 & l & z & out & Es & Hz & Hlz & Eo).
    rewrite Hhead in Eo. apply linear_zero_weight in Eo.
    eexists _, _. split.
    + rewrite lstm_forward_split, (bind_ok _ _ _ _ _ Es), Hsm.
      by apply weights_abs.
    + cbn [data]. rewrite length_map. split; [simpl in Hlz; lia|].
      apply List.Forall_map. eapply Forall_impl; [exact Eo|].
      intros v Hv'. simpl in Hv'. by rewrite Hv'.
  - intros g D x outer h Hs.
    destruct (mlp_scores_ok g D false x outer h Hs) as (z & Es & Hz).
    exists (<[fresh (dom h) := z]> h),
           (TRef (fresh (dom h)) (outer ++ [1%nat]) (contiguous_strides (outer ++ [1%nat]))),
           z,
           (Tensor (fst (squeeze_dims (outer ++ [1%nat])
                           (contiguous_strides (outer ++ [1%nat]))))
                   (map Rabs z)).
    split; [exact Es|]. split; [apply lookup_insert_eq|]. split; [|reflexivity].
    rewrite mlp_forward_split, (bind_ok _ _ _ _ _ Es).
    apply weights_abs; [apply lookup_insert_eq|done].
Qed.

Lemma abs_weights_nonneg_witness :
  exists h' wgt,
    MetaTaskLstmNetwork.forward (Examples.head_net 1 false) Examples.padded_batch
      Examples.head_store = (h', inr wgt) /\
    length (data wgt) = 4%nat /\
    Forall (fun v => v = Rabs 1) (data wgt) /\
    Forall (fun v => 0 <= v) (data wgt).
Proof.
  destruct abs_weights_nonneg as (Hpos & _ & Hbias & _).
  destruct (Hbias (Examples.head_net 1 false) Examples.padded_batch Examples.head_store
              2%nat 2%nat 1%nat 1%nat 1%nat 1 (head_net_valid 1 false) eq_refl eq_refl
              eq_refl eq_refl (le_S _ _ (le_n 1)) (le_S _ _ (le_n 1))
              (padded_batch_tokens 1 false))
    as (h' & wgt & E & Hl & Hall).
  exists h', wgt. split; [exact E|]. split; [exact Hl|]. split; [exact Hall|].
  exact (Hpos (Examples.head_net 1 false) _ _ _ _ eq_refl E).
Defined.

Lemma softmax_one_axis (t : nat) (d : list R) :
  softmax (Tensor [t] d) 1 = inl IndexError.
Proof. unfold softmax. cbn [shape length]. by rewrite decide_False by (simpl; lia). Qed.

(** C10, as amended.  On a batch of one row both networks with the softmax
    raise: [squeeze] drops the batch axis with the last one, and the
    in-place fill cannot expand the mask, which kept its axes, into the
    squeezed scores (a size error; the softmax, which would find axis 1 out
    of range, is not reached).  Without the softmax the tensor they return
    has lost the batch axis. *)
Theorem one_row_batch :
  (forall (self : MetaTaskLstmNetwork.t) (x : tensor Z) (h : gmap loc (list R))
          (t layers hidden w : nat),
     MetaTaskLstmNetwork.valid self h layers hidden w ->
     shape x = [1%nat; t] -> wf x -> (0 < t)%nat ->
     Forall (fun z => (0 <= z < Z.of_nat (num_embeddings
                                            (MetaTaskLstmNetwork.embedding self)))%Z)
            (data x) ->
     (MetaTaskLstmNetwork.use_softmax self = true ->
      exists h', MetaTaskLstmNetwork.forward self x h = (h', inl RuntimeError)) /\
     (MetaTaskLstmNetwork.use_softmax self = false ->
      exists h' wgt, MetaTaskLstmNetwork.forward self x h = (h', inr wgt) /\
                     shape wgt = if decide (t = 1%nat) then [] else [t])) /\
  (forall (g : nat -> nat -> R) (D : nat) (x : tensor R) (h : gmap loc (list R)),
     shape x = [1%nat; D] ->
     (exists h', MetaTaskMLPNetwork.forward (MetaTaskMLPNetwork.init g D true) x h
                 = (h', inl RuntimeError)) /\
     (exists h' wgt, MetaTaskMLPNetwork.forward (MetaTaskMLPNetwork.init g D false) x h
                     = (h', inr wgt) /\ shape wgt = [])) /\
  (forall (t : nat) (d : list R), softmax (Tensor [t] d) 1 = inl IndexError).
Proof.
  split; [|split; [|apply softmax_one_axis]].
  - intros self x h t layers hidden w Hv Hs Hwf Ht Hr.
    destruct (lstm_scores_ok self x h 1 t layers hidden w Hv Hs Hwf) as
      (h1 & l & z & out & Es & Hz & Hlz & _); [lia|done|done|].
    split; intros Hsm.
    + exists h1. rewrite lstm_forward_split, (bind_ok _ _ _ _ _ Es), Hsm.
      apply weights_softmax_fails. rewrite squeeze_one_row.
      unfold eq_zero_Z. cbn [shape]. rewrite Hs.
      destruct (decide (t = 1%nat)); simpl; lia.
    + eexists _, _. split.
      * rewrite lstm_forward_split, (bind_ok _ _ _ _ _ Es), Hsm. by apply weights_abs.
      * cbn [shape]. apply squeeze_one_row.
  - intros g D x h Hs. split; [apply mlp_softmax_raises|].
    destruct (mlp_scores_ok g D false x [1%nat] h Hs) as (z & Es & Hz).
    eexists _, _. split.
    + rewrite mlp_forward_split, (bind_ok _ _ _ _ _ Es).
      apply weights_abs; [apply lookup_insert_eq|done].
    + done.
Qed.

Lemma one_row_tokens (beta : R) (use_softmax : bool) :
  Forall (fun z => (0 <= z < Z.of_nat (num_embeddings
            (MetaTaskLstmNetwork.embedding (Examples.head_net beta use_softmax))))%Z)
         (data Examples.one_row).
Proof. simpl. repeat constructor; lia. Qed.

Lemma one_row_batch_witness :
  (exists h', MetaTaskLstmNetwork.forward (Examples.head_net 0 true) Examples.one_row
                Examples.head_store = (h', inl RuntimeError)) /\
  (exists h' wgt, MetaTaskLstmNetwork.forward (Examples.head_net 0 false) Examples.one_row
                    Examples.head_store = (h', inr wgt) /\ shape wgt = [3%nat]).
Proof.
  destruct one_row_batch as (Hl & _ & _).
  split.
  - exact (proj1 (Hl (Examples.head_net 0 true) Examples.one_row Examples.head_store
                     3%nat 1%nat 1%nat 1%nat (head_net_valid 0 true) eq_refl eq_refl
                     (le_S _ _ (le_S _ _ (le_n 1))) (one_row_tokens 0 true)) eq_refl).
  - exact (proj2 (Hl (Examples.head_net 0 false) Examples.one_row Examples.head_store
                     3%nat 1%nat 1%nat 1%nat (head_net_valid 0 false) eq_refl eq_refl
                     (le_S _ _ (le_S _ _ (le_n 1))) (one_row_tokens 0 false)) eq_refl).
Defined.

(** C10 as stated fails: on a batch of one row the sequence network with
    the softmax raises the size error of the in-place fill, not the
    dimension error of the softmax; so does the vector network. *)
Lemma one_row_error_is_not_softmax :
  (exists h', MetaTaskLstmNetwork.forward (Examples.head_net 0 true) Examples.one_row
                Examples.head_store = (h', inl RuntimeError)) /\
  snd (MetaTaskLstmNetwork.forward (Examples.head_net 0 true) Examples.one_row
         Examples.head_store) <> inl IndexError /\
  snd (MetaTaskMLPNetwork.forward (MetaTaskMLPNetwork.init (fun _ _ => 0) 3 true)
         (Tensor [1; 3]%nat [1; 2; 0]) ∅) <> inl IndexError.
Proof.
  assert (exists h', MetaTaskLstmNetwork.forward (Examples.head_net 0 true) Examples.one_row
                       Examples.head_store = (h', inl RuntimeError)) as [h' E].
  { rewrite lstm_forward_split.
    destruct (lstm_scores_ok (Examples.head_net 0 true) Examples.one_row Examples.head_store
                1 3 1 1 1 (head_net_valid 0 true) eq_refl eq_refl)
      as (h1 & l & z & out & Es & Hz & Hlz & _); [lia|lia|apply one_row_tokens|].
    exists h1. rewrite (bind_ok _ _ _ _ _ Es).
    apply (weights_softmax_fails l [1; 3; 1]%nat h1 (eq_zero_Z Examples.one_row)).
    simpl. lia. }
  split; [by exists h'|]. split.
  - by rewrite E.
  - destruct (mlp_softmax_raises (fun _ _ => 0) 3 (Tensor [1; 3]%nat [1; 2; 0]) ∅)
      as [h2 E2].
    by rewrite E2.
Qed.

(** The network the constructor returns is in the state [valid] describes. *)
Lemma init_valid (g : nat -> nat -> R) (enc : LSTM)
    (input_size lstm_hidden num_lstm_layers lstm_out : nat) (use_softmax : bool)
    (h h' : gmap loc (list R)) (self : MetaTaskLstmNetwork.t) :
  MetaTaskLstmNetwork.lstm_ok enc input_size num_lstm_layers lstm_hidden
    (MetaTaskLstmNetwork.lstm_out_size lstm_hidden lstm_out) ->
  MetaTaskLstmNetwork.init g enc input_size lstm_hidden num_lstm_layers lstm_out
    use_softmax h = (h', inr self) ->
  MetaTaskLstmNetwork.valid self h' num_lstm_layers lstm_hidden
    (MetaTaskLstmNetwork.lstm_out_size lstm_hidden lstm_out).
Proof.
  intros Henc. unfold MetaTaskLstmNetwork.init, bind, t_new, ret, raise.
  case_decide; [|done]. intros [= <- <-]. cbn [data shape randn].
  set (w := MetaTaskLstmNetwork.lstm_out_size lstm_hidden lstm_out).
  set (l1 := fresh (dom h)).
  set (h1 := <[l1 := _]> h).
  set (l2 := fresh (dom h1)).
  assert (l1 <> l2) as Hne.
  { intros Heq. apply (is_fresh (dom h1)). fold l2. rewrite <- Heq.
    unfold h1. rewrite dom_insert_L. by apply elem_of_union_l, elem_of_singleton. }
  unfold MetaTaskLstmNetwork.valid.
  cbn [MetaTaskLstmNetwork.h0 MetaTaskLstmNetwork.c0 MetaTaskLstmNetwork.embedding
       MetaTaskLstmNetwork.lstm MetaTaskLstmNetwork.out_net ref_loc
       table num_embeddings embedding_dim in_features out_features new_linear].
  split; [|split; [|split; [|split; [|split]]]]; try done.
  - eexists. split; [done|]. split.
    + rewrite lookup_insert_ne by done. apply lookup_insert_eq.
    + rewrite length_map, length_seq. simpl. lia.
  - eexists. split; [done|]. split; [apply lookup_insert_eq|].
    rewrite length_map, length_seq. simpl. lia.
  - by rewrite length_map, length_seq.
Qed.

(** * Further properties of the code *)

(** ** [epoch_step] and [train] *)

Section TrainFacts.

Context {Input Aux : Type}.
Variable model : list (string * tensor R) -> Aux -> Input -> list R.
Variable optimize : R -> list (string * tensor R) -> Aux -> Input -> list R
                    -> list (string * tensor R) * Aux.

Lemma one_batch_fields (train : bool) (self self' : Pretrain.t) b m :
  Pretrain.one_batch model optimize train self b = inr (self', m) ->
  Pretrain.same_run self self' /\ (train = false -> self' = self).
Proof.
  unfold Pretrain.one_batch.
  destruct (Pretrain.batch_losses _ _ _) as [|[[[l m'] a] r]]; simpl; [done|].
  intros [= <- _]. destruct train; simpl; by repeat split.
Qed.

Lemma batches_fields (train : bool) (dl : list (Input * list R)) :
  forall (self self' : Pretrain.t) ms es rs out,
  Pretrain.batches model optimize train self dl ms es rs = inr (self', out) ->
  Pretrain.same_run self self' /\ (train = false -> self' = self).
Proof.
  induction dl as [|b dl IH]; intros self self' ms es rs out; simpl.
  - intros [= <- _]. by repeat split.
  - destruct (Pretrain.one_batch _ _ _ _ _) as [|[s1 [[m a] r]]] eqn:E; simpl; [done|].
    intros H. apply IH in H as [(H1 & H2 & H3 & H4 & H5) Hf].
    apply one_batch_fields in E as [(G1 & G2 & G3 & G4 & G5) Gf].
    split; [repeat split; congruence|].
    intros Ht. rewrite Hf, Gf by done. done.
Qed.

Lemma epoch_step_fields (self self' : Pretrain.t) (dl : list (Input * list R))
    (train : bool) m :
  Pretrain.epoch_step model optimize self dl train = inr (self', m) ->
  Pretrain.same_run self self' /\ (train = false -> self' = self).
Proof.
  unfold Pretrain.epoch_step.
  destruct (Pretrain.batches _ _ _ _ _ _ _ _) as [|[s1 [[ms es] rs]]] eqn:E; simpl; [done|].
  intros [= <- _]. by eapply batches_fields.
Qed.

(** One epoch of [train], case by case. *)
Lemma train_epoch_spec (tl vl : list (Input * list R)) (self self' : Pretrain.t)
    (w w' : Pretrain.world) (epoch : Z) :
  Pretrain.train_epoch model optimize tl vl (self, w) epoch = inr (self', w') ->
  exists s1 mse mae rmse,
    Pretrain.epoch_step model optimize self tl true = inr (s1, (mse, mae, rmse)) /\
    Pretrain.bert self' = Pretrain.bert s1 /\ Pretrain.aux self' = Pretrain.aux s1 /\
    Pretrain.normalize_loss self' = Pretrain.normalize_loss self /\
    Pretrain._train_step self' = (Pretrain._train_step self + 1)%Z /\
    Pretrain.last_epoch self' = S (Pretrain.last_epoch self) /\
    Pretrain.scalars w'
    = Pretrain.scalars w ++ [("train/MSEloss"%string, mse, Pretrain._train_step self);
                             ("train/MAEloss"%string, mae, Pretrain._train_step self)] /\
    (((epoch mod 10 = 0)%Z /\ Pretrain.best_valid_rmse_loss self > rmse /\
      Pretrain.best_valid_rmse_loss self' = rmse /\ Pretrain.best_step self' = epoch /\
      Pretrain.save_dir w'
      = <[Pretrain._train_step self := Pretrain.bert s1]> (Pretrain.save_dir w)) \/
     (((epoch mod 10 <> 0)%Z \/ ~ Pretrain.best_valid_rmse_loss self > rmse) /\
      Pretrain.best_valid_rmse_loss self' = Pretrain.best_valid_rmse_loss self /\
      Pretrain.best_step self' = Pretrain.best_step self /\
      Pretrain.save_dir w' = Pretrain.save_dir w)).
Proof.
  unfold Pretrain.train_epoch.
  destruct (Pretrain.epoch_step model optimize self tl true) as [|[s1 [[mse mae] rmse]]] eqn:E;
    simpl; [done|].
  apply epoch_step_fields in E as [(G1 & G2 & G3 & G4 & G5) _].
  unfold Pretrain.LOG_INTERVAL, Pretrain.VAL_INTERVAL.
  rewrite (decide_True _ _ (Z.mod_1_r _)).
  intros H. exists s1, mse, mae, rmse. split; [done|].
  destruct (decide (epoch mod 10 = 0)%Z) as [He|He].
  - destruct (Pretrain.epoch_step model optimize s1 vl false) as [|[s2 m2]] eqn:E2;
      simpl in H; [done|].
    apply epoch_step_fields in E2 as [_ Hs2]. specialize (Hs2 eq_refl). subst s2.
    destruct (Rgt_dec (Pretrain.best_valid_rmse_loss s1) rmse) as [Hg|Hg];
      simpl in H; injection H as <- <-; simpl; rewrite ?G1, ?G2, ?G3, ?G4, ?G5 in *.
    + do 6 (split; [done|]). left. done.
    + do 6 (split; [done|]). right. split; [by right|done].
  - simpl in H. injection H as <- <-. simpl. rewrite ?G1, ?G2, ?G3, ?G4, ?G5.
    do 6 (split; [done|]). right. split; [by left|done].
Qed.

Lemma train_to_nat (tl vl : list (Input * list R)) (self : Pretrain.t)
    (w : Pretrain.world) (epochs : Z) :
  Pretrain.train model optimize tl vl self w epochs
  = Pretrain.train model optimize tl vl self w (Z.of_nat (Z.to_nat epochs)).
Proof. unfold Pretrain.train. by rewrite Nat2Z.id. Qed.

(** What [n] epochs of [train] do to the object, the directory and the
    writer. *)
Lemma train_run (tl vl : list (Input * list R)) (self : Pretrain.t)
    (w : Pretrain.world) (n : nat) :
  forall self' w',
  Pretrain.train model optimize tl vl self w (Z.of_nat n) = inr (self', w') ->
  Pretrain._train_step self' = (Pretrain._train_step self + Z.of_nat n)%Z /\
  Pretrain.last_epoch self' = (Pretrain.last_epoch self + n)%nat /\
  Pretrain.normalize_loss self' = Pretrain.normalize_loss self /\
  (Pretrain.best_valid_rmse_loss self' < Pretrain.best_valid_rmse_loss self \/
   Pretrain.best_valid_rmse_loss self' = Pretrain.best_valid_rmse_loss self /\
   Pretrain.best_step self' = Pretrain.best_step self /\
   Pretrain.save_dir w' = Pretrain.save_dir w) /\
  (exists new, Pretrain.scalars w' = Pretrain.scalars w ++ new /\
               length new = (2 * n)%nat) /\
  dom (Pretrain.save_dir w) ⊆ dom (Pretrain.save_dir w') /\
  (forall k, Pretrain.save_dir w' !! k <> Pretrain.save_dir w !! k ->
     exists e, (e < n)%nat /\ (Z.of_nat e mod 10 = 0)%Z /\
               k = (Pretrain._train_step self + Z.of_nat e)%Z).
Proof.
  induction n as [|n IH]; intros self' w'.
  - intros [= <- <-]. repeat split; try lia; try done.
    + right. done.
    + exists []. by rewrite app_nil_r.
  - rewrite train_succ.
    destruct (Pretrain.train model optimize tl vl self w (Z.of_nat n)) as [|[s1 w1]] eqn:E;
      simpl; [done|].
    destruct (IH s1 w1 eq_refl) as (I1 & I2 & I3 & I4 & (new & I5 & I5') & I6 & I7).
    intros H. apply train_epoch_spec in H
      as (s2 & mse & mae & rmse & _ & _ & _ & H3 & H4 & H5 & H6 & H7).
    split; [lia|]. split; [lia|]. split; [congruence|].
    split; [|split; [|split]].
    + destruct H7 as [(_ & Hg & Hb & _)|(_ & Hb & Hs & Hd)].
      * left. destruct I4 as [I4|(I4 & _)]; lra.
      * destruct I4 as [I4|(I4 & I4' & I4'')]; [left; lra|right].
        repeat split; congruence.
    + eexists. rewrite H6, I5, <- app_assoc. split; [done|].
      rewrite length_app, I5'. simpl. lia.
    + etrans; [exact I6|].
      destruct H7 as [(_ & _ & _ & _ & ->)|(_ & _ & _ & ->)]; [|done].
      rewrite dom_insert_L. apply union_subseteq_r.
    + intros k Hk.
      destruct H7 as [(He & _ & _ & _ & Hd)|(_ & _ & _ & Hd)]; rewrite Hd in Hk.
      * destruct (decide (k = Pretrain._train_step s1)) as [->|Hne].
        -- exists n. split; [lia|]. split; [done|lia].
        -- rewrite lookup_insert_ne in Hk by done.
           destruct (I7 k Hk) as (e & ? & ? & ?). exists e. split; [lia|done].
      * destruct (I7 k Hk) as (e & ? & ? & ?). exists e. split; [lia|done].
Qed.

End TrainFacts.

(** X1.  A pass of [epoch_step] with [train=False] that returns leaves the
    object as it was: the parameters of the model, the moments of the
    optimiser and the bookkeeping fields. *)
Theorem validation_pass_keeps_object {Input Aux : Type}
    (model : list (string * tensor R) -> Aux -> Input -> list R)
    (optimize : R -> list (string * tensor R) -> Aux -> Input -> list R
                -> list (string * tensor R) * Aux)
    (self self' : Pretrain.t) (data_loader : list (Input * list R)) (m : R * R * R) :
  Pretrain.epoch_step model optimize self data_loader false = inr (self', m) ->
  self' = self.
Proof. intros H. by apply epoch_step_fields in H as [_ ->]. Qed.

Lemma validation_pass_keeps_object_witness :
  match Pretrain.epoch_step Examples.shift_model Examples.shift_optimize
          (Pretrain.init [] 0 false) [(0, [0]); (2, [0])] false with
  | inr (s, _) => s = Pretrain.init [] 0 false
  | inl _ => False
  end.
Proof.
  destruct (Pretrain.epoch_step _ _ _ _ _) as [e|[s m]] eqn:E.
  - vm_compute in E. discriminate E.
  - exact (validation_pass_keeps_object _ _ _ s _ m E).
Defined.

(** X2.  When [train], on a training loader that is not empty, returns,
    the step counter and the scheduler have advanced by the number of epochs
    run (none for [epochs <= 0]), [normalize_loss] is what it was, and the
    writer has received exactly two scalars per epoch, after the ones it
    had. *)
Theorem train_counters {Input Aux : Type}
    (model : list (string * tensor R) -> Aux -> Input -> list R)
    (optimize : R -> list (string * tensor R) -> Aux -> Input -> list R
                -> list (string * tensor R) * Aux)
    (tl vl : list (Input * list R)) (self self' : Pretrain.t)
    (w w' : Pretrain.world) (epochs : Z) :
  tl <> [] ->
  Pretrain.train model optimize tl vl self w epochs = inr (self', w') ->
  Pretrain._train_step self' = (Pretrain._train_step self + Z.max 0 epochs)%Z /\
  Pretrain.last_epoch self' = (Pretrain.last_epoch self + Z.to_nat epochs)%nat /\
  Pretrain.normalize_loss self' = Pretrain.normalize_loss self /\
  exists new, Pretrain.scalars w' = Pretrain.scalars w ++ new /\
              length new = (2 * Z.to_nat epochs)%nat.
Proof.
  intros _. rewrite train_to_nat. intros H.
  apply train_run in H as (H1 & H2 & H3 & _ & H5 & _).
  split; [lia|]. split; [done|]. split; done.
Qed.

Lemma train_counters_witness :
  exists s w,
    Pretrain.train Examples.shift_model Examples.shift_optimize
      [(0, [10])] [(0, [0])] (Pretrain.init [] 0 false) Examples.no_world 10 = inr (s, w) /\
    Pretrain._train_step s = 10%Z /\ Pretrain.last_epoch s = 10%nat.
Proof.
  destruct shift_train_10 as [sc H]. eexists _, _. split; [exact H|].
  destruct (train_counters _ _ _ _ _ _ _ _ _ (not_eq_sym (@nil_cons _ _ _)) H) as (H1 & H2 & _).
  split; [exact H1|exact H2].
Defined.

(** X3.  On a training loader that is not empty, [train] never raises
    [best_valid_rmse_loss]; and when it returns with the value it started
    with, [best_step] and the checkpoint directory are what they were: a
    checkpoint is written only together with a strict decrease.  No
    checkpoint is ever removed. *)
Theorem train_saves_only_on_decrease {Input Aux : Type}
    (model : list (string * tensor R) -> Aux -> Input -> list R)
    (optimize : R -> list (string * tensor R) -> Aux -> Input -> list R
                -> list (string * tensor R) * Aux)
    (tl vl : list (Input * list R)) (self self' : Pretrain.t)
    (w w' : Pretrain.world) (epochs : Z) :
  tl <> [] ->
  Pretrain.train model optimize tl vl self w epochs = inr (self', w') ->
  Pretrain.best_valid_rmse_loss self' <= Pretrain.best_valid_rmse_loss self /\
  (Pretrain.best_valid_rmse_loss self' = Pretrain.best_valid_rmse_loss self ->
   Pretrain.best_step self' = Pretrain.best_step self /\
   Pretrain.save_dir w' = Pretrain.save_dir w) /\
  dom (Pretrain.save_dir w) ⊆ dom (Pretrain.save_dir w').
Proof.
  intros _. rewrite train_to_nat. intros H.
  apply train_run in H as (_ & _ & _ & H4 & _ & H6 & _).
  split; [|split; [|done]].
  - destruct H4 as [H4|[H4 _]]; lra.
  - intros Heq. destruct H4 as [H4|(_ & H4)]; [lra|done].
Qed.

Lemma train_saves_only_on_decrease_witness :
  exists s w,
    Pretrain.train Examples.shift_model Examples.shift_optimize
      [(0, [10])] [(0, [0])] (Pretrain.init [] 0 false) Examples.no_world 10 = inr (s, w) /\
    Pretrain.best_valid_rmse_loss s <= 987654321.
Proof.
  destruct shift_train_10 as [sc H]. eexists _, _. split; [exact H|].
  exact (proj1 (train_saves_only_on_decrease _ _ _ _ _ _ _ _ _ (not_eq_sym (@nil_cons _ _ _)) H)).
Defined.

(** X4.  A checkpoint that [train], on a training loader that is not
    empty, wrote or replaced is keyed by the step counter of an epoch whose
    number is a multiple of 10: every key whose blob differs after the call
    is [_train_step + e] for an epoch [e < epochs] with [e mod 10 = 0]. *)
Theorem train_checkpoint_keys {Input Aux : Type}
    (model : list (string * tensor R) -> Aux -> Input -> list R)
    (optimize : R -> list (string * tensor R) -> Aux -> Input -> list R
                -> list (string * tensor R) * Aux)
    (tl vl : list (Input * list R)) (self self' : Pretrain.t)
    (w w' : Pretrain.world) (epochs : Z) :
  tl <> [] ->
  Pretrain.train model optimize tl vl self w epochs = inr (self', w') ->
  forall k, Pretrain.save_dir w' !! k <> Pretrain.save_dir w !! k ->
    exists e, (0 <= e < epochs)%Z /\ (e mod 10 = 0)%Z /\
              k = (Pretrain._train_step self + e)%Z.
Proof.
  intros _. rewrite train_to_nat. intros H k Hk.
  apply train_run in H as (_ & _ & _ & _ & _ & _ & H7).
  destruct (H7 k Hk) as (e & He & Hm & ->).
  exists (Z.of_nat e). split; [lia|done].
Qed.

Lemma train_checkpoint_keys_witness :
  exists s w,
    Pretrain.train Examples.shift_model Examples.shift_optimize
      [(0, [10])] [(0, [0])] (Pretrain.init [] 0 false) Examples.no_world 10 = inr (s, w) /\
    Pretrain.save_dir w !! 0%Z <> Pretrain.save_dir Examples.no_world !! 0%Z /\
    exists e, (0 <= e < 10)%Z /\ (e mod 10 = 0)%Z /\ 0%Z = (0 + e)%Z.
Proof.
  destruct shift_train_10 as [sc H]. eexists _, _. split; [exact H|].
  assert (Pretrain.save_dir (Pretrain.mkWorld (<[0%Z := []]> ∅) sc) !! 0%Z
          <> Pretrain.save_dir Examples.no_world !! 0%Z) as Hne.
  { simpl. rewrite lookup_insert_eq, lookup_empty. discriminate. }
  split; [exact Hne|].
  exact (train_checkpoint_keys _ _ _ _ _ _ _ _ _ (not_eq_sym (@nil_cons _ _ _)) H 0%Z Hne).
Defined.

(** ** The losses of a batch and of an epoch *)

Lemma mean_le_sqrt_mean_sq (l : list R) :
  Forall (fun x => 0 <= x) l ->
  Pretrain.mean l <= sqrt (Pretrain.mean (map (fun x => x * x) l)).
Proof.
  intros Hpos. destruct l as [|a l].
  - unfold Pretrain.mean. simpl. unfold Rdiv. rewrite Rmult_0_l, sqrt_0. lra.
  - set (l' := a :: l) in *.
    assert (0 < INR (length l')) as Hn by by apply INR_length_pos.
    pose proof (mean_nonneg l' Hpos) as Hm.
    rewrite <- (sqrt_square (Pretrain.mean l')) by done.
    apply sqrt_le_1_alt. pose proof (sum_sqr_le l') as Hs.
    unfold Pretrain.mean in *. rewrite length_map.
    set (s := Rsum l') in *. set (q := Rsum (map (fun x => x * x) l')) in *.
    set (n := INR (length l')) in *.
    replace (s / n * (s / n)) with (s * s / (n * n)) by (field; lra).
    apply (Rmult_le_reg_r (n * n)); [nra|].
    replace (s * s / (n * n) * (n * n)) with (s * s) by (field; lra).
    replace (q / n * (n * n)) with (n * q) by (field; lra).
    done.
Qed.

Lemma batch_mae_le_rmse (n : bool) (o t : list R) (l m a r : R) :
  Pretrain.batch_losses n o t = inr (l, m, a, r) -> 0 <= a /\ a <= r.
Proof.
  assert (forall x y m' a', Pretrain.MSELoss x y = inr m' -> Pretrain.L1Loss x y = inr a' ->
            0 <= a' /\ a' <= sqrt m') as Hmain.
  { intros x y m' a'. unfold Pretrain.MSELoss, Pretrain.L1Loss.
    destruct (Pretrain.broadcast x y) as [|ps]; simpl; [done|].
    intros [= <-] [= <-].
    assert (Forall (fun v => 0 <= v) (map (fun p : R * R => Rabs (fst p - snd p)) ps)) as Hp.
    { apply List.Forall_map, Forall_true. intros p. apply Rabs_pos. }
    split; [by apply mean_nonneg|].
    etrans; [by apply mean_le_sqrt_mean_sq|]. right. do 2 f_equal.
    rewrite map_map. apply map_ext. intros p.
    unfold Rabs. destruct (Rcase_abs _); ring. }
  unfold Pretrain.batch_losses. destruct n.
  - destruct (Pretrain.MSELoss o _) as [|l']; simpl; [done|].
    destruct (Pretrain.MSELoss (map _ o) t) as [|m'] eqn:Em; simpl; [done|].
    destruct (Pretrain.L1Loss _ t) as [|a'] eqn:Ea; simpl; [done|].
    intros [= <- <- <- <-]. by eapply Hmain.
  - destruct (Pretrain.MSELoss o t) as [|l'] eqn:Em; simpl; [done|].
    destruct (Pretrain.L1Loss o t) as [|a'] eqn:Ea; simpl; [done|].
    intros [= <- <- <- <-]. by eapply Hmain.
Qed.

Lemma mean_mono (e r : list R) : Forall2 Rle e r -> Pretrain.mean e <= Pretrain.mean r.
Proof.
  intros H. unfold Pretrain.mean. rewrite <- (Forall2_length _ _ _ H).
  assert (Rsum e <= Rsum r) as Hs.
  { induction H as [|x y e r Hxy _ IH]; simpl; lra. }
  destruct e as [|x e].
  - apply Forall2_nil_inv_l in H as ->. lra.
  - apply Rmult_le_compat_r; [|done].
    left. apply Rinv_0_lt_compat, INR_length_pos. discriminate.
Qed.

Section LossFacts.

Context {Input Aux : Type}.
Variable model : list (string * tensor R) -> Aux -> Input -> list R.
Variable optimize : R -> list (string * tensor R) -> Aux -> Input -> list R
                    -> list (string * tensor R) * Aux.

Lemma batches_mae (train : bool) (dl : list (Input * list R)) :
  forall (self self' : Pretrain.t) (ms es rs ms' es' rs' : list R),
  Pretrain.batches model optimize train self dl ms es rs = inr (self', (ms', es', rs')) ->
  exists e r, es' = es ++ e /\ rs' = rs ++ r /\ Forall2 Rle e r /\
              Forall (fun v => 0 <= v) e.
Proof.
  induction dl as [|b dl IH]; intros self self' ms es rs ms' es' rs'; simpl.
  - intros [= _ _ <- <-]. exists [], []. by rewrite !app_nil_r.
  - destruct (Pretrain.one_batch _ _ _ _ _) as [|[s1 [[m a] r]]] eqn:E; simpl; [done|].
    intros H. apply IH in H as (e' & r' & -> & -> & Hle & Hpos).
    unfold Pretrain.one_batch in E.
    destruct (Pretrain.batch_losses _ _ _) as [|[[[l m'] a'] r'']] eqn:Eb; simpl in E; [done|].
    injection E as _ <- <- <-. apply batch_mae_le_rmse in Eb as [Ha Har].
    exists (a' :: e'), (r'' :: r'). rewrite <- !app_assoc. simpl.
    repeat split; by constructor.
Qed.

Lemma batch_losses_total (n : bool) (o t : list R) :
  length o = length t -> exists l, Pretrain.batch_losses n o t = inr l.
Proof.
  intros Hl.
  assert (forall x y, length x = length y -> exists m, Pretrain.MSELoss x y = inr m) as Hm.
  { intros x y Hxy. unfold Pretrain.MSELoss, Pretrain.broadcast.
    rewrite decide_True by done. simpl. eauto. }
  assert (forall x y, length x = length y -> exists m, Pretrain.L1Loss x y = inr m) as Ha.
  { intros x y Hxy. unfold Pretrain.L1Loss, Pretrain.broadcast.
    rewrite decide_True by done. simpl. eauto. }
  unfold Pretrain.batch_losses. destruct n.
  - destruct (Hm o (map (fun r => r / 5) t)) as [l ->]; [by rewrite length_map|].
    destruct (Hm (map (fun x => x * 5) o) t) as [m ->]; [by rewrite length_map|].
    destruct (Ha (map (fun x => x * 5) o) t) as [a ->]; [by rewrite length_map|].
    simpl. eauto.
  - destruct (Hm o t Hl) as [l ->]. destruct (Ha o t Hl) as [a ->]. simpl. eauto.
Qed.

Lemma batches_total (train : bool) (dl : list (Input * list R)) :
  (forall b a batch, In batch dl -> length (model b a (fst batch)) = length (snd batch)) ->
  forall (self : Pretrain.t) ms es rs,
  exists out, Pretrain.batches model optimize train self dl ms es rs = inr out.
Proof.
  induction dl as [|b dl IH]; intros Hlen self ms es rs; simpl; [eauto|].
  unfold Pretrain.one_batch at 1.
  destruct (batch_losses_total (Pretrain.normalize_loss self)
              (model (Pretrain.bert self) (Pretrain.aux self) (fst b)) (snd b))
    as [[[[l m] a] r] ->]; [apply Hlen; by left|].
  simpl. apply IH. intros b' a' batch Hin. apply Hlen. by right.
Qed.

End LossFacts.

(** X5.  The MAE [epoch_step] reports for a loader that is not empty is
    non-negative and never above the RMSE it reports. *)
Theorem epoch_mae_le_rmse {Input Aux : Type}
    (model : list (string * tensor R) -> Aux -> Input -> list R)
    (optimize : R -> list (string * tensor R) -> Aux -> Input -> list R
                -> list (string * tensor R) * Aux)
    (self self' : Pretrain.t) (data_loader : list (Input * list R)) (train : bool)
    (mse mae rmse : R) :
  data_loader <> [] ->
  Pretrain.epoch_step model optimize self data_loader train
  = inr (self', (mse, mae, rmse)) ->
  0 <= mae /\ mae <= rmse.
Proof.
  intros _. unfold Pretrain.epoch_step.
  destruct (Pretrain.batches _ _ _ _ _ _ _ _) as [|[s1 [[ms es] rs]]] eqn:E; simpl; [done|].
  intros [= _ _ <- <-]. apply batches_mae in E as (e & r & -> & -> & Hle & Hpos).
  split; [by apply mean_nonneg|by apply mean_mono].
Qed.

Lemma epoch_mae_le_rmse_witness :
  match Pretrain.epoch_step Examples.shift_model Examples.shift_optimize
          (Pretrain.init [] 0 false) [(0, [0]); (2, [0])] true with
  | inr (_, (_, mae, rmse)) => 0 <= mae /\ mae <= rmse
  | inl _ => False
  end.
Proof.
  destruct (Pretrain.epoch_step _ _ _ _ _) as [e|[s [[mse mae] rmse]]] eqn:E.
  - vm_compute in E. discriminate E.
  - exact (epoch_mae_le_rmse _ _ _ s _ true mse mae rmse (not_eq_sym (@nil_cons _ _ _)) E).
Defined.

(** X6.  [epoch_step] returns whenever the model gives as many outputs as
    the batch has targets, for every batch of the loader. *)
Theorem epoch_step_returns {Input Aux : Type}
    (model : list (string * tensor R) -> Aux -> Input -> list R)
    (optimize : R -> list (string * tensor R) -> Aux -> Input -> list R
                -> list (string * tensor R) * Aux)
    (self : Pretrain.t) (data_loader : list (Input * list R)) (train : bool) :
  (forall b a batch, In batch data_loader ->
     length (model b a (fst batch)) = length (snd batch)) ->
  exists out, Pretrain.epoch_step model optimize self data_loader train = inr out.
Proof.
  unfold Pretrain.epoch_step. intros Hlen.
  destruct (batches_total model optimize train data_loader Hlen self [] [] [])
    as [[s1 [[ms es] rs]] ->].
  simpl. eauto.
Qed.

Lemma epoch_step_returns_witness :
  exists out,
    Pretrain.epoch_step Examples.shift_model Examples.shift_optimize
      (Pretrain.init [] 0 false) [(0, [0]); (2, [0])] true = inr out.
Proof.
  apply (epoch_step_returns Examples.shift_model Examples.shift_optimize
           (Pretrain.init [] 0 false) [(0, [0]); (2, [0])] true).
  intros b a batch [<-|[<-|[]]]; reflexivity.
Defined.


(** ** [_save_model], [load] and [main] *)

Lemma get_is_Some (k : string) (m : list (string * tensor R)) :
  is_Some (Pretrain.get k m) <-> In k (map fst m).
Proof.
  induction m as [|[k' v] m IH]; simpl.
  - split; [by intros [? ?]|done].
  - case_decide as Hk; [subst; split; eauto|].
    rewrite IH. split; [by right|]. by intros [?|?].
Qed.

Lemma get_app_notin (k : string) (pre l : list (string * tensor R)) :
  ~ In k (map fst pre) -> Pretrain.get k (pre ++ l) = Pretrain.get k l.
Proof.
  induction pre as [|[k' v] pre IH]; simpl; [done|]. intros Hn.
  rewrite decide_False by (intros ->; apply Hn; by left).
  apply IH. intros Hin. apply Hn. by right.
Qed.

Lemma input_param_shape (p q v : tensor R) :
  shape p = shape q -> Pretrain.input_param p v = Pretrain.input_param q v.
Proof. intros Hs. unfold Pretrain.input_param. by rewrite Hs. Qed.

Lemma input_param_same_shape (p v : tensor R) :
  shape v = shape p -> Pretrain.input_param p v = inr v.
Proof.
  intros Hs. unfold Pretrain.input_param. rewrite decide_False; [done|].
  rewrite Hs. intros [H0 H1]. rewrite H0 in H1. done.
Qed.

Lemma same_slot_names (m m' : list (string * tensor R)) :
  Forall2 Pretrain.same_slot m m' -> map fst m = map fst m'.
Proof. induction 1 as [|p q m m' [Hk _] _ IH]; simpl; [done|]. by rewrite Hk, IH. Qed.

Lemma same_slot_refl (m : list (string * tensor R)) : Forall2 Pretrain.same_slot m m.
Proof. induction m; constructor; done. Qed.

(** Whatever is stored, the parameters keep their names, their order and
    their shapes. *)
Lemma load_from_slots (m sd : list (string * tensor R)) :
  Forall2 Pretrain.same_slot m (fst (Pretrain._load_from_state_dict m sd)).
Proof.
  induction m as [|[k param] m IH]; simpl; [constructor|].
  destruct (Pretrain.get k sd) as [v|].
  - destruct (Pretrain.input_param param v) as [e|v'].
    + apply same_slot_refl.
    + case_decide; constructor; done.
  - constructor; done.
Qed.

Lemma load_from_idem (m sd : list (string * tensor R)) :
  Pretrain._load_from_state_dict (fst (Pretrain._load_from_state_dict m sd)) sd
  = Pretrain._load_from_state_dict m sd.
Proof.
  induction m as [|[k param] m IH]; simpl; [done|].
  destruct (Pretrain.get k sd) as [v|] eqn:Eg.
  - destruct (Pretrain.input_param param v) as [e|v'] eqn:Ei.
    + simpl. by rewrite Eg, Ei.
    + case_decide as Hs; simpl; rewrite Eg.
      * rewrite (input_param_shape v' param v Hs), Ei.
        rewrite decide_True by done. by rewrite IH.
      * rewrite Ei, decide_False by done. by rewrite IH.
  - simpl. by rewrite Eg, IH.
Qed.

Lemma unexpected_keys_names (m m' sd : list (string * tensor R)) :
  map fst m = map fst m' ->
  forallb (fun kv => bool_decide (is_Some (Pretrain.get (fst kv) m))) sd
  = forallb (fun kv => bool_decide (is_Some (Pretrain.get (fst kv) m'))) sd.
Proof.
  intros Hn. induction sd as [|kv sd IH]; simpl; [done|]. rewrite IH. f_equal.
  apply bool_decide_ext. by rewrite !get_is_Some, Hn.
Qed.

Lemma load_state_dict_idem (m sd : list (string * tensor R)) :
  Pretrain.load_state_dict (fst (Pretrain.load_state_dict m sd)) sd
  = Pretrain.load_state_dict m sd.
Proof.
  unfold Pretrain.load_state_dict. cbn [fst]. rewrite load_from_idem.
  by rewrite (unexpected_keys_names _ m sd)
    by (symmetry; apply same_slot_names, load_from_slots).
Qed.

(** A state dict with distinct names is loaded as it is into a model with
    the same names, in the same order, and the same shapes. *)
Lemma load_from_same_slots (pre m sd : list (string * tensor R)) :
  NoDup (map fst (pre ++ sd)) -> Forall2 Pretrain.same_slot m sd ->
  Pretrain._load_from_state_dict m (pre ++ sd) = (sd, inr true).
Proof.
  intros Hnd Hsl. revert pre Hnd.
  induction Hsl as [|[k param] [k' v] m sd [Hk Hs] _ IH]; intros pre Hnd; [done|].
  simpl in Hk, Hs. subst k'. simpl.
  assert (~ In k (map fst pre)) as Hpre.
  { rewrite map_app in Hnd. apply NoDup_app in Hnd as (_ & Hdis & _).
    intros Hin. apply (Hdis k); [by apply list_elem_of_In|]. simpl. left. }
  rewrite get_app_notin by done. simpl. rewrite decide_True by done.
  rewrite input_param_same_shape by done. rewrite decide_True by done.
  specialize (IH (pre ++ [(k, v)])). rewrite <- app_assoc in IH. simpl in IH.
  by rewrite IH.
Qed.

Lemma load_state_dict_same_slots (m sd : list (string * tensor R)) :
  NoDup (map fst sd) -> Forall2 Pretrain.same_slot m sd ->
  Pretrain.load_state_dict m sd = (sd, inr tt).
Proof.
  intros Hnd Hsl. unfold Pretrain.load_state_dict.
  pose proof (load_from_same_slots [] m sd Hnd Hsl) as E. simpl in E.
  rewrite E. cbn [fst snd rbind andb].
  assert (forallb (fun kv => bool_decide (is_Some (Pretrain.get (fst kv) m))) sd = true)
    as ->; [|done].
  apply no_unexpected_keys, Forall_forall. intros [k v] Hin.
  apply get_is_Some. rewrite (same_slot_names m sd Hsl).
  apply list_elem_of_In in Hin. by apply (in_map fst) in Hin.
Qed.

Lemma two_params_names : NoDup (map fst Examples.two_params).
Proof.
  simpl. apply NoDup_cons. split.
  - intros Hin. apply list_elem_of_In in Hin. simpl in Hin. by destruct Hin as [?|[]].
  - apply NoDup_singleton.
Qed.

(** X8.  A checkpoint can be read back: after [_save_model] on an object
    whose parameters have distinct names, [load] of its step counter into a
    model with the same names, in the same order, and the same shapes
    returns, and the parameters are the saved ones, the rest of the loading
    object being untouched; loading it into the object that saved it
    changes nothing. *)
Theorem save_then_load {Aux : Type} (self saved : Pretrain.t (Aux := Aux))
    (w : Pretrain.world) :
  NoDup (map fst (Pretrain.bert saved)) ->
  (Forall2 Pretrain.same_slot (Pretrain.bert self) (Pretrain.bert saved) ->
   Pretrain.load self (Pretrain._save_model saved w) (Pretrain._train_step saved)
   = (Pretrain.mk (Pretrain.bert saved) (Pretrain.aux self) (Pretrain.normalize_loss self)
        (Pretrain.best_valid_rmse_loss self) (Pretrain.best_step self)
        (Pretrain._train_step self) (Pretrain.last_epoch self), inr tt)) /\
  Pretrain.load saved (Pretrain._save_model saved w) (Pretrain._train_step saved)
  = (saved, inr tt).
Proof.
  intros Hnd.
  assert (forall s : Pretrain.t (Aux := Aux),
    Forall2 Pretrain.same_slot (Pretrain.bert s) (Pretrain.bert saved) ->
    Pretrain.load s (Pretrain._save_model saved w) (Pretrain._train_step saved)
    = (Pretrain.mk (Pretrain.bert saved) (Pretrain.aux s) (Pretrain.normalize_loss s)
         (Pretrain.best_valid_rmse_loss s) (Pretrain.best_step s)
         (Pretrain._train_step s) (Pretrain.last_epoch s), inr tt)) as H.
  { intros s Hl. unfold Pretrain.load, Pretrain.torch_load, Pretrain._save_model.
    cbn [Pretrain.save_dir]. rewrite lookup_insert_eq.
    by rewrite load_state_dict_same_slots. }
  split; [apply H|]. rewrite H by apply same_slot_refl. by destruct saved.
Qed.

Lemma save_then_load_witness :
  Pretrain.load Examples.two_params_self
    (Pretrain._save_model Examples.two_params_self Examples.other_dir) 0
  = (Examples.two_params_self, inr tt).
Proof.
  exact (proj2 (save_then_load Examples.two_params_self Examples.two_params_self
                  Examples.other_dir two_params_names)).
Defined.

(** X9.  [load], whether it returns or raises, keeps the names, the order
    and the shapes of the model's parameters and everything else in the
    object; and loading the same step twice gives what loading it once
    gives. *)
Theorem load_keeps_architecture {Aux : Type} (self : Pretrain.t (Aux := Aux))
    (w : Pretrain.world) (checkpoint_step : Z) :
  let self' := fst (Pretrain.load self w checkpoint_step) in
  Forall2 Pretrain.same_slot (Pretrain.bert self) (Pretrain.bert self') /\
  Pretrain.aux self' = Pretrain.aux self /\
  Pretrain.same_run self self' /\
  Pretrain.load self' w checkpoint_step = Pretrain.load self w checkpoint_step.
Proof.
  unfold Pretrain.load, Pretrain.torch_load.
  destruct (Pretrain.save_dir w !! checkpoint_step) as [sd|] eqn:E; cbn [fst snd].
  - cbn [fst snd Pretrain.bert Pretrain.aux].
    split; [apply load_from_slots|].
    split; [done|]. split; [by repeat split|].
    cbn [fst snd Pretrain.bert Pretrain.aux Pretrain.normalize_loss
                    Pretrain.best_valid_rmse_loss Pretrain.best_step
                    Pretrain._train_step Pretrain.last_epoch].
    by rewrite load_state_dict_idem.
  - split; [apply same_slot_refl|]. split; [done|]. split; [by repeat split|done].
Qed.

(** The rule for parameters without axes at work: the stored tensor of
    sizes (1) is accepted and the parameter holds its element. *)
Lemma load_takes_element_zero :
  Pretrain.load (Pretrain.init Examples.scalar_param tt false) Examples.old_dir 3
  = (Pretrain.init [("s"%string, Tensor [] [7])] tt false, inr tt).
Proof. reflexivity. Qed.

(** X10.  [main] with a checkpoint step above -1 raises [ValueError]
    without training when no checkpoint that fits the model is stored under
    that step; with a step of -1 or below it loads nothing and is [train]
    on the new object. *)
Theorem main_without_checkpoint {Input Aux : Type}
    (model : list (string * tensor R) -> Aux -> Input -> list R)
    (optimize : R -> list (string * tensor R) -> Aux -> Input -> list R
                -> list (string * tensor R) * Aux)
    (b : list (string * tensor R)) (a : Aux) (normalize : bool)
    (tl vl : list (Input * list R)) (w : Pretrain.world)
    (checkpoint_step pretrain_epochs : Z) :
  ((checkpoint_step > -1)%Z ->
   ~ (exists sd, Pretrain.save_dir w !! checkpoint_step = Some sd /\
                 Pretrain.loadable b sd) ->
   Pretrain.main model optimize b a normalize tl vl w checkpoint_step pretrain_epochs
   = inl ValueError) /\
  ((checkpoint_step <= -1)%Z ->
   Pretrain.main model optimize b a normalize tl vl w checkpoint_step pretrain_epochs
   = Pretrain.train model optimize tl vl (Pretrain.init b a normalize) w pretrain_epochs).
Proof.
  unfold Pretrain.main. split.
  - intros Hc Hno. rewrite decide_True by done.
    unfold Pretrain.load, Pretrain.torch_load. cbn [Pretrain.bert Pretrain.init].
    destruct (Pretrain.save_dir w !! checkpoint_step) as [sd|] eqn:E; cbn [fst snd]; [|done].
    pose proof (load_state_dict_returns b sd) as Hret.
    destruct (snd (Pretrain.load_state_dict b sd)) as [e|[]]; [done|].
    destruct Hno. exists sd. split; [done|]. by apply Hret.
  - intros Hc. by rewrite decide_False by lia.
Qed.

Lemma main_without_checkpoint_witness :
  Pretrain.main Examples.shift_model Examples.shift_optimize Examples.two_params 0 false
    [(0, [10])] [(0, [0])] Examples.other_dir 7 100
  = inl ValueError.
Proof.
  apply (proj1 (main_without_checkpoint Examples.shift_model Examples.shift_optimize
                  Examples.two_params 0 false [(0, [10])] [(0, [0])]
                  Examples.other_dir 7 100)).
  - reflexivity.
  - intros (sd & Hsd & Hl).
    assert (sd = Examples.other_blob) as ->.
    { unfold Examples.other_dir in Hsd. simpl in Hsd.
      rewrite lookup_insert_eq in Hsd. by injection Hsd. }
    apply load_state_dict_returns in Hl. vm_compute in Hl. discriminate Hl.
Defined.

(** X11.  When [main], on a training loader that is not empty, resumes
    from a stored checkpoint that fits and returns, training has started
    from the loaded parameters; the step
    counter is the checkpoint step plus the epochs run, while the scheduler
    has counted the epochs of this run only; the best value is at most the
    initial 987654321; and every checkpoint written or replaced is keyed by
    a step from the checkpoint step on. *)
Theorem main_resumes {Input Aux : Type}
    (model : list (string * tensor R) -> Aux -> Input -> list R)
    (optimize : R -> list (string * tensor R) -> Aux -> Input -> list R
                -> list (string * tensor R) * Aux)
    (b sd : list (string * tensor R)) (a : Aux) (normalize : bool)
    (tl vl : list (Input * list R)) (w w' : Pretrain.world) (self' : Pretrain.t)
    (checkpoint_step pretrain_epochs : Z) :
  tl <> [] ->
  (checkpoint_step > -1)%Z ->
  Pretrain.save_dir w !! checkpoint_step = Some sd ->
  Pretrain.loadable b sd ->
  Pretrain.main model optimize b a normalize tl vl w checkpoint_step pretrain_epochs
  = inr (self', w') ->
  Pretrain.main model optimize b a normalize tl vl w checkpoint_step pretrain_epochs
  = Pretrain.train model optimize tl vl
      (Pretrain.mk (fst (Pretrain.load_state_dict b sd)) a normalize 987654321 0
                   checkpoint_step 0) w pretrain_epochs /\
  Forall2 (Pretrain.restored sd) b (fst (Pretrain.load_state_dict b sd)) /\
  Pretrain._train_step self' = (checkpoint_step + Z.max 0 pretrain_epochs)%Z /\
  Pretrain.last_epoch self' = Z.to_nat pretrain_epochs /\
  Pretrain.best_valid_rmse_loss self' <= 987654321 /\
  (forall k, Pretrain.save_dir w' !! k <> Pretrain.save_dir w !! k ->
     (checkpoint_step <= k < checkpoint_step + pretrain_epochs)%Z).
Proof.
  intros _ Hc Hsd Hl.
  assert (Pretrain.main model optimize b a normalize tl vl w checkpoint_step pretrain_epochs
          = Pretrain.train model optimize tl vl
              (Pretrain.mk (fst (Pretrain.load_state_dict b sd)) a normalize 987654321 0
                           checkpoint_step 0) w pretrain_epochs)
    as ->.
  { unfold Pretrain.main. rewrite decide_True by done.
    unfold Pretrain.load, Pretrain.torch_load. rewrite Hsd.
    cbn [fst snd Pretrain.init Pretrain.bert Pretrain.aux Pretrain.normalize_loss
         Pretrain.best_valid_rmse_loss Pretrain.best_step Pretrain._train_step
         Pretrain.last_epoch].
    apply load_state_dict_returns in Hl. by rewrite Hl. }
  rewrite train_to_nat. intros H. split; [by rewrite <- train_to_nat|].
  split.
  { pose proof Hl as Hl'. apply load_state_dict_returns in Hl'.
    unfold Pretrain.load_state_dict in *. cbn [fst snd] in *.
    apply load_from_restored.
    by destruct (snd (Pretrain._load_from_state_dict b sd)) as [?|[|]]. }
  apply train_run in H as (H1 & H2 & _ & H4 & _ & _ & H7).
  cbn [Pretrain._train_step Pretrain.last_epoch Pretrain.best_valid_rmse_loss] in *.
  split; [lia|]. split; [lia|]. split.
  - destruct H4 as [H4|[H4 _]]; lra.
  - intros k Hk. destruct (H7 k Hk) as (e & He & _ & ->). lia.
Qed.

Lemma shift_main_resume :
  exists sc,
    Pretrain.main Examples.shift_model Examples.shift_optimize [] 0 false
      [(0, [10])] [(0, [0])] Examples.resume_world 0 1
    = inr (Pretrain.mk [] 1 false (10 - 0) 0 (0 + 1) 1,
           Pretrain.mkWorld (<[0%Z := []]> (<[0%Z := []]> ∅)) sc).
Proof.
  eexists.
  unfold Pretrain.main. rewrite decide_True by done.
  change (Pretrain.load _ Examples.resume_world 0)
    with (Pretrain.init (Aux := R) [] 0 false, @inr exn unit tt).
  cbn [fst snd]. unfold Pretrain.train.
  change (map Z.of_nat (seq 0 (Z.to_nat 1))) with [0%Z].
  cbn [fold_left rbind]. unfold Pretrain.init.
  rewrite (shift_epoch_save 0 1) by (done || lra). reflexivity.
Qed.

Lemma main_resumes_witness :
  exists s w,
    Pretrain.main Examples.shift_model Examples.shift_optimize [] 0 false
      [(0, [10])] [(0, [0])] Examples.resume_world 0 1 = inr (s, w) /\
    Pretrain._train_step s = 1%Z /\ Pretrain.last_epoch s = 1%nat.
Proof.
  destruct shift_main_resume as [sc H]. eexists _, _. split; [exact H|].
  destruct (main_resumes Examples.shift_model Examples.shift_optimize [] [] 0 false
              [(0, [10])] [(0, [0])] Examples.resume_world _ _ 0 1
              (not_eq_sym (@nil_cons _ _ _)) eq_refl eq_refl (conj (Forall_nil_2 _) (Forall_nil_2 _)) H)
    as (_ & _ & H1 & H2 & _).
  split; [exact H1|exact H2].
Defined.

(** ** The loss networks *)

Lemma fold_layers_inl (ls : list MetaStepLossNetwork.layer) (e : exn) :
  fold_left (fun acc l => rbind acc (MetaStepLossNetwork.apply_layer l)) ls (inl e)
  = inl e.
Proof. induction ls as [|l ls IH]; simpl; [done|]. apply IH. Qed.

Lemma hidden_layers_keep_shape (hid : nat) (outer : list nat)
    (ls : list MetaStepLossNetwork.layer) :
  Forall (fun l => exists lin, l = MetaStepLossNetwork.LinearReLU lin /\
                               in_features lin = hid /\ out_features lin = hid) ls ->
  forall x, shape x = outer ++ [hid] ->
  exists z, fold_left (fun acc l => rbind acc (MetaStepLossNetwork.apply_layer l)) ls (inr x)
            = inr (Tensor (outer ++ [hid]) z).
Proof.
  induction 1 as [|l ls (lin & -> & Hin & Hout) _ IH]; intros x Hs; simpl.
  - exists (data x). destruct x as [sx dx]. simpl in *. by subst.
  - destruct (linear_ok lin x outer) as (z1 & E1 & _); [by rewrite Hin|].
    rewrite E1, Hout. simpl. by apply IH.
Qed.

Lemma init_hidden_layers (g : nat -> nat -> nat -> R) (hid k : nat) :
  Forall (fun l => exists lin, l = MetaStepLossNetwork.LinearReLU lin /\
                               in_features lin = hid /\ out_features lin = hid)
         (map (fun i => MetaStepLossNetwork.LinearReLU (new_linear (g i) hid hid))
              (seq 0 k)).
Proof. apply List.Forall_map, Forall_true. intros i. eauto. Qed.

Lemma step_init_forward (g : nat -> nat -> nat -> R)
    (num_loss_hidden : nat) (num_loss_layers : Z) (x : tensor R) (outer : list nat) :
  shape x = outer ++ [num_loss_hidden] ->
  exists z,
    MetaStepLossNetwork.forward
      (MetaStepLossNetwork.init g num_loss_hidden num_loss_layers) x
    = inr (Tensor (outer ++ [1%nat]) z) /\
    length z = numel outer.
Proof.
  unfold MetaStepLossNetwork.forward, MetaStepLossNetwork.init.
  cbn [MetaStepLossNetwork.layers]. set (k := Z.to_nat (num_loss_layers - 1)).
  intros Hs. rewrite fold_left_app.
  destruct (hidden_layers_keep_shape num_loss_hidden outer _
              (init_hidden_layers g num_loss_hidden k) x Hs) as (z1 & ->).
  simpl.
  destruct (linear_ok (new_linear (g k) num_loss_hidden 1)
              (Tensor (outer ++ [num_loss_hidden]) z1) outer eq_refl) as (z & -> & Hz).
  exists z. split; [done|]. simpl in Hz. lia.
Qed.

(** X12.  The step network the constructor builds, whatever
    [num_loss_layers], maps a tensor whose last axis has [num_loss_hidden]
    entries to one number per vector, the other axes being kept; on any
    other input it raises the size error. *)
Theorem step_forward_shape (g : nat -> nat -> nat -> R)
    (num_loss_hidden : nat) (num_loss_layers : Z) (x : tensor R) :
  (forall outer, shape x = outer ++ [num_loss_hidden] ->
     exists z,
       MetaStepLossNetwork.forward
         (MetaStepLossNetwork.init g num_loss_hidden num_loss_layers) x
       = inr (Tensor (outer ++ [1%nat]) z) /\
       length z = numel outer) /\
  (last (shape x) <> Some num_loss_hidden ->
   MetaStepLossNetwork.forward
     (MetaStepLossNetwork.init g num_loss_hidden num_loss_layers) x
   = inl RuntimeError).
Proof.
  split; [intros outer; apply step_init_forward|].
  unfold MetaStepLossNetwork.forward, MetaStepLossNetwork.init.
  cbn [MetaStepLossNetwork.layers]. set (k := Z.to_nat (num_loss_layers - 1)).
  intros Hl. destruct k as [|k]; simpl.
  - by apply linear_bad_last.
  - rewrite (linear_bad_last (new_linear (g 0%nat) num_loss_hidden num_loss_hidden) x)
      by done.
    simpl. rewrite fold_left_app, fold_layers_inl. done.
Qed.

Lemma step_forward_shape_witness :
  exists z,
    MetaStepLossNetwork.forward (MetaStepLossNetwork.init (fun _ _ _ => 0) 4 2)
      (Tensor [4%nat] [1; 1; 1; 1])
    = inr (Tensor [1%nat] z) /\ length z = 1%nat.
Proof.
  exact (proj1 (step_forward_shape (fun _ _ _ => 0) 4 2 (Tensor [4%nat] [1; 1; 1; 1]))
               [] eq_refl).
Defined.

Lemma getitem_elem {A : Type} (l : list A) (idx : Z) (a : A) :
  getitem l idx = inr a -> In a l.
Proof.
  unfold getitem. case_decide; [|done].
  destruct (l !! _) as [a'|] eqn:E; [|done]. intros [= <-].
  apply list_elem_of_In. by eapply list_elem_of_lookup_2.
Qed.

(** X13.  A loss network built with [use_step_loss] has [num_inner_steps]
    instances, none when that number is 0 or negative, in which case every
    call raises [IndexError]; built without it, it has one instance.  On a
    tensor whose last axis has [num_loss_hidden] entries every call that
    does not raise [IndexError] returns one number per vector. *)
Theorem loss_network_instances (g : nat -> nat -> nat -> nat -> R)
    (num_inner_steps : Z) (num_loss_hidden : nat) (num_loss_layers : Z) :
  length (MetaLossNetwork.loss_layers
            (MetaLossNetwork.init g num_inner_steps num_loss_hidden num_loss_layers true))
  = Z.to_nat num_inner_steps /\
  length (MetaLossNetwork.loss_layers
            (MetaLossNetwork.init g num_inner_steps num_loss_hidden num_loss_layers false))
  = 1%nat /\
  ((num_inner_steps <= 0)%Z ->
   forall x step,
     MetaLossNetwork.forward
       (MetaLossNetwork.init g num_inner_steps num_loss_hidden num_loss_layers true) x step
     = inl IndexError) /\
  (forall (use_step_loss : bool) x outer step,
     shape x = outer ++ [num_loss_hidden] ->
     MetaLossNetwork.forward
       (MetaLossNetwork.init g num_inner_steps num_loss_hidden num_loss_layers use_step_loss)
       x step = inl IndexError \/
     exists z,
       MetaLossNetwork.forward
         (MetaLossNetwork.init g num_inner_steps num_loss_hidden num_loss_layers use_step_loss)
         x step = inr (Tensor (outer ++ [1%nat]) z) /\
       length z = numel outer).
Proof.
  split; [by rewrite init_loss_layers, length_map, length_seq|]. split; [done|]. split.
  - intros Hn x step. unfold MetaLossNetwork.forward.
    change (MetaLossNetwork.use_step_loss (MetaLossNetwork.init _ _ _ _ true)) with true.
    cbn match. rewrite getitem_out_of_range; [done|].
    rewrite init_loss_layers, length_map, length_seq. lia.
  - intros use_step_loss x outer step Hs.
    assert (forall inst,
              In inst (MetaLossNetwork.loss_layers
                         (MetaLossNetwork.init g num_inner_steps num_loss_hidden
                            num_loss_layers use_step_loss)) ->
              exists g', inst = MetaStepLossNetwork.init g' num_loss_hidden num_loss_layers)
      as Hinst.
    { intros inst. destruct use_step_loss.
      - rewrite init_loss_layers. intros Hin. apply in_map_iff in Hin as (s & <- & _). eauto.
      - intros [<-|[]]. eauto. }
    assert (forall idx,
              rbind (getitem (MetaLossNetwork.loss_layers
                                (MetaLossNetwork.init g num_inner_steps num_loss_hidden
                                   num_loss_layers use_step_loss)) idx)
                    (fun l => MetaStepLossNetwork.forward l x) = inl IndexError \/
              exists z,
                rbind (getitem (MetaLossNetwork.loss_layers
                                  (MetaLossNetwork.init g num_inner_steps num_loss_hidden
                                     num_loss_layers use_step_loss)) idx)
                      (fun l => MetaStepLossNetwork.forward l x)
                = inr (Tensor (outer ++ [1%nat]) z) /\ length z = numel outer) as Hdisp.
    { intros idx.
      destruct (getitem _ idx) as [e|inst] eqn:E.
      - left. simpl. unfold getitem in E. case_decide; [|congruence].
        destruct (_ !! _); congruence.
      - right. simpl. apply getitem_elem in E. apply Hinst in E as [g' ->].
        by apply step_init_forward. }
    unfold MetaLossNetwork.forward.
    destruct (MetaLossNetwork.use_step_loss _); apply Hdisp.
Qed.

Lemma loss_network_instances_witness :
  MetaLossNetwork.forward (MetaLossNetwork.init (fun _ _ _ _ => 0) 0 4 2 true)
    (Tensor [4%nat] [1; 1; 1; 1]) 0
  = inl IndexError.
Proof.
  exact (proj1 (proj2 (proj2 (loss_network_instances (fun _ _ _ _ => 0) 0 4 2)))
               ltac:(lia) (Tensor [4%nat] [1; 1; 1; 1]) 0%Z).
Defined.

(** ** The weighting networks *)

(** X14.  The sequence network checks its input before it touches the
    store: a token outside the embedding table raises [IndexError], and
    tokens that are in the table but not arranged as batch by time raise
    [ValueError]; in both cases the store is as it was. *)
Theorem lstm_forward_input_errors (self : MetaTaskLstmNetwork.t) (x : tensor Z)
    (h : gmap loc (list R)) :
  (~ Forall (fun z => (0 <= z < Z.of_nat (num_embeddings
                                            (MetaTaskLstmNetwork.embedding self)))%Z)
            (data x) ->
   MetaTaskLstmNetwork.forward self x h = (h, inl IndexError)) /\
  (Forall (fun z => (0 <= z < Z.of_nat (num_embeddings
                                          (MetaTaskLstmNetwork.embedding self)))%Z)
          (data x) ->
   length (shape x) <> 2%nat ->
   MetaTaskLstmNetwork.forward self x h = (h, inl ValueError)).
Proof.
  split.
  - intros Hx. unfold MetaTaskLstmNetwork.forward, embed.
    rewrite decide_False by done. done.
  - intros Hx Hs. unfold MetaTaskLstmNetwork.forward, embed.
    rewrite decide_True by done. unfold bind at 1, lift at 1. cbn [shape].
    destruct (shape x) as [|b [|t [|e s]]]; simpl in *; try done.
    by destruct s.
Qed.

Lemma lstm_forward_input_errors_witness :
  MetaTaskLstmNetwork.forward (Examples.head_net 0 true) (Tensor [1; 1]%nat [9%Z])
    Examples.head_store
  = (Examples.head_store, inl IndexError).
Proof.
  apply (proj1 (lstm_forward_input_errors (Examples.head_net 0 true)
                  (Tensor [1; 1]%nat [9%Z]) Examples.head_store)).
  intros H. apply Forall_cons in H as [H _]. vm_compute in H. destruct H as [_ H].
  discriminate H.
Defined.

Lemma preserves_mlp_scores (D : gset loc) (self : MetaTaskMLPNetwork.t) (x : tensor R) :
  preserves D (MetaTaskMLPNetwork.scores self x) (fun y => ref_loc y ∉ D).
Proof.
  unfold MetaTaskMLPNetwork.scores.
  eapply preserves_bind; [by apply (preserves_lift _ _ (fun _ => True))|]. intros y _.
  apply preserves_new.
Qed.

Lemma preserves_mlp_forward (D : gset loc) (self : MetaTaskMLPNetwork.t) (x : tensor R) :
  preserves D (MetaTaskMLPNetwork.forward self x) (fun _ => True).
Proof.
  intros h h' r HD E. rewrite mlp_forward_split in E. revert h h' r HD E.
  eapply preserves_bind; [apply preserves_mlp_scores|].
  intros y Hy. by apply preserves_weights.
Qed.

Lemma preserves_all {A : Type} (m : M A) (h h' : gmap loc (list R)) (r : res A) :
  preserves (dom h) m (fun _ => True) -> m h = (h', r) -> h ⊆ h'.
Proof.
  intros Hm E. destruct (Hm h h' r (reflexivity _) E) as (_ & Hk & _).
  apply map_subseteq_spec. intros l v Hl. rewrite Hk; [done|].
  apply elem_of_dom. eauto.
Qed.

(** X15.  A call of either weighting network, with or without the softmax
    and whether it returns or raises, changes no tensor that existed before
    the call: the in-place fill only ever writes to the scores the call
    itself has just computed. *)
Theorem forward_keeps_store :
  (forall (self : MetaTaskLstmNetwork.t) (x : tensor Z) (h h' : gmap loc (list R))
          (r : res (tensor R)),
     MetaTaskLstmNetwork.forward self x h = (h', r) -> h ⊆ h') /\
  (forall (self : MetaTaskMLPNetwork.t) (x : tensor R) (h h' : gmap loc (list R))
          (r : res (tensor R)),
     MetaTaskMLPNetwork.forward self x h = (h', r) -> h ⊆ h').
Proof.
  split; intros self x h h' r E.
  - eapply preserves_all; [apply preserves_lstm_forward|exact E].
  - eapply preserves_all; [apply preserves_mlp_forward|exact E].
Qed.

Lemma forward_keeps_store_witness :
  Examples.head_store
  ⊆ fst (MetaTaskLstmNetwork.forward (Examples.head_net 0 true) Examples.padded_batch
           Examples.head_store).
Proof.
  destruct (MetaTaskLstmNetwork.forward (Examples.head_net 0 true) Examples.padded_batch
              Examples.head_store) as [h' r] eqn:E.
  exact (proj1 forward_keeps_store _ _ _ _ _ E).
Defined.

(** X16.  The constructor of the sequence network raises [ValueError] when
    [lstm_out] is not below [lstm_hidden].  When it is, and there is at
    least one layer, the constructor returns; it leaves every stored tensor as
    it was and allocates two new ones, distinct from each other, for [h0]
    of sizes (layers, lstm_out or, when that is 0, lstm_hidden) and [c0] of
    sizes (layers, lstm_hidden); the embedding table has 7 rows of
    [input_size] entries and the head maps the output width to one number.
    A network so built is in the state the other results ask for. *)
Theorem init_allocates (g : nat -> nat -> R) (enc : LSTM)
    (input_size lstm_hidden num_lstm_layers lstm_out : nat) (use_softmax : bool)
    (h : gmap loc (list R)) :
  ((lstm_hidden <= lstm_out)%nat ->
   snd (MetaTaskLstmNetwork.init g enc input_size lstm_hidden num_lstm_layers lstm_out
          use_softmax h) = inl ValueError) /\
  ((0 < num_lstm_layers)%nat -> (lstm_out < lstm_hidden)%nat ->
   MetaTaskLstmNetwork.lstm_ok enc input_size num_lstm_layers lstm_hidden
     (MetaTaskLstmNetwork.lstm_out_size lstm_hidden lstm_out) ->
   exists h' self,
     MetaTaskLstmNetwork.init g enc input_size lstm_hidden num_lstm_layers lstm_out
       use_softmax h = (h', inr self) /\
     h ⊆ h' /\
     ref_loc (MetaTaskLstmNetwork.h0 self) <> ref_loc (MetaTaskLstmNetwork.c0 self) /\
     dom h' = {[ ref_loc (MetaTaskLstmNetwork.h0 self);
                 ref_loc (MetaTaskLstmNetwork.c0 self) ]} ∪ dom h /\
     (ref_loc (MetaTaskLstmNetwork.h0 self) ∉ dom h) /\
     (ref_loc (MetaTaskLstmNetwork.c0 self) ∉ dom h) /\
     ref_shape (MetaTaskLstmNetwork.h0 self)
     = [num_lstm_layers; if decide (lstm_out = 0%nat) then lstm_hidden else lstm_out] /\
     ref_shape (MetaTaskLstmNetwork.c0 self) = [num_lstm_layers; lstm_hidden] /\
     num_embeddings (MetaTaskLstmNetwork.embedding self) = 7%nat /\
     embedding_dim (MetaTaskLstmNetwork.embedding self) = input_size /\
     out_features (MetaTaskLstmNetwork.out_net self) = 1%nat /\
     MetaTaskLstmNetwork.use_softmax self = use_softmax /\
     MetaTaskLstmNetwork.valid self h' num_lstm_layers lstm_hidden
       (MetaTaskLstmNetwork.lstm_out_size lstm_hidden lstm_out)).
Proof.
  split.
  { intros Hn. unfold MetaTaskLstmNetwork.init, bind, t_new, raise.
    rewrite decide_False; [done|lia]. }
  intros Hl Ho Henc.
  destruct (MetaTaskLstmNetwork.init g enc input_size lstm_hidden num_lstm_layers lstm_out
              use_softmax h) as [h' r] eqn:E.
  pose proof E as E'.
  unfold MetaTaskLstmNetwork.init, bind, t_new, ret in E'.
  rewrite decide_True in E' by lia.
  injection E' as <- <-. cbn [data shape randn] in *.
  set (l1 := fresh (dom h)) in *.
  set (h1 := <[l1 := _]> h) in *.
  set (l2 := fresh (dom h1)) in *.
  assert (l1 ∉ dom h) as Hl1 by apply is_fresh.
  assert (l2 ∉ dom h1) as Hl2 by apply is_fresh.
  assert (dom h1 = {[ l1 ]} ∪ dom h) as Hd1 by (unfold h1; by rewrite dom_insert_L).
  eexists _, _. split; [reflexivity|].
  cbn [MetaTaskLstmNetwork.h0 MetaTaskLstmNetwork.c0 MetaTaskLstmNetwork.embedding
       MetaTaskLstmNetwork.out_net MetaTaskLstmNetwork.use_softmax
       ref_loc ref_shape num_embeddings embedding_dim out_features new_linear].
  split.
  { etrans; [|apply insert_subseteq; by apply not_elem_of_dom].
    unfold h1. apply insert_subseteq. by apply not_elem_of_dom. }
  split.
  { intros Heq. apply Hl2. rewrite Hd1, <- Heq.
    by apply elem_of_union_l, elem_of_singleton. }
  split.
  { rewrite dom_insert_L, Hd1, (assoc_L (∪)). f_equal. apply (comm_L (∪)). }
  split; [done|].
  split; [intros Hin; apply Hl2; rewrite Hd1; by apply elem_of_union_r|].
  split; [done|]. split; [done|]. split; [done|]. split; [done|]. split; [done|].
  split; [done|].
  by eapply init_valid.
Qed.

Lemma init_allocates_witness :
  exists h' self,
    MetaTaskLstmNetwork.init (fun _ _ => 0) Examples.zero_lstm 3 4 2 0 false ∅
    = (h', inr self) /\
    ref_shape (MetaTaskLstmNetwork.h0 self) = [2; 4]%nat /\
    ref_shape (MetaTaskLstmNetwork.c0 self) = [2; 4]%nat /\
    MetaTaskLstmNetwork.valid self h' 2 4 4.
Proof.
  destruct (proj2 (init_allocates (fun _ _ => 0) Examples.zero_lstm 3 4 2 0 false ∅)
              ltac:(lia) ltac:(lia) (zero_lstm_ok 3 2 4 _))
    as (h' & self & E & _ & _ & _ & _ & _ & Hh & Hc & _ & _ & _ & _ & Hv).
  exists h', self. split; [exact E|]. split; [exact Hh|]. split; [exact Hc|]. exact Hv.
Defined.

Lemma squeeze_scores (b t : nat) :
  fst (squeeze_dims [b; t; 1%nat] (contiguous_strides [b; t; 1%nat]))
  = (if decide (b = 1%nat) then [] else [b]) ++ (if decide (t = 1%nat) then [] else [t]).
Proof. simpl. by destruct (decide (b = 1%nat)), (decide (t = 1%nat)). Qed.

(** X17.  With the softmax the sequence network returns weights exactly for
    batches of at least two sequences of at least two tokens: then the
    result has a weight for every position; when the batch has one sequence
    or the sequences have one token, the call raises the size error of the
    in-place fill.  The vector network built with the softmax raises that
    error on every input. *)
Theorem softmax_needs_two_rows_and_columns :
  (forall (self : MetaTaskLstmNetwork.t) (x : tensor Z) (h : gmap loc (list R))
          (b t layers hidden w : nat),
     MetaTaskLstmNetwork.valid self h layers hidden w ->
     MetaTaskLstmNetwork.use_softmax self = true ->
     shape x = [b; t] -> wf x -> (0 < b)%nat -> (0 < t)%nat ->
     Forall (fun z => (0 <= z < Z.of_nat (num_embeddings
                                            (MetaTaskLstmNetwork.embedding self)))%Z)
            (data x) ->
     ((2 <= b)%nat /\ (2 <= t)%nat ->
      exists h' wgt, MetaTaskLstmNetwork.forward self x h = (h', inr wgt) /\
                     shape wgt = [b; t] /\ length (data wgt) = (b * t)%nat) /\
     (b = 1%nat \/ t = 1%nat ->
      exists h', MetaTaskLstmNetwork.forward self x h = (h', inl RuntimeError))) /\
  (forall (g : nat -> nat -> R) (D : nat) (x : tensor R) (h : gmap loc (list R)),
     exists h', MetaTaskMLPNetwork.forward (MetaTaskMLPNetwork.init g D true) x h
                = (h', inl RuntimeError)).
Proof.
  split; [|apply mlp_softmax_raises].
  intros self x h b t layers hidden w Hv Hsm Hs Hwf Hb Ht Hr. split.
  - intros [Hb2 Ht2].
    destruct (lstm_forward_softmax self x h b t layers hidden w Hv Hsm Hs Hwf Hb2 Ht2 Hr)
      as (h1 & y & z & out & wgt & _ & _ & _ & _ & Ef & Ew).
    eexists _, wgt. split; [exact Ef|].
    unfold softmax in Ew. cbn [shape length] in Ew.
    rewrite decide_True in Ew by (simpl; lia). injection Ew as <-.
    split; [done|]. cbn [data]. rewrite length_map, length_seq. simpl. lia.
  - intros Hone.
    destruct (lstm_scores_ok self x h b t layers hidden w Hv Hs Hwf Hb Ht Hr)
      as (h1 & l & z & out & Es & _).
    exists h1. rewrite lstm_forward_split, (bind_ok _ _ _ _ _ Es), Hsm.
    apply weights_softmax_fails. rewrite squeeze_scores.
    unfold eq_zero_Z. cbn [shape]. rewrite Hs.
    destruct Hone as [-> | ->].
    + rewrite decide_True by done. destruct (decide (t = 1%nat)); simpl; lia.
    + rewrite (decide_True (P := 1%nat = 1%nat)) by done.
      destruct (decide (b = 1%nat)); simpl; lia.
Qed.

Lemma softmax_needs_two_rows_and_columns_witness :
  exists h' wgt,
    MetaTaskLstmNetwork.forward (Examples.head_net 0 true) Examples.padded_batch
      Examples.head_store = (h', inr wgt) /\
    shape wgt = [2; 2]%nat /\ length (data wgt) = 4%nat.
Proof.
  exact (proj1 (proj1 softmax_needs_two_rows_and_columns
                  (Examples.head_net 0 true) Examples.padded_batch Examples.head_store
                  2%nat 2%nat 1%nat 1%nat 1%nat (head_net_valid 0 true) eq_refl eq_refl
                  eq_refl (le_S _ _ (le_n 1)) (le_S _ _ (le_n 1))
                  (padded_batch_tokens 0 true))
               (conj (le_n 2) (le_n 2))).
Defined.

(** X18.  Without the softmax the sequence network returns for every batch
    of tokens of the vocabulary: the absolute values of the head's scores,
    one per position, in a tensor whose axes are those of the batch with
    every axis of size 1 dropped; the store after the call is the one the
    head left. *)
Theorem lstm_abs_weights (self : MetaTaskLstmNetwork.t) (x : tensor Z)
    (h : gmap loc (list R)) (b t layers hidden w : nat) :
  MetaTaskLstmNetwork.valid self h layers hidden w ->
  MetaTaskLstmNetwork.use_softmax self = false ->
  shape x = [b; t] -> wf x -> (0 < b)%nat -> (0 < t)%nat ->
  Forall (fun z => (0 <= z < Z.of_nat (num_embeddings
                                         (MetaTaskLstmNetwork.embedding self)))%Z)
         (data x) ->
  exists h1 y z wgt,
    MetaTaskLstmNetwork.scores self x h = (h1, inr y) /\
    h1 !! ref_loc y = Some z /\
    MetaTaskLstmNetwork.forward self x h = (h1, inr wgt) /\
    data wgt = map Rabs z /\
    length (data wgt) = (b * t)%nat /\
    shape wgt = (if decide (b = 1%nat) then [] else [b])
                ++ (if decide (t = 1%nat) then [] else [t]).
Proof.
  intros Hv Hsm Hs Hwf Hb Ht Hr.
  destruct (lstm_scores_ok self x h b t layers hidden w Hv Hs Hwf Hb Ht Hr)
    as (h1 & l & z & out & Es & Hz & Hlz & _).
  eexists h1, _, z, _. split; [exact Es|]. split; [exact Hz|]. split.
  - rewrite lstm_forward_split, (bind_ok _ _ _ _ _ Es), Hsm. by apply weights_abs.
  - cbn [data shape]. split; [done|]. split; [|apply squeeze_scores].
    rewrite length_map. simpl in Hlz. lia.
Qed.

Lemma lstm_abs_weights_witness :
  exists h1 y z wgt,
    MetaTaskLstmNetwork.scores (Examples.head_net 1 false) Examples.one_row
      Examples.head_store = (h1, inr y) /\
    h1 !! ref_loc y = Some z /\
    MetaTaskLstmNetwork.forward (Examples.head_net 1 false) Examples.one_row
      Examples.head_store = (h1, inr wgt) /\
    data wgt = map Rabs z /\
    length (data wgt) = 3%nat /\
    shape wgt = [3%nat].
Proof.
  exact (lstm_abs_weights (Examples.head_net 1 false) Examples.one_row Examples.head_store
           1%nat 3%nat 1%nat 1%nat 1%nat (head_net_valid 1 false) eq_refl eq_refl
           eq_refl (le_n 1) (le_S _ _ (le_S _ _ (le_n 1))) (one_row_tokens 1 false)).
Defined.

Lemma fill_ext (m : list bool) (z1 z2 : list R) (c : R) :
  length z1 = length m -> length z2 = length m ->
  (forall p, (p < length m)%nat -> nth p m false = false -> nth p z1 0 = nth p z2 0) ->
  zip_with (fun (b : bool) x => if b then c else x) m z1
  = zip_with (fun (b : bool) x => if b then c else x) m z2.
Proof.
  intros H1 H2 Hp. apply (nth_ext _ _ 0 0).
  - rewrite !length_zip_with. lia.
  - intros p Hlt. rewrite length_zip_with in Hlt.
    rewrite !nth_fill by lia.
    destruct (nth p m false) eqn:Em; [done|]. apply Hp; [lia|done].
Qed.

(** X19.  With the softmax, the scores the head gives to padding positions
    have no influence on the result: two calls on the same batch, by
    networks whose scores agree at every position that holds a token other
    than 0, return the same weights. *)
Theorem padding_scores_ignored (self1 self2 : MetaTaskLstmNetwork.t) (x : tensor Z)
    (h1 h2 g1 g2 : gmap loc (list R)) (y1 y2 : tref) (z1 z2 : list R)
    (b t layers1 hidden1 w1 layers2 hidden2 w2 : nat) :
  MetaTaskLstmNetwork.valid self1 h1 layers1 hidden1 w1 ->
  MetaTaskLstmNetwork.valid self2 h2 layers2 hidden2 w2 ->
  MetaTaskLstmNetwork.use_softmax self1 = true ->
  MetaTaskLstmNetwork.use_softmax self2 = true ->
  shape x = [b; t] -> wf x -> (2 <= b)%nat -> (2 <= t)%nat ->
  Forall (fun z => (0 <= z < Z.of_nat (num_embeddings
                                         (MetaTaskLstmNetwork.embedding self1)))%Z)
         (data x) ->
  Forall (fun z => (0 <= z < Z.of_nat (num_embeddings
                                         (MetaTaskLstmNetwork.embedding self2)))%Z)
         (data x) ->
  MetaTaskLstmNetwork.scores self1 x h1 = (g1, inr y1) -> g1 !! ref_loc y1 = Some z1 ->
  MetaTaskLstmNetwork.scores self2 x h2 = (g2, inr y2) -> g2 !! ref_loc y2 = Some z2 ->
  (forall p, (p < b * t)%nat -> nth p (data x) 0%Z <> 0%Z -> nth p z1 0 = nth p z2 0) ->
  exists wgt,
    snd (MetaTaskLstmNetwork.forward self1 x h1) = inr wgt /\
    snd (MetaTaskLstmNetwork.forward self2 x h2) = inr wgt.
Proof.
  intros Hv1 Hv2 Hsm1 Hsm2 Hs Hwf Hb Ht Hr1 Hr2 Es1 Hz1 Es2 Hz2 Hagree.
  destruct (lstm_forward_softmax self1 x h1 b t layers1 hidden1 w1 Hv1 Hsm1 Hs Hwf Hb Ht Hr1)
    as (g1' & y1' & z1' & out1 & wgt1 & Es1' & Hz1' & Hl1 & _ & Ef1 & Ew1).
  destruct (lstm_forward_softmax self2 x h2 b t layers2 hidden2 w2 Hv2 Hsm2 Hs Hwf Hb Ht Hr2)
    as (g2' & y2' & z2' & out2 & wgt2 & Es2' & Hz2' & Hl2 & _ & Ef2 & Ew2).
  rewrite Es1 in Es1'. injection Es1' as <- <-.
  rewrite Es2 in Es2'. injection Es2' as <- <-.
  rewrite Hz1 in Hz1'. injection Hz1' as <-.
  rewrite Hz2 in Hz2'. injection Hz2' as <-.
  assert (length (data x) = (b * t)%nat) as Hlx.
  { unfold wf in Hwf. rewrite Hwf, Hs. simpl. lia. }
  assert (length (data (eq_zero_Z x)) = (b * t)%nat) as Hlm.
  { unfold eq_zero_Z. cbn [data]. by rewrite length_map. }
  rewrite (fill_ext _ z1 z2) in Ew1.
  - exists wgt1. rewrite Ef1, Ef2. cbn [snd]. split; [done|].
    rewrite Ew1 in Ew2. by injection Ew2 as <-.
  - lia.
  - lia.
  - intros p Hp Hm. rewrite Hlm in Hp. apply Hagree; [done|].
    rewrite nth_eq_zero_Z in Hm by lia. by apply bool_decide_eq_false in Hm.
Qed.

Lemma echo_lstm_ok (layers hidden : nat) :
  MetaTaskLstmNetwork.lstm_ok Examples.echo_lstm 1 layers hidden 1.
Proof.
  intros x hv cv b t _ _ Hx Hwf _ _ _ _. unfold Examples.echo_lstm.
  by eexists _, _.
Qed.

Lemma echo_net_valid (e0 : R) :
  MetaTaskLstmNetwork.valid (Examples.echo_net e0) Examples.head_store 1 1 1.
Proof.
  unfold MetaTaskLstmNetwork.valid, Examples.echo_net, Examples.head_store.
  cbn [MetaTaskLstmNetwork.h0 MetaTaskLstmNetwork.c0 MetaTaskLstmNetwork.embedding
       MetaTaskLstmNetwork.lstm MetaTaskLstmNetwork.out_net ref_loc
       table num_embeddings embedding_dim in_features out_features].
  split; [exists [0]; by rewrite lookup_insert_eq|].
  split; [exists [0]; by rewrite lookup_insert_ne, lookup_insert_eq|].
  split; [done|]. split; [apply echo_lstm_ok|done].
Qed.

Lemma echo_net_tokens (e0 : R) :
  Forall (fun z => (0 <= z < Z.of_nat (num_embeddings
            (MetaTaskLstmNetwork.embedding (Examples.echo_net e0))))%Z)
         (data Examples.padded_batch).
Proof. simpl. repeat constructor; lia. Qed.

(** The scores of the echo network on the padded batch are the embeddings
    of its tokens. *)
Lemma echo_net_scores (e0 : R) :
  exists g y,
    MetaTaskLstmNetwork.scores (Examples.echo_net e0) Examples.padded_batch
      Examples.head_store = (g, inr y) /\
    g !! ref_loc y = Some [1 * 1 + 0 + 0; 1 * e0 + 0 + 0; 1 * 1 + 0 + 0; 1 * e0 + 0 + 0].
Proof.
  eexists _, _. split; [vm_compute; reflexivity|]. vm_compute. reflexivity.
Qed.

Lemma padding_scores_ignored_witness :
  exists wgt,
    snd (MetaTaskLstmNetwork.forward (Examples.echo_net 5) Examples.padded_batch
           Examples.head_store) = inr wgt /\
    snd (MetaTaskLstmNetwork.forward (Examples.echo_net (-3)) Examples.padded_batch
           Examples.head_store) = inr wgt.
Proof.
  destruct (echo_net_scores 5) as (g1 & y1 & E1 & Hz1).
  destruct (echo_net_scores (-3)) as (g2 & y2 & E2 & Hz2).
  apply (padding_scores_ignored (Examples.echo_net 5) (Examples.echo_net (-3))
           Examples.padded_batch Examples.head_store Examples.head_store g1 g2 y1 y2
           _ _ 2 2 1 1 1 1 1 1 (echo_net_valid 5) (echo_net_valid (-3)) eq_refl eq_refl
           eq_refl eq_refl (le_n 2) (le_n 2) (echo_net_tokens 5) (echo_net_tokens (-3))
           E1 Hz1 E2 Hz2).
  intros p Hp Hx.
  destruct p as [|[|[|[|p]]]]; simpl in *; try done; lia.
Defined.
